(** * redis-sentinel-proxy: a shallow embedding of [main.go]

    The proxy polls a sentinel for the address of the current master,
    keeps it in the global [masterAddr], and closes the channel
    [masterStopChan] whenever the address changes so that the running
    proxy sessions drop their connections.

    The embedding follows [main.go] function by function.  Go code that
    talks to the network is written in a reader/state/error monad [M]:
    the reader part holds the command-line flags and the outside world
    (DNS, TCP peers), the state part holds the globals of the program,
    the channel heap and the list of actions performed so far, and the
    error part holds the two abnormal ways a Go function ends, a call to
    [os.Exit] (through [log.Fatal]) and a run-time panic.

    The goroutines ([main], [update_master] and one [proxy] per client) are
    put together in a second step: a run of the program is a sequence of
    their statements, taken in any order over the shared state. *)

From Stdlib Require Import String Ascii ZArith List Lia Bool DecimalString.
From stdpp Require Import gmap list.
Import ListNotations.

Local Open Scope string_scope.
Local Open Scope Z_scope.

(** Go's [error] values are only ever printed by this program; an error is
    modelled by its message. *)
Definition error : Type := string.

(** ** Package [strings] *)

Module strings.

(** [bytealg.IndexByteString s c]: position of the first [c] in [s]. *)
Fixpoint IndexByte (s : string) (c : ascii) : option nat :=
  match s with
  | EmptyString => None
  | String d s' =>
      if Ascii.eqb d c then Some O
      else match IndexByte s' c with
           | Some i => Some (S i)
           | None => None
           end
  end.

(** [bytealg.LastIndexByteString s c]: position of the last [c] in [s]. *)
Fixpoint LastIndexByte (s : string) (c : ascii) : option nat :=
  match s with
  | EmptyString => None
  | String d s' =>
      match LastIndexByte s' c with
      | Some i => Some (S i)
      | None => if Ascii.eqb d c then Some O else None
      end
  end.

(** The scanning loop of [strings.Split s sep] for a non-empty separator:
    [cur] is the part read so far, [skip] counts the bytes of a separator
    that was recognised and is still to be passed over. *)
Fixpoint Split_from (sep s : string) (skip : nat) (cur : string) : list string :=
  match s with
  | EmptyString => [cur]
  | String c s' =>
      match skip with
      | S k => Split_from sep s' k cur
      | O =>
          if String.prefix sep s
          then cur :: Split_from sep s' (String.length sep - 1) EmptyString
          else Split_from sep s' O (cur ++ String c EmptyString)
      end
  end.

(** [strings.Split s sep], for the non-empty separators the program uses. *)
Definition Split (s sep : string) : list string := Split_from sep s O EmptyString.

End strings.

(** ** Package [net]: addresses *)

Module net.

(** [net.TCPAddr]; a pointer to one is an [option TCPAddr].  The program
    never looks inside an IP address, it only prints it: the field [IP]
    holds the text that [net.IP.String] gives, with the empty string for a
    nil IP. *)
Record TCPAddr : Type := mkTCPAddr { IP : string; Port : Z; Zone : string }.

(** [itoa.Itoa]. *)
Definition Itoa (n : Z) : string := NilZero.string_of_int (Z.to_int n).

(** [net.JoinHostPort]. *)
Definition JoinHostPort (host port : string) : string :=
  match strings.IndexByte host ":" with
  | Some _ => "[" ++ host ++ "]:" ++ port
  | None => host ++ ":" ++ port
  end.

(** The method [String] of a [TCPAddr] pointer; it accepts a nil receiver. *)
Definition TCPAddr_String (a : option TCPAddr) : string :=
  match a with
  | None => "<nil>"
  | Some a =>
      if String.eqb (Zone a) EmptyString
      then JoinHostPort (IP a) (Itoa (Port a))
      else JoinHostPort (IP a ++ "%" ++ Zone a) (Itoa (Port a))
  end.

(** The text of a [net.AddrError]: the address is left out when it is
    empty. *)
Definition addrErr (addr why : string) : error :=
  if String.eqb addr EmptyString then why else "address " ++ addr ++ ": " ++ why.

Definition missingPort : string := "missing port in address".
Definition tooManyColons : string := "too many colons in address".

(** The slice of [s] from the index [n] on. *)
Definition from (n : nat) (s : string) : string :=
  String.substring n (String.length s - n) s.

(** [net.SplitHostPort]. *)
Definition SplitHostPort (hostport : string) : (string * string) + error :=
  match strings.LastIndexByte hostport ":" with
  | None => inr (addrErr hostport missingPort)
  | Some i =>
      let finish (host : string) (j k : nat) :=
        match strings.IndexByte (from j hostport) "[" with
        | Some _ => inr (addrErr hostport "unexpected '[' in address")
        | None =>
            match strings.IndexByte (from k hostport) "]" with
            | Some _ => inr (addrErr hostport "unexpected ']' in address")
            | None => inl (host, from (S i) hostport)
            end
        end in
      match String.get 0 hostport with
      | Some "["%char =>
          match strings.IndexByte hostport "]" with
          | None => inr (addrErr hostport "missing ']' in address")
          | Some end_ =>
              if Nat.eqb (S end_) (String.length hostport)
              then inr (addrErr hostport missingPort)
              else if Nat.eqb (S end_) i
              then finish (String.substring 1 (end_ - 1) hostport) 1%nat (S end_)
              else match String.get (S end_) hostport with
                   | Some ":"%char => inr (addrErr hostport tooManyColons)
                   | _ => inr (addrErr hostport missingPort)
                   end
          end
      | _ =>
          let host := String.substring 0 i hostport in
          match strings.IndexByte host ":" with
          | Some _ => inr (addrErr hostport tooManyColons)
          | None => finish host O O
          end
      end
  end.

End net.


(** ** The outside world, the flags and the state of the process *)

(** A TCP connection: a handle and the address of its peer. *)
Record Conn : Type := mkConn { conn_id : nat; RemoteAddr : string }.

(** A channel is a key of the channel heap. *)
Definition Chan : Type := nat.

(** [time.Duration], in nanoseconds. *)
Definition Duration : Type := Z.
Definition Millisecond : Duration := 1000000.
Definition Second : Duration := 1000 * Millisecond.

(** What the network answers.  Every question carries the number of
    questions asked before it, so that the answers may change while the
    program runs (a sentinel goes down, a master is promoted). *)
Record World : Type := mkWorld {
  (** the IP addresses of a host name, as texts *)
  LookupIP_at : nat -> string -> list string + error;
  (** the address of a host and a port, for [net.ResolveTCPAddr] *)
  resolve_at : nat -> string -> string -> net.TCPAddr + error;
  (** connecting to a host and a port on a network: the time it takes, and
      the reason why it fails, if it does *)
  connect_at : nat -> string -> string -> string -> N * option error;
  (** the bytes a peer sends *)
  read_at : nat -> string -> string + error;
  (** binding the listening socket *)
  listen_at : nat -> option net.TCPAddr -> option error;
  (** the next client: the address it connects from *)
  accept_at : nat -> string + error;
  (** the environment variable [SENTRY_DSN] and the result of [sentry.Init] *)
  SENTRY_DSN : option string;
  sentry_Init : string -> option error
}.

(** The command-line flags, after [flag.Parse]. *)
Record Flags : Type := mkFlags {
  localAddrAsStr : string;
  sentinelAddrAsStr : string;
  masterNameAsStr : string;
  logLevelAsStr : string
}.

Record Env : Type := mkEnv { world : World; flags : Flags }.

(** [logrus.Level], in the order of [logrus.AllLevels]. *)
Inductive Level : Type :=
| PanicLevel | FatalLevel | ErrorLevel | WarnLevel | InfoLevel | DebugLevel | TraceLevel.

(** The goroutines the program starts. *)
Inductive Task : Type :=
| TaskUpdateMaster
| TaskProxy (local : Conn) (remoteAddr : option net.TCPAddr) (masterStopChan : Chan)
| TaskPipe (r w : Conn) (proxyChan : Chan).

(** The actions of the program that can be seen from outside. *)
Inductive Event : Type :=
| EvLog (level : Level) (msg : string)
| EvSleep (d : Duration)
| EvDial (network address : string) (timeout : Duration) (conn : option Conn)
| EvWrite (c : Conn) (data : string)
| EvRead (c : Conn)
| EvConnClose (c : Conn)
| EvListen (laddr : option net.TCPAddr) (ok : bool)
| EvChanMake (c : Chan)
| EvChanClose (c : Chan)
| EvGo (t : Task).

Record State : Type := mkState {
  (** questions asked to the world so far *)
  clock : nat;
  (** time elapsed, in nanoseconds *)
  now : Z;
  (** actions performed so far, the oldest first *)
  trace : list Event;
  (** connections opened so far *)
  next_conn : nat;
  (** the level of the logger [log] *)
  log_level : Level;
  (** the global [masterAddr] *)
  masterAddr : option net.TCPAddr;
  (** the variable [masterStopChan] of [main], which [update_master]
      reaches through a pointer *)
  masterStopChan : Chan;
  (** the channels made so far: [true] once closed *)
  chans : gmap Chan bool
}.

(** How a Go function ends: it returns, the process exits, or it panics. *)
Inductive Outcome (A : Type) : Type :=
| Done (a : A)
| Exit (code : Z)
| Panic (msg : string).
Arguments Done {A} a.
Arguments Exit {A} code.
Arguments Panic {A} msg.

Definition M (A : Type) : Type := Env -> State -> Outcome A * State.

#[global] Instance M_ret : MRet M := fun A a _ st => (Done a, st).

#[global] Instance M_bind : MBind M := fun A B k m env st =>
  match m env st with
  | (Done a, st') => k a env st'
  | (Exit c, st') => (Exit c, st')
  | (Panic p, st') => (Panic p, st')
  end.

Definition ask : M Env := fun env st => (Done env, st).
Definition get : M State := fun _ st => (Done st, st).
Definition put (st : State) : M unit := fun _ _ => (Done tt, st).
Definition os_Exit {A} (code : Z) : M A := fun _ st => (Exit code, st).
Definition panic {A} (msg : string) : M A := fun _ st => (Panic msg, st).

(** [defer d] followed by [body]: the deferred call runs when the body
    returns or panics, not when the process exits. *)
Definition defer {A} (d : M unit) (body : M A) : M A := fun env st =>
  match body env st with
  | (Done a, st') =>
      match d env st' with
      | (Done _, st'') => (Done a, st'')
      | (Exit c, st'') => (Exit c, st'')
      | (Panic p, st'') => (Panic p, st'')
      end
  | (Exit c, st') => (Exit c, st')
  | (Panic p, st') =>
      match d env st' with
      | (Exit c, st'') => (Exit c, st'')
      | (_, st'') => (Panic p, st'')
      end
  end.

Definition set_clock (n : nat) (st : State) : State :=
  mkState n (now st) (trace st) (next_conn st) (log_level st)
          (masterAddr st) (masterStopChan st) (chans st).
Definition set_now (t : Z) (st : State) : State :=
  mkState (clock st) t (trace st) (next_conn st) (log_level st)
          (masterAddr st) (masterStopChan st) (chans st).
Definition set_trace (tr : list Event) (st : State) : State :=
  mkState (clock st) (now st) tr (next_conn st) (log_level st)
          (masterAddr st) (masterStopChan st) (chans st).
Definition set_next_conn (n : nat) (st : State) : State :=
  mkState (clock st) (now st) (trace st) n (log_level st)
          (masterAddr st) (masterStopChan st) (chans st).
Definition set_log_level (l : Level) (st : State) : State :=
  mkState (clock st) (now st) (trace st) (next_conn st) l
          (masterAddr st) (masterStopChan st) (chans st).
Definition set_masterAddr (a : option net.TCPAddr) (st : State) : State :=
  mkState (clock st) (now st) (trace st) (next_conn st) (log_level st)
          a (masterStopChan st) (chans st).
Definition set_masterStopChan (c : Chan) (st : State) : State :=
  mkState (clock st) (now st) (trace st) (next_conn st) (log_level st)
          (masterAddr st) c (chans st).
Definition set_chans (h : gmap Chan bool) (st : State) : State :=
  mkState (clock st) (now st) (trace st) (next_conn st) (log_level st)
          (masterAddr st) (masterStopChan st) h.

Definition modify (f : State -> State) : M unit := fun _ st => (Done tt, f st).

(** One more question to the world: its number. *)
Definition tick : M nat :=
  st ← get; put (set_clock (S (clock st)) st);; mret (clock st).

Definition emit (e : Event) : M unit :=
  modify (fun st => set_trace (trace st ++ [e]) st).

Definition elapse (d : Duration) : M unit :=
  modify (fun st => set_now (now st + d) st).

(** [time.Sleep]. *)
Definition time_Sleep (d : Duration) : M unit := emit (EvSleep d);; elapse d.

(** ** The logger *)

Definition log_at (l : Level) (msg : string) : M unit := emit (EvLog l msg).
Definition log_Tracef : string -> M unit := log_at TraceLevel.
Definition log_Infof : string -> M unit := log_at InfoLevel.
Definition log_Errorf : string -> M unit := log_at ErrorLevel.
Definition log_Error : string -> M unit := log_at ErrorLevel.

(** [log.Fatal] writes the entry and ends the process with status 1. *)
Definition log_Fatal {A} (msg : string) : M A := log_at FatalLevel msg;; os_Exit 1.

(** ** Channels *)

(** [make(chan string)]. *)
Definition make_chan : M Chan :=
  st ← get;
  let c := fresh (dom (chans st)) in
  put (set_chans (<[c := false]> (chans st)) st);;
  emit (EvChanMake c);;
  mret c.

(** [close(c)]; closing a channel twice is a panic. *)
Definition close_chan (c : Chan) : M unit :=
  st ← get;
  match chans st !! c with
  | Some false => put (set_chans (<[c := true]> (chans st)) st);; emit (EvChanClose c)
  | Some true => panic "close of closed channel"
  | None => panic "close of nil channel"
  end.

(** A receive [<-c] on a channel nobody sends on is ready once the
    channel is closed. *)
Definition closed (c : Chan) (st : State) : bool :=
  match chans st !! c with
  | Some true => true
  | _ => false
  end.

(** ** Package [net]: operations on the world *)

Definition nil_dereference : string :=
  "invalid memory address or nil pointer dereference".

(** The host and the port of an address given to [net.ResolveTCPAddr] and
    [net.Dial]: an empty address has neither, any other is split by
    [net.SplitHostPort]. *)
Definition hostport (address : string) : (string * string) + error :=
  if String.eqb address EmptyString then inl (EmptyString, EmptyString)
  else net.SplitHostPort address.

(** [net.ResolveTCPAddr network address], for the network "tcp". *)
Definition net_ResolveTCPAddr (network address : string)
  : M (option net.TCPAddr * option error) :=
  match hostport address with
  | inr err => mret (None, Some err)
  | inl (host, port) =>
      t ← tick;
      env ← ask;
      match resolve_at (world env) t host port with
      | inl a => mret (Some a, None)
      | inr err => mret (None, Some err)
      end
  end.

(** [net.LookupIP host]; only the texts of the addresses are kept. *)
Definition net_LookupIP (host : string) : M (list string * option error) :=
  t ← tick;
  env ← ask;
  match LookupIP_at (world env) t host with
  | inl ips => mret (ips, None)
  | inr err => mret ([], Some err)
  end.

(** [net.DialTimeout network address timeout]: an address that does not
    split fails at once; a connection that is not there after [timeout]
    fails when the timeout expires. *)
Definition net_DialTimeout (network address : string) (timeout : Duration)
  : M (option Conn * option error) :=
  match hostport address with
  | inr err =>
      emit (EvDial network address timeout None);;
      mret (None, Some ("dial " ++ network ++ ": " ++ err))
  | inl (host, port) =>
      t ← tick;
      env ← ask;
      let '(latency, failure) := connect_at (world env) t network host port in
      if timeout <=? Z.of_N latency then
        elapse timeout;;
        emit (EvDial network address timeout None);;
        mret (None, Some ("dial " ++ network ++ " " ++ address ++ ": i/o timeout"))
      else
        elapse (Z.of_N latency);;
        match failure with
        | Some err =>
            emit (EvDial network address timeout None);;
            mret (None, Some err)
        | None =>
            st ← get;
            let c := mkConn (next_conn st) address in
            put (set_next_conn (S (next_conn st)) st);;
            emit (EvDial network address timeout (Some c));;
            mret (Some c, None)
        end
  end.

(** A method call on a connection that may be nil. *)
Definition on_conn {A} (c : option Conn) (k : Conn -> M A) : M A :=
  match c with
  | Some c => k c
  | None => panic nil_dereference
  end.

(** [conn.Close()]; the result is not looked at anywhere. *)
Definition conn_Close (c : option Conn) : M unit :=
  on_conn c (fun c => emit (EvConnClose c)).

(** [conn.Write(data)]; the result is not looked at anywhere. *)
Definition conn_Write (c : option Conn) (data : string) : M unit :=
  on_conn c (fun c => emit (EvWrite c data)).

(** [make([]byte, n)]. *)
Fixpoint make_bytes (n : nat) : string :=
  match n with
  | O => EmptyString
  | S n => String zero (make_bytes n)
  end.

(** The buffer [b] once [data] was read into it, and the number of bytes
    read: the bytes of [b] past them are as they were. *)
Definition fill (b data : string) : string * nat :=
  let n := Nat.min (String.length data) (String.length b) in
  (String.substring 0 n data ++ net.from n b, n).

(** [conn.Read(b)]: the buffer after the call, the number of bytes read
    and the error.  The read returns here, with bytes or with an error.  The
    program sets no deadline on the connection, and a peer that accepts and
    then stays silent, for which the call would never return, has no
    counterpart in [read_at]: what is proved of a poll is proved of the
    polls whose reads return. *)
Definition conn_Read (c : option Conn) (b : string) : M (string * nat * option error) :=
  on_conn c (fun c =>
    t ← tick;
    env ← ask;
    emit (EvRead c);;
    match read_at (world env) t (RemoteAddr c) with
    | inl data => let '(b', n) := fill b data in mret (b', n, None)
    | inr err => mret (b, O, Some err)
    end).

(** ** [main.go] *)

Definition CRLF : string := String "013" (String "010" EmptyString).
Definition LF : string := String "010" EmptyString.

Definition ProxyDialTimeout : Duration := 50 * Millisecond.
Definition DialTimeout : Duration := 100 * Millisecond.
Definition SentryFlushTimeout : Duration := 5 * Second.

(** [logrus.AllLevels] and the method [String] of a level. *)
Definition AllLevels : list Level :=
  [PanicLevel; FatalLevel; ErrorLevel; WarnLevel; InfoLevel; DebugLevel; TraceLevel].

Definition Level_String (l : Level) : string :=
  match l with
  | PanicLevel => "panic"
  | FatalLevel => "fatal"
  | ErrorLevel => "error"
  | WarnLevel => "warning"
  | InfoLevel => "info"
  | DebugLevel => "debug"
  | TraceLevel => "trace"
  end.

Fixpoint parseLogLevel_range (levels : list Level) (levelAsStr : string) : Level :=
  match levels with
  | [] => ErrorLevel
  | levelOption :: rest =>
      if String.eqb (Level_String levelOption) levelAsStr then levelOption
      else parseLogLevel_range rest levelAsStr
  end.

Definition parseLogLevel (levelAsStr : string) : Level :=
  parseLogLevel_range AllLevels levelAsStr.

Definition setupLoggers : M unit :=
  env ← ask;
  let logLevel := parseLogLevel (logLevelAsStr (flags env)) in
  modify (set_log_level logLevel);;
  log_Infof ("Current log level is '" ++ Level_String logLevel ++ "'").

Definition checkArgs : M unit :=
  env ← ask;
  (if String.eqb (masterNameAsStr (flags env)) EmptyString
   then log_Fatal "Name of the master redis node is required argument."
   else mret tt);;
  '(_, err) ← net_ResolveTCPAddr "tcp" (localAddrAsStr (flags env));
  match err with
  | Some err =>
      log_Fatal ("Failed to resolve local address '" ++ localAddrAsStr (flags env)
                 ++ "': " ++ err)
  | None => mret tt
  end.

(** [*net.TCPListener]: the address it is bound to. *)
Record Listener : Type := mkListener { laddr : option net.TCPAddr }.

(** [net.ListenTCP "tcp" laddr]. *)
Definition net_ListenTCP (laddr : option net.TCPAddr) : M (option Listener * option error) :=
  t ← tick;
  env ← ask;
  match listen_at (world env) t laddr with
  | Some err => emit (EvListen laddr false);; mret (None, Some err)
  | None => emit (EvListen laddr true);; mret (Some (mkListener laddr), None)
  end.

Definition getLocalListener : M (option Listener) :=
  env ← ask;
  '(laddr, _) ← net_ResolveTCPAddr "tcp" (localAddrAsStr (flags env));
  '(listener, err) ← net_ListenTCP laddr;
  match err with
  | Some err => log_Fatal err
  | None => mret listener
  end.

(** [noop] and [flushSentry]: flushing the events buffered for Sentry does
    not touch the state of the proxy. *)
Definition noop : M unit := mret tt.
Definition flushSentry : M unit := mret tt.

Definition initSentry : M (M unit) :=
  env ← ask;
  let sentryDSN := match SENTRY_DSN (world env) with Some v => v | None => EmptyString end in
  if String.eqb sentryDSN EmptyString then mret noop
  else
    match sentry_Init (world env) sentryDSN with
    | Some err => log_Fatal ("sentry.Init: " ++ err)
    | None => mret flushSentry
    end.

Definition go (t : Task) : M unit := emit (EvGo t).

(** The body of [update_master] after the call of [getMasterAddr], for one
    turn of the loop. *)
Definition update_master_step (polled : option net.TCPAddr * option error) : M unit :=
  let '(possibleMaster, err) := polled in
  match err with
  | Some err =>
      log_Errorf ("[MASTER] Error polling for new master: " ++ err ++ ".");;
      time_Sleep (1 * Second)
  | None =>
      st ← get;
      (if negb (String.eqb (net.TCPAddr_String possibleMaster)
                           (net.TCPAddr_String (masterAddr st)))
       then
         log_Errorf ("[MASTER] Master Address changed from "
                     ++ net.TCPAddr_String (masterAddr st) ++ " to "
                     ++ net.TCPAddr_String possibleMaster ++ ".");;
         modify (set_masterAddr possibleMaster);;
         close_chan (masterStopChan st);;
         c ← make_chan;
         modify (set_masterStopChan c)
       else mret tt);;
      st ← get;
      match masterAddr st with
      | None => time_Sleep (1 * Second)
      | Some _ => time_Sleep (250 * Millisecond)
      end
  end.

(** [pipe], once [io.Copy] has returned [(bytes, err)]. *)
Definition pipe (r w : Conn) (proxyChan : Chan) (copied : Z * option error) : M unit :=
  let '(bytes, err) := copied in
  let line (e : string) :=
    "[PROXY " ++ RemoteAddr w ++ " => " ++ RemoteAddr r
    ++ "] Shutting down stream; transferred " ++ net.Itoa bytes ++ " bytes: " ++ e ++ LF in
  match err with
  | Some err => log_Errorf (line err)
  | None => log_Infof (line "<nil>")
  end;;
  close_chan proxyChan.

(** A session that has reached the [select] of [proxy]. *)
Record Session : Type := mkSession {
  sess_local : Conn;
  sess_remote : option Conn;
  sess_remoteAddr : option net.TCPAddr;
  sess_masterStopChan : Chan;
  sess_localChan : Chan;
  sess_remoteChan : Chan
}.

(** [proxy] up to its [select]: [None] when it has returned before. *)
Definition proxy (local : Conn) (remoteAddr : option net.TCPAddr) (masterStopChan : Chan)
  : M (option Session) :=
  '(remote, err) ← net_DialTimeout "tcp4" (net.TCPAddr_String remoteAddr) ProxyDialTimeout;
  match err with
  | Some err =>
      log_Infof ("[PROXY " ++ RemoteAddr local ++ " => " ++ net.TCPAddr_String remoteAddr
                 ++ "] Can't establish connection: " ++ err ++ LF);;
      conn_Close (Some local);;
      mret None
  | None =>
      localChan ← make_chan;
      remoteChan ← make_chan;
      on_conn remote (fun remote =>
        go (TaskPipe local remote remoteChan);;
        go (TaskPipe remote local localChan));;
      mret (Some (mkSession local remote remoteAddr masterStopChan localChan remoteChan))
  end.

(** The [select] of [proxy] can go on when one of its channels is closed. *)
Definition select_ready (s : Session) (st : State) : bool :=
  closed (sess_masterStopChan s) st
  || closed (sess_localChan s) st
  || closed (sess_remoteChan s) st.

(** [proxy] after its [select], with the two deferred calls. *)
Definition proxy_return (s : Session) : M unit :=
  defer (conn_Close (Some (sess_local s)))
    (defer (conn_Close (sess_remote s))
       (log_Infof ("[PROXY " ++ RemoteAddr (sess_local s) ++ " => "
                   ++ net.TCPAddr_String (sess_remoteAddr s) ++ "] Closing connection" ++ LF))).

Fixpoint getSentinels_range (sentinelPort : string) (sentinels : list string)
  (sentinelsWithPort : list (option net.TCPAddr)) : M (list (option net.TCPAddr)) :=
  match sentinels with
  | [] => mret sentinelsWithPort
  | sentinelIP :: rest =>
      let addr := net.JoinHostPort sentinelIP sentinelPort in
      log_Tracef ("Sentinel address: " ++ addr);;
      '(netAddr, err) ← net_ResolveTCPAddr "tcp" addr;
      match err with
      | Some _ => log_Errorf ("Can not resolve sentinel address: " ++ addr)
      | None => mret tt
      end;;
      getSentinels_range sentinelPort rest (sentinelsWithPort ++ [netAddr])
  end.

(** The result [err] is the named one: the [err] of the loop body is
    another variable, which ends with each turn. *)
Definition getSentinels (sentinelAddress : string)
  : M (list (option net.TCPAddr) * option error) :=
  match net.SplitHostPort sentinelAddress with
  | inr err => mret ([], Some ("Can't find Sentinel: " ++ err))
  | inl (sentinelHost, sentinelPort) =>
      '(sentinels, err) ← net_LookupIP sentinelHost;
      match err with
      | Some err => mret ([], Some ("Can't lookup Sentinel: " ++ err))
      | None =>
          sentinelsWithPort ← getSentinels_range sentinelPort sentinels [];
          mret (sentinelsWithPort, err)
      end
  end.

(** [responseParts[i]]. *)
Definition index (parts : list string) (i : nat) : M string :=
  match parts !! i with
  | Some p => mret p
  | None => panic "index out of range"
  end.

Definition getMasterAddrFromSentinelResponse (response : string)
  : M (option net.TCPAddr * option error) :=
  let responseParts := strings.Split response CRLF in
  if (length responseParts <? 5)%nat then
    log_Errorf ("Wrong sentinel response: '" ++ response ++ "'");;
    mret (None, Some "Couldn't get update_master address from sentinel.")
  else
    host ← index responseParts 2;
    port ← index responseParts 4;
    let stringAddr := host ++ ":" ++ port in
    net_ResolveTCPAddr "tcp" stringAddr.

Definition getMasterAddrFromSentinel (sentinelAddress : option net.TCPAddr)
  : M (option net.TCPAddr * option error) :=
  env ← ask;
  '(conn, err) ← net_DialTimeout "tcp" (net.TCPAddr_String sentinelAddress) DialTimeout;
  match err with
  | Some _ => mret (None, Some ("Sentinel no not respond: " ++ sentinelAddrAsStr (flags env)))
  | None =>
      defer (conn_Close conn)
        (conn_Write conn ("sentinel get-master-addr-by-name "
                          ++ masterNameAsStr (flags env) ++ LF);;
         let b := make_bytes 256 in
         '(b, _, err) ← conn_Read conn b;
         match err with
         | Some _ =>
             log_Errorf ("Cannot read from sentinel: " ++ sentinelAddrAsStr (flags env));;
             mret (None, Some ("Cannot read from sentinel: " ++ sentinelAddrAsStr (flags env)))
         | None => getMasterAddrFromSentinelResponse b
         end)
  end.

Fixpoint getMasterAddr_range (sentinels : list (option net.TCPAddr))
  : M (option net.TCPAddr * option error) :=
  match sentinels with
  | [] => mret (None, None)
  | sentinelAddress :: rest =>
      '(netMasterAddr, err) ← getMasterAddrFromSentinel sentinelAddress;
      match err with
      | Some err => log_Errorf ("Can not get master address from sentinel. " ++ err)
      | None => mret tt
      end;;
      '(conn2, err) ← net_DialTimeout "tcp" (net.TCPAddr_String netMasterAddr) DialTimeout;
      match err with
      | Some _ =>
          log_Errorf ("Can not dial master: " ++ net.TCPAddr_String netMasterAddr);;
          getMasterAddr_range rest
      | None => defer (conn_Close conn2) (mret (netMasterAddr, err))
      end
  end.

Definition getMasterAddr (sentinelAddress masterName : string)
  : M (option net.TCPAddr * option error) :=
  '(sentinels, err) ← getSentinels sentinelAddress;
  match err with
  | Some err => mret (None, Some ("Can't lookup Sentinel: " ++ err))
  | None => getMasterAddr_range sentinels
  end.

(** One turn of the loop of [update_master]. *)
Definition update_master_iter : M unit :=
  env ← ask;
  polled ← getMasterAddr (sentinelAddrAsStr (flags env)) (masterNameAsStr (flags env));
  update_master_step polled.

(** The first [n] turns of the loop of [update_master]. *)
Fixpoint update_master (n : nat) : M unit :=
  match n with
  | O => mret tt
  | S n => update_master_iter;; update_master n
  end.

(** [listener.AcceptTCP()]. *)
Definition AcceptTCP (listener : option Listener) : M (option Conn * option error) :=
  match listener with
  | None => panic nil_dereference
  | Some _ =>
      t ← tick;
      env ← ask;
      match accept_at (world env) t with
      | inr err => mret (None, Some err)
      | inl peer =>
          st ← get;
          put (set_next_conn (S (next_conn st)) st);;
          mret (Some (mkConn (next_conn st) peer), None)
      end
  end.

(** [main] up to its loop. *)
Definition main_startup : M (option Listener) :=
  sentryFinalizer ← initSentry;
  setupLoggers;;
  checkArgs;;
  masterStopChan ← make_chan;
  modify (set_masterStopChan masterStopChan);;
  go TaskUpdateMaster;;
  getLocalListener.

(** One turn of the loop of [main]. *)
Definition main_iter (listener : option Listener) : M unit :=
  '(local, err) ← AcceptTCP listener;
  match err with
  | Some err => log_Error err
  | None =>
      on_conn local (fun local =>
        st ← get;
        go (TaskProxy local (masterAddr st) (masterStopChan st)))
  end.

(** The first [n] turns of the loop of [main]. *)
Fixpoint main_loop (listener : option Listener) (n : nat) : M unit :=
  match n with
  | O => mret tt
  | S n => main_iter listener;; main_loop listener n
  end.

(** ** The goroutines together

    [update_master], [main] and the sessions run at the same time and share
    [masterAddr], [masterStopChan] and the channels.  Their statements are
    taken one at a time, in any order: a label says which goroutine goes on,
    and a read or a write of a variable is one step.  (The program has no
    lock around [masterAddr] and [masterStopChan]; a read is taken to see the
    last value written.) *)

(** The time [update_master] sleeps at the end of a turn. *)
Definition backoff (a : option net.TCPAddr) : Duration :=
  match a with
  | None => 1 * Second
  | Some _ => 250 * Millisecond
  end.

(** The statements of a turn of [update_master]: the comparison, with
    the entry of the log and the assignment of [masterAddr] ... *)
Inductive Compared : Type := Failed | Same | Changed.

Definition update_master_compare (polled : option net.TCPAddr * option error) : M Compared :=
  let '(possibleMaster, err) := polled in
  match err with
  | Some err =>
      log_Errorf ("[MASTER] Error polling for new master: " ++ err ++ ".");;
      time_Sleep (1 * Second);;
      mret Failed
  | None =>
      st ← get;
      if negb (String.eqb (net.TCPAddr_String possibleMaster)
                          (net.TCPAddr_String (masterAddr st)))
      then
        log_Errorf ("[MASTER] Master Address changed from "
                    ++ net.TCPAddr_String (masterAddr st) ++ " to "
                    ++ net.TCPAddr_String possibleMaster ++ ".");;
        modify (set_masterAddr possibleMaster);;
        mret Changed
      else mret Same
  end.

(** ... the close of the channel ... *)
Definition update_master_close : M unit :=
  st ← get; close_chan (masterStopChan st).

(** ... the new channel ... *)
Definition update_master_make : M unit :=
  c ← make_chan; modify (set_masterStopChan c).

(** ... and the sleep at the end. *)
Definition update_master_sleep : M unit :=
  st ← get; time_Sleep (backoff (masterAddr st)).

(** The statements of a turn of [main]: the accept, and the [go] statement
    once its argument [masterAddr] is evaluated. *)
Definition main_accept (listener : option Listener) : M (option Conn) :=
  '(local, err) ← AcceptTCP listener;
  match err with
  | Some err => log_Error err;; mret None
  | None => on_conn local (fun local => mret (Some local))
  end.

Definition main_go (local : Conn) (remoteAddr : option net.TCPAddr) : M Chan :=
  st ← get;
  go (TaskProxy local remoteAddr (masterStopChan st));;
  mret (masterStopChan st).

(** Where [update_master] is in its turn: before the poll, before the
    close, or before the new channel. *)
Inductive TrackerAt : Type := AtPoll | AtClose | AtMake.

(** Where [main] is in its turn: before the accept, or in the [go]
    statement with [local] and the value of [masterAddr]. *)
Inductive MainAt : Type :=
| AtAccept
| AtGo (local : Conn) (remoteAddr : option net.TCPAddr).

(** A session: before the dial returns, in its [select], or over. *)
Inductive SessionAt : Type :=
| Dialing (local : Conn) (remoteAddr : option net.TCPAddr) (masterStopChan : Chan)
| Selecting (s : Session)
| Returned.

(** The channel a session holds for the changes of the master. *)
Definition stop_of (p : SessionAt) : option Chan :=
  match p with
  | Dialing _ _ c => Some c
  | Selecting s => Some (sess_masterStopChan s)
  | Returned => None
  end.

Record System : Type := mkSystem {
  shared : State;
  tracker : TrackerAt;
  main_at : MainAt;
  listener_of : option Listener;
  (** the sessions, in the order they were started *)
  sessions : list SessionAt;
  (** the values [masterStopChan] has had, the current one first *)
  epochs : list Chan
}.

Inductive Label : Type :=
(** [update_master] gets [polled] from [getMasterAddr] and compares *)
| LPoll (polled : option net.TCPAddr * option error)
(** [update_master] closes the channel *)
| LClose
(** [update_master] makes the new channel and sleeps *)
| LMake
(** [main] accepts a client and reads [masterAddr] *)
| LAccept
(** [main] reads [masterStopChan] and starts the session *)
| LGo
(** the session [i] dials the master *)
| LDial (i : nat)
(** [io.Copy] returns in a pipe of the session [i] *)
| LPipe (i : nat) (to_master : bool) (copied : Z * option error)
(** the session [i] leaves its [select] *)
| LSelect (i : nat).

(** A statement that returns: its result and the state after it. *)
Definition returned {A} (res : Outcome A * State) : option (A * State) :=
  match res with
  | (Done a, st) => Some (a, st)
  | _ => None
  end.

Definition with_shared (st : State) (sys : System) : System :=
  mkSystem st (tracker sys) (main_at sys) (listener_of sys) (sessions sys) (epochs sys).
Definition with_tracker (t : TrackerAt) (sys : System) : System :=
  mkSystem (shared sys) t (main_at sys) (listener_of sys) (sessions sys) (epochs sys).
Definition with_main (m : MainAt) (sys : System) : System :=
  mkSystem (shared sys) (tracker sys) m (listener_of sys) (sessions sys) (epochs sys).
Definition with_sessions (l : list SessionAt) (sys : System) : System :=
  mkSystem (shared sys) (tracker sys) (main_at sys) (listener_of sys) l (epochs sys).
Definition with_epochs (l : list Chan) (sys : System) : System :=
  mkSystem (shared sys) (tracker sys) (main_at sys) (listener_of sys) (sessions sys) l.

(** One step of the system; [None] when the goroutine is not at that
    statement, or when the statement panics. *)
Definition sys_step (env : Env) (l : Label) (sys : System) : option System :=
  let st := shared sys in
  match l with
  | LPoll polled =>
      match tracker sys with
      | AtPoll =>
          match returned (update_master_compare polled env st) with
          | Some (Changed, st') => Some (with_tracker AtClose (with_shared st' sys))
          | Some (Same, st') =>
              match returned (update_master_sleep env st') with
              | Some (_, st'') => Some (with_shared st'' sys)
              | None => None
              end
          | Some (Failed, st') => Some (with_shared st' sys)
          | None => None
          end
      | _ => None
      end
  | LClose =>
      match tracker sys with
      | AtClose =>
          match returned (update_master_close env st) with
          | Some (_, st') => Some (with_tracker AtMake (with_shared st' sys))
          | None => None
          end
      | _ => None
      end
  | LMake =>
      match tracker sys with
      | AtMake =>
          match returned ((update_master_make;; update_master_sleep) env st) with
          | Some (_, st') =>
              Some (with_epochs (masterStopChan st' :: epochs sys)
                      (with_tracker AtPoll (with_shared st' sys)))
          | None => None
          end
      | _ => None
      end
  | LAccept =>
      match main_at sys with
      | AtAccept =>
          match returned (main_accept (listener_of sys) env st) with
          | Some (Some local, st') => Some (with_main (AtGo local (masterAddr st')) (with_shared st' sys))
          | Some (None, st') => Some (with_shared st' sys)
          | None => None
          end
      | _ => None
      end
  | LGo =>
      match main_at sys with
      | AtGo local remoteAddr =>
          match returned (main_go local remoteAddr env st) with
          | Some (c, st') =>
              Some (with_sessions (sessions sys ++ [Dialing local remoteAddr c])
                      (with_main AtAccept (with_shared st' sys)))
          | None => None
          end
      | _ => None
      end
  | LDial i =>
      match sessions sys !! i with
      | Some (Dialing local remoteAddr c) =>
          match returned (proxy local remoteAddr c env st) with
          | Some (Some s, st') =>
              Some (with_sessions (<[i := Selecting s]> (sessions sys)) (with_shared st' sys))
          | Some (None, st') =>
              Some (with_sessions (<[i := Returned]> (sessions sys)) (with_shared st' sys))
          | None => None
          end
      | _ => None
      end
  | LPipe i to_master copied =>
      match sessions sys !! i with
      | Some (Selecting s) =>
          match sess_remote s with
          | Some remote =>
              let p := if to_master
                       then pipe (sess_local s) remote (sess_remoteChan s) copied
                       else pipe remote (sess_local s) (sess_localChan s) copied in
              match returned (p env st) with
              | Some (_, st') => Some (with_shared st' sys)
              | None => None
              end
          | None => None
          end
      | _ => None
      end
  | LSelect i =>
      match sessions sys !! i with
      | Some (Selecting s) =>
          if select_ready s st then
            match returned (proxy_return s env st) with
            | Some (_, st') =>
                Some (with_sessions (<[i := Returned]> (sessions sys)) (with_shared st' sys))
            | None => None
            end
          else None
      | _ => None
      end
  end.

Fixpoint sys_run (env : Env) (labels : list Label) (sys : System) : option System :=
  match labels with
  | [] => Some sys
  | l :: labels =>
      match sys_step env l sys with
      | Some sys' => sys_run env labels sys'
      | None => None
      end
  end.

(** The system when [main] enters its loop. *)
Definition system_of (listener : option Listener) (st : State) : System :=
  mkSystem st AtPoll AtAccept listener [] [masterStopChan st].

(** The results of the polls of a run, and the numbers of closes and of
    new channels of [update_master] in it. *)
Fixpoint polls_of (labels : list Label) : list (option net.TCPAddr * option error) :=
  match labels with
  | [] => []
  | LPoll polled :: labels => polled :: polls_of labels
  | _ :: labels => polls_of labels
  end.

Fixpoint closes_of (labels : list Label) : nat :=
  match labels with
  | [] => O
  | LClose :: labels => S (closes_of labels)
  | _ :: labels => closes_of labels
  end.

Fixpoint makes_of (labels : list Label) : nat :=
  match labels with
  | [] => O
  | LMake :: labels => S (makes_of labels)
  | _ :: labels => makes_of labels
  end.

(** A poll that fails or finds an address. *)
Definition failed_or_found (polled : option net.TCPAddr * option error) : Prop :=
  polled <> (None, None).

(** The close that [update_master] still has to make. *)
Definition pending (t : TrackerAt) : nat :=
  match t with
  | AtClose => 1
  | _ => 0
  end.

(** The new channel that [update_master] still has to make. *)
Definition unmade (t : TrackerAt) : nat :=
  match t with
  | AtMake => 1
  | _ => 0
  end.

(** The channel [masterStopChan] is closed once [update_master] is past
    its close. *)
Definition fired (t : TrackerAt) : bool :=
  match t with
  | AtMake => true
  | _ => false
  end.

(** What holds of the channels all along: [masterStopChan] is the first of
    the [epochs], which are all different; it is open until [update_master]
    closes it, and the older ones are closed; a session holds one of the
    [epochs]; the channels of its pipes are others. *)
Record Inv (sys : System) : Prop := mkInv {
  inv_current : exists olds, epochs sys = masterStopChan (shared sys) :: olds;
  inv_nodup : NoDup (epochs sys);
  inv_open : chans (shared sys) !! masterStopChan (shared sys) = Some (fired (tracker sys));
  inv_olds : forall c, In c (epochs sys) -> c <> masterStopChan (shared sys) ->
                       chans (shared sys) !! c = Some true;
  inv_stop : forall p c, In p (sessions sys) -> stop_of p = Some c -> In c (epochs sys);
  inv_pipes : forall s, In (Selecting s) (sessions sys) ->
      is_Some (sess_remote s)
      /\ is_Some (chans (shared sys) !! sess_localChan s)
      /\ is_Some (chans (shared sys) !! sess_remoteChan s)
      /\ ~ In (sess_localChan s) (epochs sys)
      /\ ~ In (sess_remoteChan s) (epochs sys)
}.

(** What a statement leaves alone. *)
Definition same_heap (st st' : State) : Prop :=
  chans st' = chans st /\ masterStopChan st' = masterStopChan st.

(** What a step does to the place of [update_master], to [masterStopChan]
    and to [masterAddr]. *)
Inductive TrackerMove (sys sys' : System) : Label -> Prop :=
| move_failed pm e :
    tracker sys = AtPoll -> tracker sys' = AtPoll ->
    masterAddr (shared sys') = masterAddr (shared sys) ->
    TrackerMove sys sys' (LPoll (pm, Some e))
| move_same pm :
    tracker sys = AtPoll -> tracker sys' = AtPoll ->
    masterAddr (shared sys') = masterAddr (shared sys) ->
    net.TCPAddr_String pm = net.TCPAddr_String (masterAddr (shared sys)) ->
    TrackerMove sys sys' (LPoll (pm, None))
| move_changed pm :
    tracker sys = AtPoll -> tracker sys' = AtClose ->
    masterAddr (shared sys') = pm ->
    net.TCPAddr_String pm <> net.TCPAddr_String (masterAddr (shared sys)) ->
    TrackerMove sys sys' (LPoll (pm, None))
| move_close :
    tracker sys = AtClose -> tracker sys' = AtMake ->
    masterAddr (shared sys') = masterAddr (shared sys) ->
    TrackerMove sys sys' LClose
| move_make :
    tracker sys = AtMake -> tracker sys' = AtPoll ->
    masterAddr (shared sys') = masterAddr (shared sys) ->
    TrackerMove sys sys' LMake
| move_other l :
    tracker sys' = tracker sys ->
    masterAddr (shared sys') = masterAddr (shared sys) ->
    masterStopChan (shared sys') = masterStopChan (shared sys) ->
    polls_of [l] = [] -> closes_of [l] = O -> makes_of [l] = O ->
    TrackerMove sys sys' l.

(** ** Notions used to state what the program does *)

(** The part of the state that only [main] and [update_master] write. *)
Definition globals (st : State) : option net.TCPAddr * Chan * gmap Chan bool * Level :=
  (masterAddr st, masterStopChan st, chans st, log_level st).

(** [st'] comes after [st]: the actions [evs] were added to the trace, the
    clocks went on, and the globals are the same. *)
Definition extends (st st' : State) (evs : list Event) : Prop :=
  trace st' = (trace st ++ evs)%list
  /\ globals st' = globals st
  /\ (clock st <= clock st')%nat
  /\ now st <= now st'.

(** What [net.ResolveTCPAddr] answers for an address in the state [st]. *)
Definition resolve_now (env : Env) (st : State) (address : string)
  : option net.TCPAddr * option error :=
  match hostport address with
  | inr err => (None, Some err)
  | inl (host, port) =>
      match resolve_at (world env) (clock st) host port with
      | inl a => (Some a, None)
      | inr err => (None, Some err)
      end
  end.

(** A call that returns an error. *)
Definition returns_error {A} (res : Outcome (option A * option error) * State) : Prop :=
  exists v e st', res = (Done (v, Some e), st').

(** The state after the entry that [getMasterAddr] logs when a sentinel
    gave no address. *)
Definition logged_sentinel_error (err : option error) (st : State) : State :=
  match err with
  | Some err =>
      set_trace
        (trace st ++ [EvLog ErrorLevel ("Can not get master address from sentinel. " ++ err)]) st
  | None => st
  end.

(** The state after the entry that [getMasterAddr] logs when the dial of
    the candidate failed. *)
Definition logged_dial_error (cand : option net.TCPAddr) (st : State) : State :=
  set_trace
    (trace st ++ [EvLog ErrorLevel ("Can not dial master: " ++ net.TCPAddr_String cand)]) st.

(** [skips env sentinels st st']: from the state [st], the loop of
    [getMasterAddr] goes through all of [sentinels] without a dial of a
    candidate that goes through, and gets to the state [st']. *)
Inductive skips (env : Env) : list (option net.TCPAddr) -> State -> State -> Prop :=
| skips_nil st : skips env [] st st
| skips_cons s rest st cand e1 st1 derr st2 st' :
    getMasterAddrFromSentinel s env st = (Done (cand, e1), st1) ->
    net_DialTimeout "tcp" (net.TCPAddr_String cand) DialTimeout env (logged_sentinel_error e1 st1)
    = (Done (None, Some derr), st2) ->
    skips env rest (logged_dial_error cand st2) st' ->
    skips env (s :: rest) st st'.

(** [finds env sentinels st a st']: the loop skips some sentinels, then a
    sentinel gives the address [a], the dial of [a] goes through, and the
    connection is closed again. *)
Definition finds (env : Env) (sentinels : list (option net.TCPAddr)) (st : State)
  (a : net.TCPAddr) (st' : State) : Prop :=
  exists skipped s rest st1 st2 st3 c,
    sentinels = (skipped ++ s :: rest)%list
    /\ skips env skipped st st1
    /\ getMasterAddrFromSentinel s env st1 = (Done (Some a, None), st2)
    /\ net_DialTimeout "tcp" (net.TCPAddr_String (Some a)) DialTimeout env st2
       = (Done (Some c, None), st3)
    /\ st' = set_trace (trace st3 ++ [EvConnClose c]) st3.

(** The entry that [getSentinels] appends for one IP address: what
    [net.ResolveTCPAddr] gives, nil when it fails, in which case [evs]
    holds the entry of the log. *)
Definition sentinel_entry (env : Env) (port : string) (evs : list Event)
  (ip : string) (entry : option net.TCPAddr) : Prop :=
  let addr := net.JoinHostPort ip port in
  exists st1 err st2,
    net_ResolveTCPAddr "tcp" addr env st1 = (Done (entry, err), st2)
    /\ (entry = None ->
        is_Some err /\ In (EvLog ErrorLevel ("Can not resolve sentinel address: " ++ addr)) evs).

(** The state after a turn of the loop of [getMasterAddr] for a nil entry
    of the list of sentinels. *)
Definition skipped_nil (env : Env) (st : State) : State :=
  set_trace
    (trace st ++
     [EvDial "tcp" "<nil>" DialTimeout None;
      EvLog ErrorLevel ("Can not get master address from sentinel. "
                        ++ "Sentinel no not respond: " ++ sentinelAddrAsStr (flags env));
      EvDial "tcp" "<nil>" DialTimeout None;
      EvLog ErrorLevel "Can not dial master: <nil>"]) st.

(** The number of channels closed along a trace. *)
Fixpoint firings (tr : list Event) : nat :=
  match tr with
  | [] => O
  | EvChanClose _ :: tr => S (firings tr)
  | _ :: tr => firings tr
  end.

(** The addresses found by a sequence of polls: the results of the calls of
    [getMasterAddr] that gave an address and no error. *)
Fixpoint discovered (polls : list (option net.TCPAddr * option error)) : list net.TCPAddr :=
  match polls with
  | [] => []
  | (Some a, None) :: polls => a :: discovered polls
  | _ :: polls => discovered polls
  end.

(** The number of times the address changes along a sequence of addresses
    that comes after the address printed as [cur]. *)
Fixpoint changes (cur : string) (addrs : list net.TCPAddr) : nat :=
  match addrs with
  | [] => O
  | a :: addrs =>
      let s := net.TCPAddr_String (Some a) in
      ((if String.eqb s cur then 0 else 1) + changes s addrs)%nat
  end.

(** The turns of the loop of [update_master] for given results of
    [getMasterAddr]. *)
Fixpoint update_master_steps (polls : list (option net.TCPAddr * option error)) : M unit :=
  match polls with
  | [] => mret tt
  | polled :: polls => update_master_step polled;; update_master_steps polls
  end.

(** The results of [getMasterAddr] in the first [n] turns of the loop of
    [update_master]. *)
Fixpoint polled (n : nat) (env : Env) (st : State) : list (option net.TCPAddr * option error) :=
  match n with
  | O => []
  | S n =>
      match getMasterAddr (sentinelAddrAsStr (flags env)) (masterNameAsStr (flags env)) env st with
      | (Done r, st1) =>
          r :: match update_master_step r env st1 with
               | (Done _, st2) => polled n env st2
               | _ => []
               end
      | _ => []
      end
  end.

(** The actions that start a loop or bind the socket. *)
Definition starts_nothing (e : Event) : Prop :=
  match e with
  | EvGo _ | EvListen _ _ => False
  | _ => True
  end.

(** *** Discovery *)

(** A text without brackets, as the texts of IP addresses are. *)
Definition no_brackets (s : string) : Prop :=
  strings.IndexByte s "[" = None /\ strings.IndexByte s "]" = None.

(** The answers of the resolver for the addresses [ips] with the port
    [port], asked one after the other from the moment [t] on: nil where the
    resolver fails. *)
Fixpoint resolved_at (w : World) (t : nat) (port : string) (ips : list string)
  : list (option net.TCPAddr) :=
  match ips with
  | [] => []
  | ip :: ips =>
      match resolve_at w t ip port with
      | inl a => Some a
      | inr _ => None
      end :: resolved_at w (S t) port ips
  end.

(** A text without a carriage return. *)
Definition CR : ascii := "013".

Definition no_CR (s : string) : Prop := strings.IndexByte s CR = None.

(** The entries of the log. *)
Definition is_log (e : Event) : Prop :=
  match e with
  | EvLog _ _ => True
  | _ => False
  end.

(** The actions of a poll: entries of the log and what is done with
    connections. *)
Definition is_net (e : Event) : bool :=
  match e with
  | EvLog _ _ | EvDial _ _ _ _ | EvWrite _ _ | EvRead _ | EvConnClose _ => true
  | _ => false
  end.

(** The connections opened along a trace, and the connections closed. *)
Fixpoint dialled (tr : list Event) : list Conn :=
  match tr with
  | [] => []
  | EvDial _ _ _ (Some c) :: tr => c :: dialled tr
  | _ :: tr => dialled tr
  end.

Fixpoint hung_up (tr : list Event) : list Conn :=
  match tr with
  | [] => []
  | EvConnClose c :: tr => c :: hung_up tr
  | _ :: tr => hung_up tr
  end.

(** *** The turns of [update_master] *)

(** What the polls that did not fail gave, as [update_master] prints it:
    the nil address is printed as well. *)
Fixpoint printed (polls : list (option net.TCPAddr * option error)) : list string :=
  match polls with
  | [] => []
  | (pm, None) :: polls => net.TCPAddr_String pm :: printed polls
  | (_, Some _) :: polls => printed polls
  end.

(** The number of texts of [l] that differ from the one before, [cur]
    being before the first. *)
Fixpoint flips (cur : string) (l : list string) : nat :=
  match l with
  | [] => O
  | s :: l => ((if String.eqb s cur then 0 else 1) + flips s l)%nat
  end.

(** The number of channels made along a trace, and the sleeps. *)
Fixpoint makes (tr : list Event) : nat :=
  match tr with
  | [] => O
  | EvChanMake _ :: tr => S (makes tr)
  | _ :: tr => makes tr
  end.

Fixpoint sleeps (tr : list Event) : list Duration :=
  match tr with
  | [] => []
  | EvSleep d :: tr => d :: sleeps tr
  | _ :: tr => sleeps tr
  end.

(** *** The loop of [main] and the sessions *)

(** What a turn of the loop of [main] adds to the trace in the state [st]:
    the entry for an accept that failed, or a session for the master and
    the channel of [st]. *)
Definition accept_event (st : State) (e : Event) : Prop :=
  match e with
  | EvLog ErrorLevel _ => True
  | EvGo (TaskProxy _ remoteAddr c) => remoteAddr = masterAddr st /\ c = masterStopChan st
  | _ => False
  end.

(** The channels of the two pipes of a session. *)
Definition pipes_of (p : SessionAt) : list Chan :=
  match p with
  | Selecting s => [sess_localChan s; sess_remoteChan s]
  | _ => []
  end.

(** No two sessions have the channel of a pipe in common. *)
Definition Private (sys : System) : Prop :=
  forall i j p q c,
    sessions sys !! i = Some p -> sessions sys !! j = Some q ->
    In c (pipes_of p) -> In c (pipes_of q) -> i = j.

(** The statement a goroutine is at returns: it does not panic and does
    not end the process. *)
Definition tracker_goes (env : Env) (sys : System) : Prop :=
  match tracker sys with
  | AtPoll => forall polled, is_Some (sys_step env (LPoll polled) sys)
  | AtClose => is_Some (sys_step env LClose sys)
  | AtMake => is_Some (sys_step env LMake sys)
  end.

Definition main_goes (env : Env) (sys : System) : Prop :=
  match main_at sys with
  | AtAccept => is_Some (sys_step env LAccept sys)
  | AtGo _ _ => is_Some (sys_step env LGo sys)
  end.

(** For a session in its [select]: a pipe that has not ended yet ends, and
    the [select] is left once it is ready. *)
Definition session_goes (env : Env) (sys : System) (i : nat) (p : SessionAt) : Prop :=
  match p with
  | Dialing _ _ _ => is_Some (sys_step env (LDial i) sys)
  | Selecting s =>
      (forall copied, closed (sess_localChan s) (shared sys) = false ->
                      is_Some (sys_step env (LPipe i false copied) sys))
      /\ (forall copied, closed (sess_remoteChan s) (shared sys) = false ->
                         is_Some (sys_step env (LPipe i true copied) sys))
      /\ (select_ready s (shared sys) = true -> is_Some (sys_step env (LSelect i) sys))
  | Returned => True
  end.

(** ** A sample deployment

    One sentinel host name with two addresses, of which the first one is
    down, and a master at 10.0.0.1:6379. *)

Module Sample.

Definition atoi (s : string) : option Z :=
  match NilZero.uint_of_string s with
  | Some u => Some (Z.of_N (N.of_uint u))
  | None => None
  end.

(** A resolver without DNS: hosts are IP literals, ports are numbers. *)
Definition resolve (t : nat) (host port : string) : net.TCPAddr + error :=
  match atoi port with
  | Some p => inl (net.mkTCPAddr host p EmptyString)
  | None => inr ("lookup tcp/" ++ port ++ ": unknown port")
  end.

Definition lookup (t : nat) (host : string) : list string + error :=
  if String.eqb host "sentinel" then inl ["10.0.0.5"; "10.0.0.6"]
  else inr ("lookup " ++ host ++ ": no such host").

(** The reply of a sentinel to [get-master-addr-by-name]. *)
Definition reply (host port : string) : string :=
  "*2" ++ CRLF ++ "$" ++ net.Itoa (Z.of_nat (String.length host)) ++ CRLF ++ host ++ CRLF
  ++ "$" ++ net.Itoa (Z.of_nat (String.length port)) ++ CRLF ++ port ++ CRLF.

Definition refused : N * option error := (5000%N, Some "connect: connection refused").
Definition accepted : N * option error := (1000%N, None).

(** [up t] lists the hosts that accept connections at the moment [t],
    [master_host] is the master that the sentinels name, [bind] is the
    result of binding the listening socket. *)
Definition world_of (up : nat -> list string) (master_host : string) (bind : option error)
  : World :=
  mkWorld lookup resolve
    (fun t _ host _ => if bool_decide (host ∈ up t) then accepted else refused)
    (fun _ _ => inl (reply master_host "6379"))
    (fun _ _ => bind)
    (fun _ => inl "192.168.0.7:51000")
    None
    (fun _ => None).

Definition flags : Flags := mkFlags ":9999" "sentinel:26379" "mymaster" EmptyString.

(** Everything is up but the first sentinel. *)
Definition env : Env :=
  mkEnv (world_of (fun _ => ["10.0.0.6"; "10.0.0.1"]) "10.0.0.1" None) flags.

(** The sentinels answer, the master they name is down. *)
Definition env_master_down : Env :=
  mkEnv (world_of (fun _ => ["10.0.0.5"; "10.0.0.6"]) "10.0.0.1" None) flags.

(** Nothing can be reached between the moments 11 and 16, which is when
    the second poll takes place if the program starts at the moment 0; the
    sentinels name the same master all along. *)
Definition env_outage : Env :=
  mkEnv (world_of (fun t => if (11 <=? t)%nat && (t <? 16)%nat then []
                            else ["10.0.0.6"; "10.0.0.1"]) "10.0.0.1" None) flags.

(** The port to listen on is taken. *)
Definition env_port_taken : Env :=
  mkEnv (world_of (fun _ => ["10.0.0.6"; "10.0.0.1"]) "10.0.0.1"
           (Some "listen tcp :9999: bind: address already in use")) flags.

(** The flag [-master] is missing. *)
Definition env_no_name : Env :=
  mkEnv (world_of (fun _ => ["10.0.0.6"; "10.0.0.1"]) "10.0.0.1" None)
        (mkFlags ":9999" "sentinel:26379" EmptyString EmptyString).

(** The sentinel is given with a service name that does not exist. *)
Definition env_bad_port : Env :=
  mkEnv (world_of (fun _ => ["10.0.0.6"; "10.0.0.1"]) "10.0.0.1" None)
        (mkFlags ":9999" "sentinel:sentinel" "mymaster" EmptyString).

(** The state of the process when it starts. *)
Definition initial : State := mkState 0 0 [] 0 InfoLevel None 0%nat ∅.

(** The state of the process when [main] has reached its loop. *)
Definition started : State := snd (main_startup env initial).

Definition master1 : net.TCPAddr := net.mkTCPAddr "10.0.0.1" 6379 EmptyString.

(** A master is known and the channel 0 is the current one. *)
Definition running : State :=
  mkState 0 0 [] 0 ErrorLevel (Some master1) 0%nat {[ 0%nat := false ]}.

(** The first client that connects. *)
Definition client : Conn := mkConn 0 "192.168.0.7:51000".

(** The 256 bytes that [getMasterAddrFromSentinel] reads when a sentinel
    names a master by the IPv6 address [::1]. *)
Definition ipv6_reply : string := fst (fill (make_bytes 256) (reply "::1" "6379")).

(** Three polls: the master is found, nothing is found, the same master is
    found again. *)
Definition polls_with_gap : list (option net.TCPAddr * option error) :=
  [(Some master1, None); (None, None); (Some master1, None)].

Definition master2 : net.TCPAddr := net.mkTCPAddr "10.0.0.2" 6379 EmptyString.

(** The listener of [main]. *)
Definition listener : option Listener :=
  Some (mkListener (Some (net.mkTCPAddr EmptyString 9999 EmptyString))).

(** A run: the master is found, a client gets a session, the same master is
    found again, a poll fails, another master is found, and the session
    leaves its [select] once the channel is closed. *)
Definition failover : list Label :=
  [LPoll (Some master1, None); LClose; LMake; LAccept; LGo; LDial 0;
   LPoll (Some master1, None); LPoll (None, Some "Can't lookup Sentinel: timeout");
   LPoll (Some master2, None); LClose; LSelect 0; LMake].

(** The host name of the sentinels has an IPv6 and an IPv4 address, and
    everything is up. *)
Definition env_ipv6 : Env :=
  mkEnv (mkWorld (fun _ _ => inl ["::1"; "10.0.0.6"]) resolve
           (fun _ _ _ _ => accepted)
           (fun _ _ => inl (reply "10.0.0.1" "6379"))
           (fun _ _ => None)
           (fun _ => inl "192.168.0.7:51000")
           None
           (fun _ => None))
        flags.

(** The connection to the master of a session started in the state
    [running], the session once it is in its [select], and the state
    then. *)
Definition to_master : Conn := mkConn 0 "10.0.0.1:6379".

Definition session : Session :=
  mkSession client (Some to_master) (Some master1) 0%nat 1%nat 2%nat.

Definition serving : State := snd (proxy client (Some master1) 0%nat env running).

(** The run [failover] up to the second close of the channel, the system
    before that close and after it, and the session of the run. *)
Definition before_close : list Label := firstn 9 failover.

Definition at_close : System :=
  match sys_run env before_close (system_of listener started) with
  | Some sys => sys
  | None => system_of listener started
  end.

Definition after_close : System :=
  match sys_step env LClose at_close with
  | Some sys => sys
  | None => at_close
  end.

Definition waiting : Session :=
  mkSession client (Some (mkConn 1 "10.0.0.1:6379")) (Some master1) 1%nat 2%nat 3%nat.

End Sample.

(** * Proofs *)

(** Running a piece of the program on a symbolic state: the monad and the
    operations on the state are unfolded, and the result is computed without
    opening what stays symbolic in the statements. *)
Ltac munfold :=
  repeat progress unfold mbind, M_bind, mret, M_ret, ask, get, put, modify, emit, elapse, tick,
    os_Exit, panic, log_Fatal, log_Errorf, log_Infof, log_Tracef, log_Error, log_at,
    time_Sleep, go, on_conn, defer in *.

Ltac msimpl :=
  cbn -[net.TCPAddr_String net.SplitHostPort Millisecond Second DialTimeout ProxyDialTimeout
        Z.mul Z.add Z.leb String.eqb strings.Split hostport make_bytes fill] in *.

Ltac mrun := munfold; msimpl.

(** ** States *)

Lemma extends_refl st : extends st st [].
Proof. unfold extends. rewrite app_nil_r. repeat split; lia. Qed.

Lemma extends_trans st1 st2 st3 evs1 evs2 :
  extends st1 st2 evs1 -> extends st2 st3 evs2 -> extends st1 st3 (evs1 ++ evs2)%list.
Proof.
  unfold extends. intros (T1 & G1 & C1 & N1) (T2 & G2 & C2 & N2).
  rewrite T2, T1, G2, G1, app_assoc. repeat split; lia.
Qed.

Lemma extends_emit st e : extends st (set_trace (trace st ++ [e]) st) [e].
Proof. unfold extends, globals; cbn. repeat split; lia. Qed.

Lemma extends_tick st : extends st (set_clock (S (clock st)) st) [].
Proof. unfold extends, globals; cbn. rewrite app_nil_r. repeat split; lia. Qed.

Lemma logged_sentinel_error_extends e st :
  exists evs, extends st (logged_sentinel_error e st) evs.
Proof. destruct e; cbn; eexists; [apply extends_emit | apply extends_refl]. Qed.

Create HintDb frame.
#[local] Hint Resolve extends_refl extends_emit extends_tick : frame.

(** A goal [extends st st' ?evs] or [extends st st' evs] where [st'] is [st]
    with some fields set. *)
Ltac frame :=
  solve [ eauto with frame
        | unfold extends, globals; cbn; rewrite ?app_nil_r, <- ?app_assoc;
          repeat split; lia ].

(** ** Addresses *)

Lemma IndexByte_app_found (s1 s2 : string) (c : ascii) :
  strings.IndexByte (s1 ++ String c s2) c <> None.
Proof.
  induction s1 as [|d s1 IH].
  - change (strings.IndexByte (String c s2) c <> None). cbn [strings.IndexByte].
    rewrite Ascii.eqb_refl. discriminate.
  - change (strings.IndexByte (String d (s1 ++ String c s2)) c <> None).
    cbn [strings.IndexByte]. destruct (Ascii.eqb d c); [discriminate|].
    destruct (strings.IndexByte (s1 ++ String c s2) c); [discriminate|contradiction].
Qed.

Lemma append_assoc (a b c : string) : (a ++ b) ++ c = a ++ (b ++ c).
Proof.
  induction a as [|x a IH]; [reflexivity|].
  change (String x ((a ++ b) ++ c) = String x (a ++ b ++ c)). rewrite IH. reflexivity.
Qed.

(** What [net.JoinHostPort] gives has a colon. *)
Lemma JoinHostPort_colon (host port : string) :
  strings.IndexByte (net.JoinHostPort host port) ":" <> None.
Proof.
  unfold net.JoinHostPort. destruct (strings.IndexByte host ":").
  - replace ("[" ++ host ++ "]:" ++ port) with (("[" ++ host ++ "]") ++ String ":" port).
    + apply IndexByte_app_found.
    + rewrite !append_assoc. reflexivity.
  - apply IndexByte_app_found.
Qed.

(** An address that is there never prints as the nil address. *)
Lemma TCPAddr_String_Some (a : net.TCPAddr) : net.TCPAddr_String (Some a) <> "<nil>".
Proof.
  intros H.
  assert (Hc : strings.IndexByte (net.TCPAddr_String (Some a)) ":" <> None).
  { unfold net.TCPAddr_String.
    destruct (String.eqb (net.Zone a) EmptyString); apply JoinHostPort_colon. }
  rewrite H in Hc. apply Hc. reflexivity.
Qed.

Lemma DialTimeout_nonneg : 0 <= DialTimeout.
Proof. unfold DialTimeout, Millisecond. lia. Qed.

Lemma ProxyDialTimeout_nonneg : 0 <= ProxyDialTimeout.
Proof. unfold ProxyDialTimeout, Millisecond. lia. Qed.

(** ** Discovery *)

Section Discovery.

Context (env : Env).

(** [net.ResolveTCPAddr] returns an address or an error, never both. *)
Lemma net_ResolveTCPAddr_spec network address st :
  exists r st', net_ResolveTCPAddr network address env st = (Done r, st')
    /\ ((exists a, r = (Some a, None)) \/ (exists e, r = (None, Some e)))
    /\ extends st st' [].
Proof.
  unfold net_ResolveTCPAddr. destruct (hostport address) as [[host port]|err]; mrun.
  - destruct (resolve_at (world env) (clock st) host port) as [a|e]; msimpl;
      (eexists _, _; split; [reflexivity|]; split; [eauto|frame]).
  - eexists _, _. split; [reflexivity|]. split; [eauto|frame].
Qed.

(** [net.DialTimeout] returns a connection or an error, never both, and
    no later than its timeout. *)
Lemma net_DialTimeout_spec network address timeout st :
  0 <= timeout ->
  exists conn err st', net_DialTimeout network address timeout env st = (Done (conn, err), st')
    /\ ((exists c, conn = Some c /\ err = None) \/ (exists e, conn = None /\ err = Some e))
    /\ extends st st' [EvDial network address timeout conn]
    /\ now st' <= now st + timeout.
Proof.
  intros Ht. unfold net_DialTimeout. destruct (hostport address) as [[host port]|err]; mrun.
  - destruct (connect_at (world env) (clock st) network host port) as [latency failure].
    msimpl. destruct (Z.leb_spec timeout (Z.of_N latency)); msimpl;
      [|destruct failure as [e|]; msimpl];
      (eexists _, _, _; split; [reflexivity|]; split; [eauto|];
       unfold extends, globals; cbn; repeat split; lia).
  - eexists _, _, _. split; [reflexivity|]. split; [eauto|].
    unfold extends, globals; cbn. repeat split; lia.
Qed.

(** The nil address has no port: the dial of it fails at once. *)
Lemma net_DialTimeout_nil network timeout st :
  net_DialTimeout network "<nil>" timeout env st
  = (Done (None, Some ("dial " ++ network ++ ": address <nil>: missing port in address")),
     set_trace (trace st ++ [EvDial network "<nil>" timeout None]) st).
Proof. reflexivity. Qed.

(** *** The reply of a sentinel *)

Lemma response_short response st :
  (length (strings.Split response CRLF) < 5)%nat ->
  getMasterAddrFromSentinelResponse response env st
  = (Done (None, Some "Couldn't get update_master address from sentinel."),
     set_trace (trace st ++ [EvLog ErrorLevel ("Wrong sentinel response: '" ++ response ++ "'")]) st).
Proof.
  intros H. unfold getMasterAddrFromSentinelResponse.
  destruct (Nat.ltb_spec (length (strings.Split response CRLF)) 5); [reflexivity|lia].
Qed.

Lemma response_long response st :
  (5 <= length (strings.Split response CRLF))%nat ->
  exists host port,
    strings.Split response CRLF !! 2%nat = Some host
    /\ strings.Split response CRLF !! 4%nat = Some port
    /\ getMasterAddrFromSentinelResponse response env st
       = net_ResolveTCPAddr "tcp" (host ++ ":" ++ port) env st.
Proof.
  intros H. unfold getMasterAddrFromSentinelResponse.
  destruct (Nat.ltb_spec (length (strings.Split response CRLF)) 5); [lia|].
  destruct (strings.Split response CRLF) as [|p0 [|p1 [|p2 [|p3 [|p4 parts]]]]];
    cbn in H; try lia.
  exists p2, p4. repeat split.
Qed.

Lemma response_spec response st :
  exists r st' evs, getMasterAddrFromSentinelResponse response env st = (Done r, st')
    /\ ((exists a, r = (Some a, None)) \/ (exists e, r = (None, Some e)))
    /\ extends st st' evs.
Proof.
  destruct (Nat.lt_ge_cases (length (strings.Split response CRLF)) 5) as [H|H].
  - rewrite (response_short _ _ H). eexists _, _, _. split; [reflexivity|].
    split; [eauto|frame].
  - destruct (response_long response st H) as (host & port & _ & _ & ->).
    destruct (net_ResolveTCPAddr_spec "tcp" (host ++ ":" ++ port) st) as (r & st' & E & Hr & Hx).
    eauto 10.
Qed.

(** C5, as amended.  [getMasterAddrFromSentinelResponse] always returns.  When
    the response splits on CRLF into fewer than 5 parts it logs the response
    and returns its own error; when there are 5 parts or more it returns
    what [net.ResolveTCPAddr] returns for the part of index 2, a colon and
    the part of index 4: the address, or the error of the resolver. *)
Theorem getMasterAddrFromSentinelResponse_cases response st :
  let parts := strings.Split response CRLF in
  getMasterAddrFromSentinelResponse response env st
  = (if (length parts <? 5)%nat
     then (Done (None, Some "Couldn't get update_master address from sentinel."),
           set_trace
             (trace st ++ [EvLog ErrorLevel ("Wrong sentinel response: '" ++ response ++ "'")]) st)
     else net_ResolveTCPAddr "tcp"
            (nth 2 parts EmptyString ++ ":" ++ nth 4 parts EmptyString) env st)
  /\ exists r st', getMasterAddrFromSentinelResponse response env st = (Done r, st').
Proof.
  intros parts. split.
  - destruct (Nat.ltb_spec (length parts) 5) as [H|H].
    + apply response_short, H.
    + destruct (response_long response st H) as (host & port & H2 & H4 & ->).
      fold parts in H2, H4.
      apply (nth_lookup_Some _ _ EmptyString) in H2.
      apply (nth_lookup_Some _ _ EmptyString) in H4.
      rewrite H2, H4. reflexivity.
  - destruct (response_spec response st) as (r & st' & _ & E & _). eauto.
Qed.

(** *** One sentinel *)

(** [getMasterAddrFromSentinel] returns an address or an error, never both
    and never a panic. *)
Lemma getMasterAddrFromSentinel_spec s st :
  exists r st' evs, getMasterAddrFromSentinel s env st = (Done r, st')
    /\ ((exists a, r = (Some a, None)) \/ (exists e, r = (None, Some e)))
    /\ extends st st' evs.
Proof.
  unfold getMasterAddrFromSentinel.
  destruct (net_DialTimeout_spec "tcp" (net.TCPAddr_String s) DialTimeout st DialTimeout_nonneg)
    as (conn & err & st1 & E & Hs & Hx & _).
  mrun. rewrite E. destruct Hs as [(c & -> & ->)|(e & -> & ->)]; mrun.
  - unfold conn_Write, conn_Read, conn_Close. mrun.
    destruct (read_at (world env) (clock st1) (RemoteAddr c)) as [data|e]; mrun.
    + destruct (fill (make_bytes 256) data) as [b n]. mrun.
      match goal with |- context [getMasterAddrFromSentinelResponse b env ?s] =>
        destruct (response_spec b s) as (r & st2 & evs & E2 & Hr & Hx2) end.
      rewrite E2. eexists _, _, _. split; [reflexivity|]. split; [exact Hr|].
      eapply extends_trans; [exact Hx|].
      eapply extends_trans; [|apply extends_emit].
      eapply extends_trans; [|exact Hx2].
      instantiate (1 := [EvWrite c _; EvRead c]). frame.
    + eexists _, _, _. split; [reflexivity|]. split; [eauto|].
      eapply extends_trans; [exact Hx|].
      instantiate (1 := [EvWrite c _; EvRead c; EvLog ErrorLevel _; EvConnClose c]). frame.
  - eexists _, _, _. split; [reflexivity|]. split; [eauto|exact Hx].
Qed.

(** A nil sentinel is one that does not respond. *)
Lemma getMasterAddrFromSentinel_nil st :
  getMasterAddrFromSentinel None env st
  = (Done (None, Some ("Sentinel no not respond: " ++ sentinelAddrAsStr (flags env))),
     set_trace (trace st ++ [EvDial "tcp" "<nil>" DialTimeout None]) st).
Proof. reflexivity. Qed.

(** *** The loop over the sentinels *)

(** A turn of the loop: the sentinel is asked, then its candidate is
    dialled, and the loop goes on when the dial fails. *)
Lemma getMasterAddr_range_cons s rest st cand e1 st1 conn derr st2 :
  getMasterAddrFromSentinel s env st = (Done (cand, e1), st1) ->
  net_DialTimeout "tcp" (net.TCPAddr_String cand) DialTimeout env (logged_sentinel_error e1 st1)
  = (Done (conn, derr), st2) ->
  getMasterAddr_range (s :: rest) env st
  = match derr with
    | Some _ => getMasterAddr_range rest env (logged_dial_error cand st2)
    | None => defer (conn_Close conn) (mret (cand, None)) env st2
    end.
Proof.
  intros E1 E2. cbn [getMasterAddr_range]. unfold mbind at 1, M_bind at 1. rewrite E1.
  unfold mbind at 1, M_bind at 1.
  destruct e1 as [e1|]; unfold logged_sentinel_error in E2.
  - unfold mbind at 1, M_bind at 1. unfold log_Errorf, log_at, emit, modify. cbn match.
    rewrite E2. destruct derr; reflexivity.
  - unfold mbind at 1, M_bind at 1. unfold mret at 1, M_ret at 1.
    rewrite E2. destruct derr; reflexivity.
Qed.

Lemma getMasterAddr_range_nil rest st :
  getMasterAddr_range (None :: rest) env st = getMasterAddr_range rest env (skipped_nil env st).
Proof.
  rewrite (getMasterAddr_range_cons None rest st _ _ _ _ _ _
             (getMasterAddrFromSentinel_nil st) (net_DialTimeout_nil "tcp" DialTimeout _)).
  cbn match. f_equal. unfold logged_dial_error, skipped_nil, set_trace; cbn.
  rewrite <- !app_assoc. reflexivity.
Qed.

Lemma skips_range sentinels st st' :
  skips env sentinels st st' -> getMasterAddr_range sentinels env st = (Done (None, None), st').
Proof.
  induction 1 as [st|s rest st cand e1 st1 derr st2 st' E1 E2 _ IH]; [reflexivity|].
  rewrite (getMasterAddr_range_cons _ _ _ _ _ _ _ _ _ E1 E2). exact IH.
Qed.

(** What the loop returns: never an error, and an address only when a
    sentinel gave it and the dial that checks it went through. *)
Lemma getMasterAddr_range_spec sentinels : forall st,
  exists r st' evs, getMasterAddr_range sentinels env st = (Done (r, None), st')
    /\ extends st st' evs
    /\ match r with
       | Some a => finds env sentinels st a st'
       | None => skips env sentinels st st'
       end.
Proof.
  induction sentinels as [|s rest IH]; intros st.
  - exists None, st, []. split; [reflexivity|]. split; [frame|constructor].
  - destruct (getMasterAddrFromSentinel_spec s st) as ([cand e1] & st1 & evs1 & E1 & Hr & Hx1).
    destruct (logged_sentinel_error_extends e1 st1) as (evsl & Hxl).
    destruct (net_DialTimeout_spec "tcp" (net.TCPAddr_String cand) DialTimeout
                (logged_sentinel_error e1 st1) DialTimeout_nonneg)
      as (conn & derr & st2 & E2 & Hs & Hx2 & _).
    rewrite (getMasterAddr_range_cons _ _ _ _ _ _ _ _ _ E1 E2).
    pose proof (extends_trans _ _ _ _ _ (extends_trans _ _ _ _ _ Hx1 Hxl) Hx2) as Hx.
    destruct Hs as [(c & -> & ->)|(e & -> & ->)].
    + (* the dial went through: the candidate cannot be nil *)
      destruct cand as [a|]; [|rewrite net_DialTimeout_nil in E2; discriminate].
      exists (Some a), (set_trace (trace st2 ++ [EvConnClose c]) st2). eexists.
      split; [reflexivity|]. split; [eapply extends_trans; [exact Hx|frame]|].
      exists [], s, rest, st, st1, st2, c.
      destruct Hr as [(a' & Hr)|(e & Hr)]; inversion Hr; subst.
      repeat split; auto. constructor.
    + destruct (IH (logged_dial_error cand st2)) as (r & st' & evs & E & Hx' & Hu).
      exists r, st'. eexists. split; [exact E|]. split.
      { eapply extends_trans; [exact Hx|]. eapply extends_trans; [apply extends_emit|exact Hx']. }
      destruct r as [a|].
      * destruct Hu as (skipped & s' & rest' & st1' & st2' & st3' & c & -> & Hsk & H1 & H2 & H3).
        exists (s :: skipped), s', rest', st1', st2', st3', c. repeat split; auto.
        econstructor; eauto.
      * econstructor; eauto.
Qed.

(** *** The list of sentinels *)

Lemma sentinel_entry_mono port evs evs' ip entry :
  (forall e, In e evs -> In e evs') ->
  sentinel_entry env port evs ip entry -> sentinel_entry env port evs' ip entry.
Proof.
  intros Hsub (st1 & err & st2 & E & H). exists st1, err, st2. split; [exact E|].
  intros Hn. destruct (H Hn) as [He Hin]. split; [exact He|]. apply Hsub, Hin.
Qed.

Lemma getSentinels_range_spec port ips : forall acc st,
  exists l st' evs,
    getSentinels_range port ips acc env st = (Done (acc ++ l)%list, st')
    /\ extends st st' evs
    /\ Forall2 (sentinel_entry env port evs) ips l.
Proof.
  induction ips as [|ip ips IH]; intros acc st.
  - exists [], st, []. rewrite app_nil_r. split; [reflexivity|]. split; [frame|constructor].
  - cbn [getSentinels_range]. mrun.
    match goal with |- context [net_ResolveTCPAddr "tcp" ?a env ?s] =>
      destruct (net_ResolveTCPAddr_spec "tcp" a s) as ([entry err] & st1 & E & Hr & Hx);
      pose proof E as E0; rewrite E end.
    destruct Hr as [(a & Hr)|(e & Hr)]; inversion Hr; subst; mrun.
    + destruct (IH (acc ++ [Some a])%list st1) as (l & st' & evs & E' & Hx' & HF).
      rewrite E', <- app_assoc. exists (Some a :: l), st'. eexists.
      split; [reflexivity|]. split.
      { eapply extends_trans; [apply extends_emit|]. eapply extends_trans; [exact Hx|exact Hx']. }
      constructor.
      * eexists _, _, _. split; [exact E0|]. discriminate.
      * eapply Forall2_impl; [exact HF|]. intros x y.
        apply sentinel_entry_mono. intros e He. rewrite !in_app_iff. tauto.
    + match goal with |- context [getSentinels_range port ips ?acc' env ?s] =>
        destruct (IH acc' s) as (l & st' & evs & E' & Hx' & HF) end.
      rewrite E', <- app_assoc. exists (None :: l), st'. eexists.
      split; [reflexivity|]. split.
      { eapply extends_trans; [apply extends_emit|]. eapply extends_trans; [exact Hx|].
        eapply extends_trans; [apply extends_emit|exact Hx']. }
      constructor.
      * eexists _, _, _. split; [exact E0|]. intros _. split; [eauto|].
        rewrite !in_app_iff. right. right. left. left. reflexivity.
      * eapply Forall2_impl; [exact HF|]. intros x y.
        apply sentinel_entry_mono. intros e' He. rewrite !in_app_iff. tauto.
Qed.

Lemma getSentinels_spec sentinelAddress st host port ips :
  net.SplitHostPort sentinelAddress = inl (host, port) ->
  LookupIP_at (world env) (clock st) host = inl ips ->
  exists l st' evs,
    getSentinels sentinelAddress env st = (Done (l, None), st')
    /\ extends st st' evs
    /\ Forall2 (sentinel_entry env port evs) ips l.
Proof.
  intros Hs Hl. unfold getSentinels, net_LookupIP. rewrite Hs. mrun. rewrite Hl. mrun.
  match goal with |- context [getSentinels_range port ips [] env ?s] =>
    destruct (getSentinels_range_spec port ips [] s) as (l & st' & evs & E & Hx & HF) end.
  rewrite E. exists l, st', evs. split; [reflexivity|]. split; [|exact HF].
  eapply (extends_trans _ _ _ [] evs); [frame|exact Hx].
Qed.

(** [getSentinels] always returns. *)
Lemma getSentinels_done sentinelAddress st :
  exists l err st' evs,
    getSentinels sentinelAddress env st = (Done (l, err), st') /\ extends st st' evs.
Proof.
  destruct (net.SplitHostPort sentinelAddress) as [[host port]|e] eqn:Hs.
  - destruct (LookupIP_at (world env) (clock st) host) as [ips|e] eqn:Hl.
    + destruct (getSentinels_spec _ _ _ _ _ Hs Hl) as (l & st' & evs & E & Hx & _). eauto 10.
    + unfold getSentinels, net_LookupIP. rewrite Hs. mrun. rewrite Hl. mrun.
      eexists _, _, _, []. split; [reflexivity|frame].
  - unfold getSentinels. rewrite Hs. mrun. eexists _, _, _, []. split; [reflexivity|frame].
Qed.

Lemma getMasterAddr_unfold sentinelAddress masterName st sentinels err st0 :
  getSentinels sentinelAddress env st = (Done (sentinels, err), st0) ->
  getMasterAddr sentinelAddress masterName env st
  = match err with
    | Some err => (Done (None, Some ("Can't lookup Sentinel: " ++ err)), st0)
    | None => getMasterAddr_range sentinels env st0
    end.
Proof. intros E. unfold getMasterAddr. mrun. rewrite E. destruct err; reflexivity. Qed.

(** C10.  When the sentinel address splits into host and port and the
    lookup of the host gives the addresses [ips], [getSentinels] returns no
    error and a list with one entry for each of [ips]: the entry is what
    [net.ResolveTCPAddr] gives, nil when it fails, in which case the failure
    is in the log and nowhere else.  A nil entry is a sentinel that does not
    respond for [getMasterAddrFromSentinel], and [getMasterAddr] goes on
    with the next entry. *)
Theorem getSentinels_nil_entries sentinelAddress st host port ips :
  net.SplitHostPort sentinelAddress = inl (host, port) ->
  LookupIP_at (world env) (clock st) host = inl ips ->
  (exists l st' evs,
     getSentinels sentinelAddress env st = (Done (l, None), st')
     /\ trace st' = (trace st ++ evs)%list
     /\ length l = length ips
     /\ Forall2 (sentinel_entry env port evs) ips l)
  /\ (forall st1,
        getMasterAddrFromSentinel None env st1
        = (Done (None, Some ("Sentinel no not respond: " ++ sentinelAddrAsStr (flags env))),
           set_trace (trace st1 ++ [EvDial "tcp" "<nil>" DialTimeout None]) st1))
  /\ (forall rest st1,
        getMasterAddr_range (None :: rest) env st1
        = getMasterAddr_range rest env (skipped_nil env st1)).
Proof.
  intros Hs Hl. split; [|split].
  - destruct (getSentinels_spec _ _ _ _ _ Hs Hl) as (l & st' & evs & E & Hx & HF).
    exists l, st', evs. split; [exact E|]. split; [apply Hx|]. split; [|exact HF].
    symmetry. eapply Forall2_length, HF.
  - apply getMasterAddrFromSentinel_nil.
  - apply getMasterAddr_range_nil.
Qed.

(** C3.  When [getMasterAddr] returns an address, it returns no error, and
    the address got through the reachability check: the loop went past the
    sentinels whose candidate could not be dialled, then a sentinel gave this
    address, the dial of it went through and the connection was closed again
    ([finds]).  A candidate whose dial fails is not returned: the loop goes
    on with the next sentinel, and when the dial fails for every sentinel
    ([skips]) the result is no address and no error. *)
Theorem getMasterAddr_reachability_gate sentinelAddress masterName st a e st' :
  getMasterAddr sentinelAddress masterName env st = (Done (Some a, e), st') ->
  e = None
  /\ (exists sentinels st0,
        getSentinels sentinelAddress env st = (Done (sentinels, None), st0)
        /\ finds env sentinels st0 a st')
  /\ (forall sentinels st0 st1,
        skips env sentinels st0 st1 ->
        getMasterAddr_range sentinels env st0 = (Done (None, None), st1)).
Proof.
  intros H.
  destruct (getSentinels_done sentinelAddress st) as (l & err & st0 & evs & E & _).
  rewrite (getMasterAddr_unfold _ masterName _ _ _ _ E) in H.
  destruct err as [err|]; [discriminate|].
  destruct (getMasterAddr_range_spec l st0) as (r & st'' & evs' & E' & _ & Hf).
  rewrite E' in H. inversion H; subst.
  split; [reflexivity|]. split; [eauto|]. intros. apply skips_range; assumption.
Qed.

(** C6.  When the sentinel host name resolves ([getSentinels] returns no
    error), [getMasterAddr] returns, and the error it returns is nil.  The
    address is nil as well when no sentinel gave an address that could be
    dialled ([skips]); an address is returned only when a sentinel gave it
    and the dial of it went through ([finds]). *)
Theorem getMasterAddr_no_hard_error sentinelAddress masterName st sentinels st0 :
  getSentinels sentinelAddress env st = (Done (sentinels, None), st0) ->
  exists r st',
    getMasterAddr sentinelAddress masterName env st = (Done (r, None), st')
    /\ match r with
       | None => skips env sentinels st0 st'
       | Some a => finds env sentinels st0 a st'
       end.
Proof.
  intros E. rewrite (getMasterAddr_unfold _ masterName _ _ _ _ E).
  destruct (getMasterAddr_range_spec sentinels st0) as (r & st' & evs & E' & _ & Hf).
  exists r, st'. split; [exact E'|]. destruct r; exact Hf.
Qed.

End Discovery.

(** The reply of a sentinel that names the master [::1] has six parts, and
    an error is returned for it: the text [::1:6379] has too many colons. *)
Lemma response_error_with_six_parts :
  ~ (returns_error (getMasterAddrFromSentinelResponse Sample.ipv6_reply Sample.env Sample.initial)
     <-> (length (strings.Split Sample.ipv6_reply CRLF) < 5)%nat).
Proof.
  intros [H _].
  assert (Hlen : length (strings.Split Sample.ipv6_reply CRLF) = 6%nat)
    by (vm_compute; reflexivity).
  rewrite Hlen in H. enough (6 < 5)%nat by lia. apply H.
  exists None, "address ::1:6379: too many colons in address", Sample.initial.
  vm_compute. reflexivity.
Qed.

Lemma getMasterAddr_reachability_gate_witness :
  let st' := snd (getMasterAddr "sentinel:26379" "mymaster" Sample.env Sample.initial) in
  getMasterAddr "sentinel:26379" "mymaster" Sample.env Sample.initial
  = (Done (Some Sample.master1, None), st')
  /\ exists sentinels st0,
       getSentinels "sentinel:26379" Sample.env Sample.initial = (Done (sentinels, None), st0)
       /\ finds Sample.env sentinels st0 Sample.master1 st'.
Proof.
  intros st'.
  assert (H : getMasterAddr "sentinel:26379" "mymaster" Sample.env Sample.initial
              = (Done (Some Sample.master1, None), st')) by (vm_compute; reflexivity).
  split; [exact H|].
  exact (proj1 (proj2 (getMasterAddr_reachability_gate _ _ _ _ _ _ _ H))).
Defined.

Lemma getMasterAddr_no_hard_error_witness :
  let sentinels := [Some (net.mkTCPAddr "10.0.0.5" 26379 EmptyString);
                    Some (net.mkTCPAddr "10.0.0.6" 26379 EmptyString)] in
  let st0 := snd (getSentinels "sentinel:26379" Sample.env_master_down Sample.running) in
  getSentinels "sentinel:26379" Sample.env_master_down Sample.running
  = (Done (sentinels, None), st0)
  /\ exists r st',
       getMasterAddr "sentinel:26379" "mymaster" Sample.env_master_down Sample.running
       = (Done (r, None), st')
       /\ match r with
          | None => skips Sample.env_master_down sentinels st0 st'
          | Some a => finds Sample.env_master_down sentinels st0 a st'
          end.
Proof.
  intros sentinels st0.
  assert (H : getSentinels "sentinel:26379" Sample.env_master_down Sample.running
              = (Done (sentinels, None), st0)) by (vm_compute; reflexivity).
  split; [exact H|].
  exact (getMasterAddr_no_hard_error _ _ "mymaster" _ _ _ H).
Defined.

Lemma getSentinels_nil_entries_witness :
  net.SplitHostPort "sentinel:sentinel" = inl ("sentinel", "sentinel")
  /\ LookupIP_at (world Sample.env_bad_port) (clock Sample.initial) "sentinel"
     = inl ["10.0.0.5"; "10.0.0.6"]
  /\ exists l st' evs,
       getSentinels "sentinel:sentinel" Sample.env_bad_port Sample.initial = (Done (l, None), st')
       /\ trace st' = (trace Sample.initial ++ evs)%list
       /\ length l = length ["10.0.0.5"; "10.0.0.6"]
       /\ Forall2 (sentinel_entry Sample.env_bad_port "sentinel" evs) ["10.0.0.5"; "10.0.0.6"] l.
Proof.
  assert (Hs : net.SplitHostPort "sentinel:sentinel" = inl ("sentinel", "sentinel"))
    by reflexivity.
  assert (Hl : LookupIP_at (world Sample.env_bad_port) (clock Sample.initial) "sentinel"
               = inl ["10.0.0.5"; "10.0.0.6"]) by reflexivity.
  split; [exact Hs|]. split; [exact Hl|].
  exact (proj1 (getSentinels_nil_entries _ _ _ _ _ _ Hs Hl)).
Defined.

(** ** The tracker *)

Lemma firings_app tr1 tr2 : firings (tr1 ++ tr2) = (firings tr1 + firings tr2)%nat.
Proof.
  induction tr1 as [|e tr1 IH]; [reflexivity|].
  destruct e; cbn; rewrite ?IH; reflexivity.
Qed.

Section Tracker.

Context (env : Env).

(** A turn after a poll that failed. *)
Lemma update_master_step_error st possibleMaster err :
  update_master_step (possibleMaster, Some err) env st
  = (Done tt,
     set_now (now st + 1 * Second)
       (set_trace
          (trace st ++ [EvLog ErrorLevel ("[MASTER] Error polling for new master: " ++ err ++ ".");
                        EvSleep (1 * Second)]) st)).
Proof.
  unfold update_master_step. mrun. f_equal. unfold set_now, set_trace; cbn.
  rewrite <- !app_assoc. reflexivity.
Qed.

(** A turn that finds what is printed like the current address. *)
Lemma update_master_step_same st possibleMaster :
  net.TCPAddr_String possibleMaster = net.TCPAddr_String (masterAddr st) ->
  update_master_step (possibleMaster, None) env st
  = (Done tt,
     set_now (now st + backoff (masterAddr st))
       (set_trace (trace st ++ [EvSleep (backoff (masterAddr st))]) st)).
Proof.
  intros H. unfold update_master_step. mrun. rewrite H, String.eqb_refl. mrun.
  destruct (masterAddr st); reflexivity.
Qed.

(** A turn that finds what is printed differently from the current address,
    be it the nil address. *)
Lemma update_master_step_changed st possibleMaster :
  net.TCPAddr_String possibleMaster <> net.TCPAddr_String (masterAddr st) ->
  chans st !! masterStopChan st = Some false ->
  let c := masterStopChan st in
  let c' := fresh (dom (<[c := true]> (chans st))) in
  exists st',
    update_master_step (possibleMaster, None) env st = (Done tt, st')
    /\ masterAddr st' = possibleMaster
    /\ masterStopChan st' = c'
    /\ chans st' = <[c' := false]> (<[c := true]> (chans st))
    /\ trace st' = (trace st ++
         [EvLog ErrorLevel ("[MASTER] Master Address changed from "
                            ++ net.TCPAddr_String (masterAddr st) ++ " to "
                            ++ net.TCPAddr_String possibleMaster ++ ".");
          EvChanClose c; EvChanMake c'; EvSleep (backoff possibleMaster)])%list.
Proof.
  intros Hne Hopen c c'. unfold update_master_step. mrun.
  destruct (String.eqb_spec (net.TCPAddr_String possibleMaster) (net.TCPAddr_String (masterAddr st)))
    as [Heq|_]; [contradiction|].
  mrun. unfold close_chan, make_chan. mrun. rewrite Hopen. mrun.
  destruct possibleMaster; mrun; (eexists; split; [reflexivity|]); cbn;
    rewrite <- !app_assoc; repeat split.
Qed.

(** After such a turn the old channel is closed, the current channel is one
    that was not there before, and it is open. *)
Lemma update_master_step_changed_open st possibleMaster st' :
  net.TCPAddr_String possibleMaster <> net.TCPAddr_String (masterAddr st) ->
  chans st !! masterStopChan st = Some false ->
  update_master_step (possibleMaster, None) env st = (Done tt, st') ->
  chans st' !! masterStopChan st' = Some false
  /\ chans st !! masterStopChan st' = None
  /\ chans st' !! masterStopChan st = Some true
  /\ firings (trace st') = S (firings (trace st)).
Proof.
  intros Hne Hopen E.
  destruct (update_master_step_changed st possibleMaster Hne Hopen)
    as (st'' & E' & Ha & Hc & Hh & Ht).
  rewrite E in E'. inversion E'; subst st''. clear E'.
  set (c := masterStopChan st) in *. set (h := <[c := true]> (chans st)) in *.
  assert (Hfresh : fresh (dom h) ∉ dom h) by apply is_fresh.
  assert (Hc' : fresh (dom h) <> c).
  { intros Heq. apply Hfresh. rewrite Heq. unfold h. rewrite dom_insert. set_solver. }
  rewrite Hh, Hc, Ht, firings_app. split; [apply lookup_insert_eq|]. split; [|split].
  - apply not_elem_of_dom. intros Hin. apply Hfresh. unfold h. rewrite dom_insert. set_solver.
  - rewrite lookup_insert_ne by exact Hc'. apply lookup_insert_eq.
  - cbn. lia.
Qed.

(** The sessions that hold the channel that was current before such a turn
    can leave their [select]. *)
Lemma update_master_step_wakes st possibleMaster st' (s : Session) :
  net.TCPAddr_String possibleMaster <> net.TCPAddr_String (masterAddr st) ->
  chans st !! masterStopChan st = Some false ->
  update_master_step (possibleMaster, None) env st = (Done tt, st') ->
  sess_masterStopChan s = masterStopChan st ->
  select_ready s st' = true.
Proof.
  intros Hne Hopen E Hs.
  destruct (update_master_step_changed_open st possibleMaster st' Hne Hopen E) as (_ & _ & H & _).
  unfold select_ready, closed. rewrite Hs, H. reflexivity.
Qed.

(** C4.  A turn of the loop of [update_master] that finds an address printed
    like the current one changes none of [masterAddr], [masterStopChan] and
    the channels: no channel is closed, nothing is logged, and the only
    action is the sleep of 250ms. *)
Theorem update_master_same_address st a :
  net.TCPAddr_String (Some a) = net.TCPAddr_String (masterAddr st) ->
  exists st',
    update_master_step (Some a, None) env st = (Done tt, st')
    /\ masterAddr st' = masterAddr st
    /\ masterStopChan st' = masterStopChan st
    /\ chans st' = chans st
    /\ trace st' = (trace st ++ [EvSleep (250 * Millisecond)])%list.
Proof.
  intros H. rewrite (update_master_step_same _ _ H).
  destruct (masterAddr st) as [m|] eqn:E.
  - eexists. split; [reflexivity|]. cbn. rewrite E. repeat split.
  - exfalso. apply (TCPAddr_String_Some a). exact H.
Qed.

(** As long as every poll that does not fail finds an address, the
    channel is closed as many times as the address changes. *)
Lemma update_master_steps_firings polls : forall st,
  chans st !! masterStopChan st = Some false ->
  Forall (fun p => p <> (None, None)) polls ->
  exists st',
    update_master_steps polls env st = (Done tt, st')
    /\ firings (trace st')
       = (firings (trace st) + changes (net.TCPAddr_String (masterAddr st)) (discovered polls))%nat
    /\ chans st' !! masterStopChan st' = Some false.
Proof.
  induction polls as [|[pm err] polls IH]; intros st Hopen HF.
  - exists st. cbn. split; [reflexivity|]. split; [lia|exact Hopen].
  - inversion HF as [|? ? Hp HF']; subst. cbn [update_master_steps].
    unfold mbind at 1, M_bind at 1. destruct err as [err|].
    + rewrite update_master_step_error.
      match goal with |- context [update_master_steps polls env ?s] =>
        destruct (IH s) as (st' & E & Hf & Ho); [exact Hopen|exact HF'|] end.
      exists st'. split; [exact E|]. split; [|exact Ho].
      rewrite Hf. cbn [trace set_now set_trace masterAddr]. rewrite firings_app. cbn.
      destruct pm; lia.
    + destruct pm as [a|]; [|contradiction].
      cbn [discovered changes].
      destruct (String.eqb_spec (net.TCPAddr_String (Some a)) (net.TCPAddr_String (masterAddr st)))
        as [Heq|Hne].
      * rewrite (update_master_step_same _ _ Heq).
        match goal with |- context [update_master_steps polls env ?s] =>
          destruct (IH s) as (st' & E & Hf & Ho); [exact Hopen|exact HF'|] end.
        exists st'. split; [exact E|]. split; [|exact Ho].
        rewrite Hf. cbn [trace set_now set_trace masterAddr]. rewrite firings_app, Heq. cbn. lia.
      * destruct (update_master_step_changed st (Some a) Hne Hopen)
          as (st1 & E1 & Ha & Hc & Hh & Ht).
        destruct (update_master_step_changed_open st (Some a) st1 Hne Hopen E1)
          as (Ho1 & _ & _ & Hf1).
        rewrite E1. destruct (IH st1 Ho1 HF') as (st' & E & Hf & Ho).
        exists st'. split; [exact E|]. split; [|exact Ho].
        rewrite Hf, Hf1, Ha. lia.
Qed.

End Tracker.

Lemma update_master_same_address_witness :
  net.TCPAddr_String (Some Sample.master1) = net.TCPAddr_String (masterAddr Sample.running)
  /\ exists st',
       update_master_step (Some Sample.master1, None) Sample.env Sample.running = (Done tt, st')
       /\ masterAddr st' = masterAddr Sample.running
       /\ masterStopChan st' = masterStopChan Sample.running
       /\ chans st' = chans Sample.running
       /\ trace st' = (trace Sample.running ++ [EvSleep (250 * Millisecond)])%list.
Proof.
  assert (H : net.TCPAddr_String (Some Sample.master1)
              = net.TCPAddr_String (masterAddr Sample.running)) by reflexivity.
  split; [exact H|]. exact (update_master_same_address Sample.env _ _ H).
Defined.

(** C1, on the code.  A master is known, the sentinels answer, and the
    master they name cannot be dialled: [getMasterAddr] returns no address
    and no error, and the turn of the loop of [update_master] sets
    [masterAddr] to nil, closes the current channel and replaces it, where
    the claim has the address kept and the channel left alone. *)
Theorem update_master_no_result_resets_master :
  let env := Sample.env_master_down in
  let st := Sample.running in
  polled 1 env st = [(None, None)]
  /\ exists st',
       update_master_iter env st = (Done tt, st')
       /\ masterAddr st = Some Sample.master1
       /\ masterAddr st' = None
       /\ closed (masterStopChan st) st' = true
       /\ masterStopChan st' <> masterStopChan st
       /\ firings (trace st') = 1%nat.
Proof.
  intros env st. split; [vm_compute; reflexivity|].
  exists (snd (update_master_iter env st)).
  split; [vm_compute; reflexivity|]. split; [reflexivity|].
  split; [vm_compute; reflexivity|]. split; [vm_compute; reflexivity|].
  split; [vm_compute; discriminate|vm_compute; reflexivity].
Qed.

(** C2, on the code.  The sentinels name the same master all along, and
    nothing can be reached during the second of three polls.  The sequence
    of the addresses found is that master twice: the address changes once,
    from unset to that master.  [update_master] closes the channel three
    times: when the master is found, when nothing is found, since the nil
    result is compared like an address, and when the same master is found
    again.  The close of the second turn ends the sessions that were started
    while that master was known, whose [select] is ready then, although the
    master is the same before and after; the claim has as many closes as
    changes of the address, and a session ended by a change. *)
Theorem update_master_outage_firings :
  let env := Sample.env_outage in
  let st := Sample.started in
  let st1 := snd (update_master 1 env st) in
  let st2 := snd (update_master 2 env st) in
  polled 3 env st = Sample.polls_with_gap
  /\ discovered Sample.polls_with_gap = [Sample.master1; Sample.master1]
  /\ changes (net.TCPAddr_String (masterAddr st)) (discovered Sample.polls_with_gap) = 1%nat
  /\ (exists st',
        update_master 3 env st = (Done tt, st')
        /\ firings (trace st') = (firings (trace st) + 3)%nat
        /\ masterAddr st' = Some Sample.master1)
  /\ update_master 1 env st = (Done tt, st1)
  /\ update_master 2 env st = (Done tt, st2)
  /\ masterAddr st1 = Some Sample.master1
  /\ closed (masterStopChan st1) st1 = false
  /\ masterAddr st2 = None
  /\ forall s : Session,
       sess_masterStopChan s = masterStopChan st1 ->
       select_ready s st1 = closed (sess_localChan s) st1 || closed (sess_remoteChan s) st1
       /\ select_ready s st2 = true.
Proof.
  intros env st st1 st2. split; [vm_compute; reflexivity|]. split; [reflexivity|].
  split; [vm_compute; reflexivity|].
  split.
  { exists (snd (update_master 3 env st)). split; [vm_compute; reflexivity|].
    split; vm_compute; reflexivity. }
  split; [vm_compute; reflexivity|]. split; [vm_compute; reflexivity|].
  split; [vm_compute; reflexivity|].
  assert (H1 : closed (masterStopChan st1) st1 = false) by (vm_compute; reflexivity).
  assert (H2 : closed (masterStopChan st1) st2 = true) by (vm_compute; reflexivity).
  split; [exact H1|]. split; [vm_compute; reflexivity|].
  intros s Hs. unfold select_ready. rewrite Hs, H1, H2. split; reflexivity.
Qed.

(** ** Sessions *)

Section Sessions.

Context (env : Env).

Lemma AcceptTCP_globals listener st r st1 :
  AcceptTCP listener env st = (Done r, st1) ->
  globals st1 = globals st /\ trace st1 = trace st.
Proof.
  unfold AcceptTCP. destruct listener; mrun; [|discriminate].
  destruct (accept_at (world env) (clock st)); mrun; intros [= <- <-]; split; reflexivity.
Qed.

(** When [proxy] leaves its [select] it closes the two connections, the
    one to the master first. *)
Lemma proxy_return_closes (s : Session) remote st :
  sess_remote s = Some remote ->
  exists line,
    proxy_return s env st
    = (Done tt,
       set_trace (trace st ++ [EvLog InfoLevel line; EvConnClose remote;
                               EvConnClose (sess_local s)]) st).
Proof.
  intros Hr. unfold proxy_return, conn_Close. rewrite Hr. mrun.
  eexists. f_equal. unfold set_trace; cbn. rewrite <- !app_assoc. reflexivity.
Qed.

(** C7.  When the dial of the master fails, [proxy] returns before its
    [select]: the one dial, the entry of the log and the close of the client
    connection are all that it does, no goroutine is started and no channel
    is made.  The dial has the timeout [ProxyDialTimeout] of 50ms, shorter
    than the 100ms of [DialTimeout], and the client connection is closed no
    later than that after the session began. *)
Theorem proxy_dial_failure st local remoteAddr masterStopChan err st1 :
  net_DialTimeout "tcp4" (net.TCPAddr_String remoteAddr) ProxyDialTimeout env st
  = (Done (None, Some err), st1) ->
  let line := "[PROXY " ++ RemoteAddr local ++ " => " ++ net.TCPAddr_String remoteAddr
              ++ "] Can't establish connection: " ++ err ++ LF in
  exists st',
    proxy local remoteAddr masterStopChan env st = (Done None, st')
    /\ trace st' = (trace st ++ [EvDial "tcp4" (net.TCPAddr_String remoteAddr) ProxyDialTimeout None;
                                 EvLog InfoLevel line;
                                 EvConnClose local])%list
    /\ chans st' = chans st
    /\ now st <= now st' <= now st + ProxyDialTimeout
    /\ ProxyDialTimeout = 50 * Millisecond
    /\ DialTimeout = 100 * Millisecond
    /\ ProxyDialTimeout < DialTimeout.
Proof.
  intros E line.
  destruct (net_DialTimeout_spec env "tcp4" (net.TCPAddr_String remoteAddr) ProxyDialTimeout st
              ProxyDialTimeout_nonneg) as (conn & derr & st1' & E' & _ & Hx & Hn).
  rewrite E in E'. inversion E'; subst. destruct Hx as (Ht & Hg & _ & Hn0).
  unfold proxy. mrun. rewrite E. mrun. unfold conn_Close. mrun.
  eexists. split; [reflexivity|]. cbn. rewrite Ht, <- !app_assoc.
  inversion Hg. repeat split; auto.
Qed.

(** C8.  A client accepted while [masterAddr] is nil gets a session for the
    nil address.  The session returns without a panic: the dial of the
    address [<nil>] fails at once, since the address has no port, the
    failure is logged, the client connection is closed, and no time has
    passed. *)
Theorem proxy_unset_master st listener local st1 :
  masterAddr st = None ->
  AcceptTCP listener env st = (Done (Some local, None), st1) ->
  main_iter listener env st
  = (Done tt, set_trace (trace st1 ++ [EvGo (TaskProxy local None (masterStopChan st))]) st1)
  /\ forall masterStopChan st2,
       let line := "[PROXY " ++ RemoteAddr local ++ " => <nil>] Can't establish connection: "
                   ++ "dial tcp4: address <nil>: missing port in address" ++ LF in
       exists st',
         proxy local None masterStopChan env st2 = (Done None, st')
         /\ trace st' = (trace st2 ++ [EvDial "tcp4" "<nil>" ProxyDialTimeout None;
                                       EvLog InfoLevel line;
                                       EvConnClose local])%list
         /\ now st' = now st2
         /\ globals st' = globals st2.
Proof.
  intros Hm E. split.
  - destruct (AcceptTCP_globals _ _ _ _ E) as [Hg _]. inversion Hg as [[Ha Hc Hh Hl]].
    unfold main_iter. mrun. rewrite E. mrun. rewrite Ha, Hc, Hm. reflexivity.
  - intros c st2 line. unfold proxy. mrun. rewrite net_DialTimeout_nil. mrun.
    unfold conn_Close. mrun. eexists. split; [reflexivity|]. cbn.
    rewrite <- !app_assoc. repeat split.
Qed.

End Sessions.

Lemma proxy_dial_failure_witness :
  let st1 := snd (net_DialTimeout "tcp4" "10.0.0.1:6379" ProxyDialTimeout
                    Sample.env_master_down Sample.running) in
  net_DialTimeout "tcp4" (net.TCPAddr_String (Some Sample.master1)) ProxyDialTimeout
    Sample.env_master_down Sample.running
  = (Done (None, Some "connect: connection refused"), st1)
  /\ exists st',
       proxy Sample.client (Some Sample.master1) 0%nat Sample.env_master_down Sample.running
       = (Done None, st')
       /\ now Sample.running <= now st' <= now Sample.running + ProxyDialTimeout.
Proof.
  intros st1.
  assert (H : net_DialTimeout "tcp4" (net.TCPAddr_String (Some Sample.master1)) ProxyDialTimeout
                Sample.env_master_down Sample.running
              = (Done (None, Some "connect: connection refused"), st1))
    by (vm_compute; reflexivity).
  split; [exact H|].
  destruct (proxy_dial_failure _ _ Sample.client _ 0%nat _ _ H) as (st' & E & _ & _ & Hn & _).
  exists st'. split; [exact E|exact Hn].
Defined.

Lemma proxy_unset_master_witness :
  let listener := Some (mkListener (Some (net.mkTCPAddr EmptyString 9999 EmptyString))) in
  let st1 := snd (AcceptTCP listener Sample.env Sample.started) in
  masterAddr Sample.started = None
  /\ AcceptTCP listener Sample.env Sample.started = (Done (Some Sample.client, None), st1)
  /\ main_iter listener Sample.env Sample.started
     = (Done tt,
        set_trace (trace st1 ++ [EvGo (TaskProxy Sample.client None
                                        (masterStopChan Sample.started))]) st1).
Proof.
  intros listener st1.
  assert (Hm : masterAddr Sample.started = None) by reflexivity.
  assert (Ha : AcceptTCP listener Sample.env Sample.started
               = (Done (Some Sample.client, None), st1)) by reflexivity.
  split; [exact Hm|]. split; [exact Ha|].
  exact (proj1 (proxy_unset_master _ _ _ _ _ Hm Ha)).
Defined.

(** ** Startup *)

Section Startup.

Context (env : Env).

(** [initSentry] returns, or ends the process with an entry in the log. *)
Lemma initSentry_cases st :
  (exists fin, initSentry env st = (Done fin, st))
  \/ (exists e, initSentry env st
               = (Exit 1, set_trace (trace st ++ [EvLog FatalLevel ("sentry.Init: " ++ e)]) st)).
Proof.
  unfold initSentry. mrun.
  destruct (String.eqb _ EmptyString); [left; eauto|].
  destruct (sentry_Init (world env) _); mrun; [right|left]; eauto.
Qed.

(** C9, as amended.  When the name of the master is empty or the address to
    listen on does not resolve, [main] ends the process with status 1
    before any goroutine is started and before the socket is bound.  When
    both checks pass (and the set-up of Sentry before them has not ended the
    process), [main] makes the channel, starts [update_master] and binds
    the socket: it reaches its loop when the bind succeeds, and ends the
    process with status 1 when the bind fails. *)
Theorem main_startup_checks st :
  let name := masterNameAsStr (flags env) in
  let listen := localAddrAsStr (flags env) in
  (name = EmptyString \/ (exists e, resolve_now env st listen = (None, Some e)) ->
   exists st' evs,
     main_startup env st = (Exit 1, st')
     /\ trace st' = (trace st ++ evs)%list
     /\ Forall starts_nothing evs)
  /\ (name <> EmptyString ->
      (exists a, resolve_now env st listen = (Some a, None)) ->
      (exists fin, initSentry env st = (Done fin, st)) ->
      exists o st' laddr evs,
        let c := fresh (dom (chans st)) in
        main_startup env st = (o, st')
        /\ trace st'
           = (trace st ++ [EvLog InfoLevel ("Current log level is '"
                                           ++ Level_String (parseLogLevel (logLevelAsStr (flags env)))
                                           ++ "'");
                           EvChanMake c; EvGo TaskUpdateMaster] ++ evs)%list
        /\ masterStopChan st' = c
        /\ chans st' !! c = Some false
        /\ ((o = Done (Some (mkListener laddr)) /\ evs = [EvListen laddr true])
            \/ (exists e, o = Exit 1
                          /\ evs = [EvListen laddr false; EvLog FatalLevel e]))).
Proof.
  intros name listen. split.
  - intros Hbad. unfold main_startup. unfold mbind at 1, M_bind at 1.
    destruct (initSentry_cases st) as [(fin & ->)|(e & ->)].
    + unfold setupLoggers, checkArgs, net_ResolveTCPAddr. mrun.
      fold name. fold listen.
      destruct (String.eqb_spec name EmptyString) as [Hn|Hn]; mrun.
      * eexists _, _. split; [reflexivity|]. cbn. rewrite <- app_assoc.
        split; [reflexivity|]. repeat constructor.
      * destruct Hbad as [Hbad|(e & Hbad)]; [contradiction|].
        unfold resolve_now in Hbad.
        destruct (hostport listen) as [[host port]|e'] eqn:Hhp; mrun.
        -- destruct (resolve_at (world env) (clock st) host port) as [a|e'] eqn:Hr;
             [discriminate|]. mrun.
           eexists _, _. split; [reflexivity|]. cbn. rewrite <- app_assoc.
           split; [reflexivity|]. repeat constructor.
        -- eexists _, _. split; [reflexivity|]. cbn. rewrite <- app_assoc.
           split; [reflexivity|]. repeat constructor.
    + eexists _, _. split; [reflexivity|]. split; [reflexivity|]. repeat constructor.
  - intros Hn (a & Ha) (fin & Hs). unfold main_startup. unfold mbind at 1, M_bind at 1.
    rewrite Hs. unfold setupLoggers, checkArgs, getLocalListener, net_ListenTCP,
      net_ResolveTCPAddr, make_chan. mrun. fold name. fold listen.
    destruct (String.eqb_spec name EmptyString) as [Hn'|_]; [contradiction|]. mrun.
    unfold resolve_now in Ha.
    destruct (hostport listen) as [[host port]|e'] eqn:Hhp; [|discriminate]. mrun.
    destruct (resolve_at (world env) (clock st) host port) as [a'|e'] eqn:Hr; [|discriminate].
    mrun.
    (* the address is resolved a second time by [getLocalListener] *)
    destruct (resolve_at (world env) (S (clock st)) host port) as [a2|e2]; mrun;
      match goal with |- context [listen_at ?w ?t ?l] =>
        destruct (listen_at w t l) as [e|]; mrun; eexists _, _, l, _
      end;
      (split; [reflexivity|]; cbn; rewrite <- !app_assoc; cbn;
       split; [reflexivity|]; split; [reflexivity|]; split; [apply lookup_insert_eq|]);
      solve [left; eauto | right; eauto].
Qed.

End Startup.

(** With a name for the master and an address to listen on that resolves,
    [main] still does not reach its loop when the port is taken. *)
Lemma startup_stops_at_bind :
  ~ (masterNameAsStr (flags Sample.env_port_taken) <> EmptyString ->
     (exists a, resolve_now Sample.env_port_taken Sample.initial
                  (localAddrAsStr (flags Sample.env_port_taken)) = (Some a, None)) ->
     exists listener st',
       main_startup Sample.env_port_taken Sample.initial = (Done listener, st')).
Proof.
  intros H. destruct H as (listener & st' & E).
  - discriminate.
  - eexists. vm_compute. reflexivity.
  - vm_compute in E. discriminate.
Qed.

Lemma main_startup_checks_witness :
  (masterNameAsStr (flags Sample.env_no_name) = EmptyString
   /\ exists st' evs,
        main_startup Sample.env_no_name Sample.initial = (Exit 1, st')
        /\ trace st' = (trace Sample.initial ++ evs)%list
        /\ Forall starts_nothing evs)
  /\ masterNameAsStr (flags Sample.env) <> EmptyString
  /\ resolve_now Sample.env Sample.initial (localAddrAsStr (flags Sample.env))
     = (Some (net.mkTCPAddr EmptyString 9999 EmptyString), None)
  /\ exists o st' laddr evs,
       main_startup Sample.env Sample.initial = (o, st')
       /\ masterStopChan st' = fresh (dom (chans Sample.initial))
       /\ ((o = Done (Some (mkListener laddr)) /\ evs = [EvListen laddr true])
           \/ (exists e, o = Exit 1 /\ evs = [EvListen laddr false; EvLog FatalLevel e])).
Proof.
  assert (He : masterNameAsStr (flags Sample.env_no_name) = EmptyString) by reflexivity.
  assert (Hn : masterNameAsStr (flags Sample.env) <> EmptyString) by discriminate.
  assert (Hr : resolve_now Sample.env Sample.initial (localAddrAsStr (flags Sample.env))
               = (Some (net.mkTCPAddr EmptyString 9999 EmptyString), None)) by reflexivity.
  split.
  { split; [exact He|].
    exact (proj1 (main_startup_checks Sample.env_no_name Sample.initial) (or_introl He)). }
  split; [exact Hn|]. split; [exact Hr|].
  destruct (proj2 (main_startup_checks Sample.env Sample.initial) Hn
              (ex_intro _ _ Hr) (ex_intro _ noop eq_refl))
    as (o & st' & laddr & evs & E & _ & Hc & _ & Ho).
  exists o, st', laddr, evs. auto.
Defined.

(** ** The goroutines together *)

Section Statements.
Context (env : Env).

Lemma update_master_step_statements polled st :
  update_master_step polled env st
  = (r ← update_master_compare polled;
     match r with
     | Failed => mret tt
     | Same => update_master_sleep
     | Changed => update_master_close;; update_master_make;; update_master_sleep
     end) env st.
Proof.
  destruct polled as [pm [err|]];
    unfold update_master_step, update_master_compare, update_master_close, update_master_make,
      update_master_sleep, close_chan, make_chan, backoff; mrun; [reflexivity|].
  destruct (negb _); mrun; [|destruct (masterAddr st); reflexivity].
  destruct (chans st !! masterStopChan st) as [[|]|]; mrun; try reflexivity.
  destruct pm; reflexivity.
Qed.

Lemma main_iter_statements listener st :
  main_iter listener env st
  = (local ← main_accept listener;
     match local with
     | None => mret tt
     | Some local => st ← get; main_go local (masterAddr st);; mret tt
     end) env st.
Proof.
  unfold main_iter, main_accept, main_go. mrun.
  destruct (AcceptTCP listener env st) as [[[local err]| |] st1]; mrun; try reflexivity.
  destruct err; mrun; [reflexivity|]. destruct local; reflexivity.
Qed.

Lemma compare_heap polled st r st' :
  update_master_compare polled env st = (Done r, st') ->
  same_heap st st'
  /\ match r with
     | Changed => exists pm, polled = (pm, None) /\ masterAddr st' = pm
                   /\ net.TCPAddr_String pm <> net.TCPAddr_String (masterAddr st)
     | Same => exists pm, polled = (pm, None) /\ masterAddr st' = masterAddr st
                   /\ net.TCPAddr_String pm = net.TCPAddr_String (masterAddr st)
     | Failed => exists pm e, polled = (pm, Some e) /\ masterAddr st' = masterAddr st
     end.
Proof.
  destruct polled as [pm [err|]]; unfold update_master_compare; mrun.
  - intros [= <- <-]. split; [split; reflexivity|]. eauto.
  - destruct (String.eqb_spec (net.TCPAddr_String pm) (net.TCPAddr_String (masterAddr st)));
      mrun; intros [= <- <-]; (split; [split; reflexivity|]); eauto.
Qed.

Lemma sleep_heap st r st' :
  update_master_sleep env st = (Done r, st') ->
  same_heap st st' /\ masterAddr st' = masterAddr st.
Proof. unfold update_master_sleep. mrun. intros [= <- <-]. repeat split. Qed.

Lemma close_heap st r st' :
  update_master_close env st = (Done r, st') ->
  chans st !! masterStopChan st = Some false
  /\ chans st' = <[masterStopChan st := true]> (chans st)
  /\ masterStopChan st' = masterStopChan st
  /\ masterAddr st' = masterAddr st.
Proof.
  unfold update_master_close, close_chan. mrun.
  destruct (chans st !! masterStopChan st) as [[|]|]; mrun; intros [= <- <-]. repeat split.
Qed.

(** The close does not panic on an open channel. *)
Lemma close_open st :
  chans st !! masterStopChan st = Some false ->
  exists st', update_master_close env st = (Done tt, st').
Proof. intros H. unfold update_master_close, close_chan. mrun. rewrite H. mrun. eauto. Qed.

Lemma make_heap st r st' :
  (update_master_make;; update_master_sleep) env st = (Done r, st') ->
  let c := fresh (dom (chans st)) in
  chans st' = <[c := false]> (chans st)
  /\ masterStopChan st' = c
  /\ masterAddr st' = masterAddr st.
Proof.
  unfold update_master_make, update_master_sleep, make_chan. mrun. intros [= <- <-].
  repeat split.
Qed.

Lemma accept_heap listener st r st' :
  main_accept listener env st = (Done r, st') ->
  same_heap st st' /\ masterAddr st' = masterAddr st.
Proof.
  unfold main_accept, AcceptTCP. destruct listener; mrun; [|discriminate].
  destruct (accept_at (world env) (clock st)); mrun; intros [= <- <-]; repeat split.
Qed.

Lemma go_heap local remoteAddr st c st' :
  main_go local remoteAddr env st = (Done c, st') ->
  same_heap st st' /\ masterAddr st' = masterAddr st /\ c = masterStopChan st.
Proof. unfold main_go. mrun. intros [= <- <-]. repeat split. Qed.

Lemma proxy_heap local remoteAddr c st r st' :
  proxy local remoteAddr c env st = (Done r, st') ->
  masterStopChan st' = masterStopChan st
  /\ masterAddr st' = masterAddr st
  /\ match r with
     | None => chans st' = chans st
     | Some s =>
         let c1 := fresh (dom (chans st)) in
         let c2 := fresh (dom (<[c1 := false]> (chans st))) in
         chans st' = <[c2 := false]> (<[c1 := false]> (chans st))
         /\ sess_masterStopChan s = c
         /\ sess_localChan s = c1
         /\ sess_remoteChan s = c2
         /\ sess_local s = local
         /\ is_Some (sess_remote s)
     end.
Proof.
  unfold proxy. unfold mbind at 1, M_bind at 1.
  destruct (net_DialTimeout "tcp4" (net.TCPAddr_String remoteAddr) ProxyDialTimeout env st)
    as [[[remote err]| |] st1] eqn:E; try discriminate.
  assert (Hd : chans st1 = chans st /\ masterStopChan st1 = masterStopChan st
               /\ masterAddr st1 = masterAddr st /\ (err = None -> is_Some remote)).
  { revert E. unfold net_DialTimeout. destruct (hostport _) as [[h p]|e]; mrun.
    - destruct (connect_at _ _ _ _ _) as [lat [f|]]; destruct (_ <=? _); mrun;
        intros [= <- <- <-]; repeat split; try discriminate; eauto.
    - intros [= <- <- <-]. repeat split. discriminate. }
  destruct Hd as (Hc & Hm & Ha & Hr).
  destruct err as [err|]; unfold conn_Close, make_chan; mrun.
  - intros [= <- <-]. cbn. auto.
  - destruct (Hr eq_refl) as [rc ->]. mrun. intros [= <- <-]. cbn. rewrite Hc.
    repeat split; eauto.
Qed.

Lemma pipe_heap r w ch copied st u st' :
  pipe r w ch copied env st = (Done u, st') ->
  chans st !! ch = Some false
  /\ chans st' = <[ch := true]> (chans st)
  /\ masterStopChan st' = masterStopChan st
  /\ masterAddr st' = masterAddr st.
Proof.
  unfold pipe, close_chan. destruct copied as [bytes [err|]]; mrun;
    destruct (chans st !! ch) as [[|]|]; mrun; intros [= <- <-]; repeat split.
Qed.

Lemma return_heap s st u st' :
  proxy_return s env st = (Done u, st') ->
  same_heap st st' /\ masterAddr st' = masterAddr st.
Proof.
  unfold proxy_return, conn_Close. mrun. destruct (sess_remote s); mrun;
    intros [= <- <-]; repeat split.
Qed.

End Statements.

(** ** The channels all along *)

Lemma fresh_lookup (h : gmap Chan bool) : h !! fresh (dom h) = None.
Proof. apply not_elem_of_dom, is_fresh. Qed.

Lemma In_insert {A} (l : list A) i x p : In p (<[i := x]> l) -> p = x \/ In p l.
Proof.
  revert i. induction l as [|y l IH]; intros [|i]; cbn; try tauto.
  - intros [H|H]; auto.
  - intros [H|H]; auto. destruct (IH i H); auto.
Qed.

Lemma In_lookup {A} (l : list A) i x : l !! i = Some x -> In x l.
Proof. intros H. apply list_elem_of_In, list_elem_of_lookup. eauto. Qed.

Lemma Inv_epochs_dom sys c :
  Inv sys -> In c (epochs sys) -> is_Some (chans (shared sys) !! c).
Proof.
  intros I Hin. destruct (decide (c = masterStopChan (shared sys))) as [->|Hne].
  - rewrite (inv_open _ I). eauto.
  - rewrite (inv_olds _ I c Hin Hne). eauto.
Qed.

Lemma Inv_fresh sys c :
  Inv sys -> chans (shared sys) !! c = None -> ~ In c (epochs sys).
Proof.
  intros I Hc Hin. destruct (Inv_epochs_dom sys c I Hin) as [b Hb]. congruence.
Qed.

(** A step that leaves the channels and [masterStopChan] alone, and whose
    new sessions hold the current channel. *)
Lemma Inv_same_heap sys sys' :
  Inv sys ->
  same_heap (shared sys) (shared sys') ->
  epochs sys' = epochs sys ->
  fired (tracker sys') = fired (tracker sys) ->
  (forall p, In p (sessions sys') ->
     In p (sessions sys)
     \/ stop_of p = None
     \/ exists local remoteAddr, p = Dialing local remoteAddr (masterStopChan (shared sys))) ->
  Inv sys'.
Proof.
  intros I [Hc Hm] He Hf Hs. constructor; rewrite ?Hc, ?Hm, ?He, ?Hf.
  - apply I.
  - apply I.
  - apply I.
  - apply I.
  - intros p c Hin Hp. destruct (Hs p Hin) as [H|[H|(l & a & ->)]].
    + eapply inv_stop; eauto.
    + congruence.
    + injection Hp as <-. destruct (inv_current _ I) as (olds & ->). left. reflexivity.
  - intros s Hin. destruct (Hs _ Hin) as [H|[H|(l & a & H)]]; try discriminate.
    apply (inv_pipes _ I s H).
Qed.

Lemma Inv_step env l sys sys' : Inv sys -> sys_step env l sys = Some sys' -> Inv sys'.
Proof.
  intros I Hstep. destruct l as [poll| | | | |i|i to_master copied|i]; cbn [sys_step] in Hstep.
  - (* the poll *)
    destruct (tracker sys) eqn:Ht; try discriminate.
    destruct (update_master_compare poll env (shared sys)) as [[r| |] st'] eqn:E;
      cbn in Hstep; try discriminate.
    destruct (compare_heap _ _ _ _ _ E) as [Hh _]. destruct r.
    + injection Hstep as <-. apply (Inv_same_heap sys); cbn; auto.
    + destruct (update_master_sleep env st') as [[u| |] st''] eqn:E'; cbn in Hstep;
        try discriminate.
      destruct (sleep_heap _ _ _ _ E') as [[Hc' Hm'] _]. destruct Hh as [Hc Hm].
      injection Hstep as <-. apply (Inv_same_heap sys); cbn; auto.
      split; congruence.
    + injection Hstep as <-. apply (Inv_same_heap sys); cbn; auto. rewrite Ht. reflexivity.
  - (* the close *)
    destruct (tracker sys) eqn:Ht; try discriminate.
    destruct (update_master_close env (shared sys)) as [[u| |] st'] eqn:E;
      cbn in Hstep; try discriminate.
    destruct (close_heap _ _ _ _ E) as (_ & Hc & Hm & _). injection Hstep as <-.
    constructor; cbn; rewrite ?Hc, ?Hm.
    + apply I.
    + apply I.
    + apply lookup_insert_eq.
    + intros c Hin Hne. rewrite lookup_insert_ne by congruence. apply I; auto.
    + apply I.
    + intros s Hin. destruct (inv_pipes _ I s Hin) as (H0 & H1 & H2 & H3 & H4).
      repeat split; auto; apply lookup_insert_is_Some'; auto.
  - (* the new channel *)
    destruct (tracker sys) eqn:Ht; try discriminate.
    destruct ((update_master_make;; update_master_sleep) env (shared sys)) as [[u| |] st'] eqn:E;
      cbn in Hstep; try discriminate.
    destruct (make_heap _ _ _ _ E) as (Hc & Hm & _). injection Hstep as <-.
    pose proof (fresh_lookup (chans (shared sys))) as Hfresh.
    pose proof (Inv_fresh sys _ I Hfresh) as Hnew.
    constructor; cbn; rewrite ?Hc, ?Hm.
    + eauto.
    + constructor; [rewrite list_elem_of_In; exact Hnew|apply I].
    + apply lookup_insert_eq.
    + intros c [Hin|Hin] Hne; [congruence|].
      rewrite lookup_insert_ne by congruence.
      destruct (decide (c = masterStopChan (shared sys))) as [->|Hne'].
      * rewrite (inv_open _ I), Ht. reflexivity.
      * apply I; auto.
    + intros p c Hin Hp. right. eapply inv_stop; eauto.
    + intros s Hin. destruct (inv_pipes _ I s Hin) as (H0 & H1 & H2 & H3 & H4).
      repeat split; try (apply lookup_insert_is_Some'; auto); auto.
      * intros [Heq|Hin']; [|auto]. rewrite <- Heq, Hfresh in H1. destruct H1; discriminate.
      * intros [Heq|Hin']; [|auto]. rewrite <- Heq, Hfresh in H2. destruct H2; discriminate.
  - (* the accept *)
    destruct (main_at sys) eqn:Hm; try discriminate.
    destruct (main_accept (listener_of sys) env (shared sys)) as [[[local|]| |] st'] eqn:E;
      cbn in Hstep; try discriminate;
      destruct (accept_heap _ _ _ _ _ E) as [Hh _]; injection Hstep as <-;
      apply (Inv_same_heap sys); cbn; auto.
  - (* the go statement *)
    destruct (main_at sys) as [|local remoteAddr] eqn:Hm; try discriminate.
    destruct (main_go local remoteAddr env (shared sys)) as [[c| |] st'] eqn:E;
      cbn in Hstep; try discriminate.
    destruct (go_heap _ _ _ _ _ _ E) as (Hh & _ & ->). injection Hstep as <-.
    apply (Inv_same_heap sys); cbn; auto.
    intros p Hin. apply in_app_or in Hin. destruct Hin as [Hin|[<-|[]]]; eauto.
  - (* the dial *)
    destruct (sessions sys !! i) as [[local remoteAddr c|s|]|] eqn:Hi; try discriminate.
    destruct (proxy local remoteAddr c env (shared sys)) as [[[s|]| |] st'] eqn:E;
      cbn in Hstep; try discriminate;
      destruct (proxy_heap _ _ _ _ _ _ _ E) as (Hm & _ & Hr); injection Hstep as <-.
    + destruct Hr as (Hc & Hs & Hl & Hrc & _ & Hrem).
      pose proof (fresh_lookup (chans (shared sys))) as Hf1.
      pose proof (fresh_lookup (<[fresh (dom (chans (shared sys))) := false]> (chans (shared sys))))
        as Hf2.
      set (c1 := fresh (dom (chans (shared sys)))) in *.
      set (c2 := fresh (dom (<[c1 := false]> (chans (shared sys))))) in *.
      assert (H21 : c2 <> c1).
      { intros Heq. rewrite Heq, lookup_insert_eq in Hf2. discriminate. }
      assert (Hc2 : chans (shared sys) !! c2 = None).
      { rewrite lookup_insert_ne in Hf2 by congruence. exact Hf2. }
      pose proof (Inv_fresh sys _ I Hf1) as Hn1. pose proof (Inv_fresh sys _ I Hc2) as Hn2.
      assert (Hkeep : forall c b, chans (shared sys) !! c = Some b ->
                                  <[c2 := false]> (<[c1 := false]> (chans (shared sys))) !! c = Some b).
      { intros c0 b Hb. rewrite !lookup_insert_ne; congruence. }
      constructor; cbn; rewrite ?Hc, ?Hm.
      * apply I.
      * apply I.
      * apply Hkeep, I.
      * intros c0 Hin Hne. apply Hkeep, I; auto.
      * intros p c0 Hin Hp. apply In_insert in Hin. destruct Hin as [->|Hin].
        -- cbn in Hp. injection Hp as <-. rewrite Hs.
           eapply (inv_stop _ I (Dialing local remoteAddr c)); [eapply In_lookup; eauto|reflexivity].
        -- eapply inv_stop; eauto.
      * intros s0 Hin. apply In_insert in Hin. destruct Hin as [[= ->]|Hin].
        -- rewrite Hl, Hrc. rewrite lookup_insert_ne, !lookup_insert_eq by congruence.
           repeat split; eauto.
        -- destruct (inv_pipes _ I s0 Hin) as (H0 & [b1 H1] & [b2 H2] & H3 & H4).
           rewrite (Hkeep _ _ H1), (Hkeep _ _ H2). repeat split; eauto.
    + apply (Inv_same_heap sys); cbn; auto; [split; auto|].
      intros p Hin. apply In_insert in Hin. destruct Hin as [->|Hin]; auto.
  - (* the end of a pipe *)
    destruct (sessions sys !! i) as [[local remoteAddr c|s|]|] eqn:Hi; try discriminate.
    destruct (sess_remote s) as [remote|]; try discriminate.
    pose proof (inv_pipes _ I s (In_lookup _ _ _ Hi)) as (_ & H1 & H2 & H3 & H4).
    assert (Hgen : forall ch st' u r w,
               pipe r w ch copied env (shared sys) = (Done u, st') ->
               ~ In ch (epochs sys) -> Inv (with_shared st' sys)).
    { intros ch st' u r w E Hn. destruct (pipe_heap _ _ _ _ _ _ _ _ E) as (Ho & Hc & Hm & _).
      assert (Hcur : ch <> masterStopChan (shared sys)).
      { intros ->. apply Hn. destruct (inv_current _ I) as (olds & ->). left. reflexivity. }
      constructor; cbn; rewrite ?Hc, ?Hm.
      - apply I.
      - apply I.
      - rewrite lookup_insert_ne by congruence. apply I.
      - intros c0 Hin Hne. rewrite lookup_insert_ne by congruence. apply I; auto.
      - apply I.
      - intros s0 Hin. destruct (inv_pipes _ I s0 Hin) as (G0 & G1 & G2 & G3 & G4).
        repeat split; auto; apply lookup_insert_is_Some'; auto. }
    destruct to_master.
    + destruct (pipe (sess_local s) remote (sess_remoteChan s) copied env (shared sys))
        as [[u| |] st'] eqn:E; cbn in Hstep; try discriminate.
      injection Hstep as <-. eapply Hgen; eauto.
    + destruct (pipe remote (sess_local s) (sess_localChan s) copied env (shared sys))
        as [[u| |] st'] eqn:E; cbn in Hstep; try discriminate.
      injection Hstep as <-. eapply Hgen; eauto.
  - (* the end of the select *)
    destruct (sessions sys !! i) as [[local remoteAddr c|s|]|] eqn:Hi; try discriminate.
    destruct (select_ready s (shared sys)); try discriminate.
    destruct (proxy_return s env (shared sys)) as [[u| |] st'] eqn:E;
      cbn in Hstep; try discriminate.
    destruct (return_heap _ _ _ _ _ E) as [Hh _]. injection Hstep as <-.
    apply (Inv_same_heap sys); cbn; auto.
    intros p Hin. apply In_insert in Hin. destruct Hin as [->|Hin]; auto.
Qed.

Lemma Inv_run env labels : forall sys sys',
  Inv sys -> sys_run env labels sys = Some sys' -> Inv sys'.
Proof.
  induction labels as [|l labels IH]; cbn; intros sys sys' I H.
  - injection H as <-. exact I.
  - destruct (sys_step env l sys) as [sys1|] eqn:E; [|discriminate].
    eapply IH; [eapply Inv_step; eauto|exact H].
Qed.

Lemma Inv_system_of listener st :
  chans st !! masterStopChan st = Some false -> Inv (system_of listener st).
Proof.
  intros H. constructor; cbn.
  - eauto.
  - repeat constructor. rewrite list_elem_of_In. intros [].
  - exact H.
  - intros c [<-|[]] Hne. congruence.
  - intros p c [].
  - intros s [].
Qed.

Lemma sys_step_move env l sys sys' :
  sys_step env l sys = Some sys' ->
  TrackerMove sys sys' l
  /\ (l <> LMake -> masterStopChan (shared sys') = masterStopChan (shared sys)
                    /\ epochs sys' = epochs sys)
  /\ (l = LMake -> epochs sys' = masterStopChan (shared sys') :: epochs sys).
Proof.
  intros Hstep. destruct l as [poll| | | | |i|i to_master copied|i]; cbn [sys_step] in Hstep.
  - destruct (tracker sys) eqn:Ht; try discriminate.
    destruct (update_master_compare poll env (shared sys)) as [[r| |] st'] eqn:E;
      cbn in Hstep; try discriminate.
    destruct (compare_heap _ _ _ _ _ E) as [[Hc Hm] Hr]. destruct r.
    + destruct Hr as (pm & e & -> & Ha). injection Hstep as <-.
      split; [constructor; auto|]. split; [auto|discriminate].
    + destruct Hr as (pm & -> & Ha & Hs).
      destruct (update_master_sleep env st') as [[u| |] st''] eqn:E'; cbn in Hstep;
        try discriminate.
      destruct (sleep_heap _ _ _ _ E') as [[Hc' Hm'] Ha']. injection Hstep as <-.
      split; [apply move_same; cbn; auto; congruence|].
      split; [cbn; split; congruence|discriminate].
    + destruct Hr as (pm & -> & Ha & Hs). injection Hstep as <-.
      split; [apply move_changed; auto|]. split; [auto|discriminate].
  - destruct (tracker sys) eqn:Ht; try discriminate.
    destruct (update_master_close env (shared sys)) as [[u| |] st'] eqn:E;
      cbn in Hstep; try discriminate.
    destruct (close_heap _ _ _ _ E) as (_ & Hc & Hm & Ha). injection Hstep as <-.
    split; [constructor; auto|]. split; [auto|discriminate].
  - destruct (tracker sys) eqn:Ht; try discriminate.
    destruct ((update_master_make;; update_master_sleep) env (shared sys)) as [[u| |] st'] eqn:E;
      cbn in Hstep; try discriminate.
    destruct (make_heap _ _ _ _ E) as (Hc & Hm & Ha). injection Hstep as <-.
    split; [constructor; auto|]. split; [congruence|reflexivity].
  - destruct (main_at sys) eqn:Hm; try discriminate.
    destruct (main_accept (listener_of sys) env (shared sys)) as [[[local|]| |] st'] eqn:E;
      cbn in Hstep; try discriminate;
      destruct (accept_heap _ _ _ _ _ E) as [[Hc Hs] Ha]; injection Hstep as <-;
      (split; [apply move_other; auto|]); (split; [auto|discriminate]).
  - destruct (main_at sys) as [|local remoteAddr] eqn:Hm; try discriminate.
    destruct (main_go local remoteAddr env (shared sys)) as [[c| |] st'] eqn:E;
      cbn in Hstep; try discriminate.
    destruct (go_heap _ _ _ _ _ _ E) as ([Hc Hs] & Ha & ->). injection Hstep as <-.
    split; [apply move_other; auto|]. split; [auto|discriminate].
  - destruct (sessions sys !! i) as [[local remoteAddr c|s|]|] eqn:Hi; try discriminate.
    destruct (proxy local remoteAddr c env (shared sys)) as [[[s|]| |] st'] eqn:E;
      cbn in Hstep; try discriminate;
      destruct (proxy_heap _ _ _ _ _ _ _ E) as (Hm & Ha & Hr); injection Hstep as <-;
      (split; [apply move_other; auto|]); (split; [auto|discriminate]).
  - destruct (sessions sys !! i) as [[local remoteAddr c|s|]|] eqn:Hi; try discriminate.
    destruct (sess_remote s) as [remote|]; try discriminate.
    destruct to_master;
      match type of Hstep with context [pipe ?r ?w ?ch copied env ?st] =>
        destruct (pipe r w ch copied env st) as [[u| |] st'] eqn:E; cbn in Hstep;
        try discriminate;
        destruct (pipe_heap _ _ _ _ _ _ _ _ E) as (_ & Hc & Hm & Ha); injection Hstep as <-
      end;
      (split; [apply move_other; auto|]); (split; [auto|discriminate]).
  - destruct (sessions sys !! i) as [[local remoteAddr c|s|]|] eqn:Hi; try discriminate.
    destruct (select_ready s (shared sys)); try discriminate.
    destruct (proxy_return s env (shared sys)) as [[u| |] st'] eqn:E;
      cbn in Hstep; try discriminate.
    destruct (return_heap _ _ _ _ _ E) as [[Hc Hm] Ha]. injection Hstep as <-.
    split; [apply move_other; auto|]. split; [auto|discriminate].
Qed.

(** Along a run whose polls fail or find an address, the closes made and
    the one to come are as many as the changes of the address. *)
Lemma run_closes env labels : forall sys sys',
  sys_run env labels sys = Some sys' ->
  Forall failed_or_found (polls_of labels) ->
  (closes_of labels + pending (tracker sys'))%nat
  = (pending (tracker sys)
     + changes (net.TCPAddr_String (masterAddr (shared sys))) (discovered (polls_of labels)))%nat.
Proof.
  induction labels as [|l labels IH]; cbn [sys_run]; intros sys sys' H HF.
  - injection H as <-. cbn. lia.
  - destruct (sys_step env l sys) as [sys1|] eqn:E; [|discriminate].
    destruct (sys_step_move _ _ _ _ E) as [Hmove _].
    destruct Hmove as [pm e Ht Ht' Ha|pm Ht Ht' Ha Hs|pm Ht Ht' Ha Hs|Ht Ht' Ha|Ht Ht' Ha
                       |l Ht Ha Hm Hp Hc Hk].
    + cbn [polls_of closes_of discovered] in *.
      rewrite (IH _ _ H (List.Forall_inv_tail HF)). rewrite Ht, Ht', Ha. destruct pm; reflexivity.
    + cbn [polls_of] in HF. pose proof (List.Forall_inv HF) as Hff.
      pose proof (List.Forall_inv_tail HF) as HF'.
      destruct pm as [a|]; [|exfalso; apply Hff; reflexivity].
      cbn [polls_of closes_of discovered changes].
      rewrite (IH _ _ H HF'), Ht, Ht', Ha, <- Hs, String.eqb_refl. reflexivity.
    + cbn [polls_of] in HF. pose proof (List.Forall_inv HF) as Hff.
      pose proof (List.Forall_inv_tail HF) as HF'.
      destruct pm as [a|]; [|exfalso; apply Hff; reflexivity].
      cbn [polls_of closes_of discovered changes].
      rewrite (IH _ _ H HF'), Ht, Ht', Ha.
      destruct (String.eqb_spec (net.TCPAddr_String (Some a))
                  (net.TCPAddr_String (masterAddr (shared sys)))); [contradiction|].
      cbn [pending]. lia.
    + cbn [polls_of closes_of] in *. rewrite <- (Nat.add_comm (pending _)), Nat.add_succ_r.
      rewrite (Nat.add_comm (pending _)), (IH _ _ H HF), Ht, Ht', Ha. reflexivity.
    + cbn [polls_of closes_of] in *. rewrite (IH _ _ H HF), Ht, Ht', Ha. reflexivity.
    + assert (Hp' : polls_of (l :: labels) = polls_of labels)
        by (destruct l; try discriminate; reflexivity).
      assert (Hc' : closes_of (l :: labels) = closes_of labels)
        by (destruct l; try discriminate; reflexivity).
      rewrite Hp' in *. rewrite Hc', (IH _ _ H HF), Ht, Ha. reflexivity.
Qed.

(** Every close is followed by a new channel. *)
Lemma run_makes env labels : forall sys sys',
  sys_run env labels sys = Some sys' ->
  (makes_of labels + unmade (tracker sys'))%nat = (unmade (tracker sys) + closes_of labels)%nat
  /\ length (epochs sys') = (length (epochs sys) + makes_of labels)%nat.
Proof.
  induction labels as [|l labels IH]; cbn [sys_run]; intros sys sys' H.
  - injection H as <-. cbn. lia.
  - destruct (sys_step env l sys) as [sys1|] eqn:E; [|discriminate].
    destruct (sys_step_move _ _ _ _ E) as (Hmove & He & He').
    destruct (IH _ _ H) as [IH1 IH2]. rewrite IH2.
    destruct Hmove as [pm e Ht Ht' Ha|pm Ht Ht' Ha Hs|pm Ht Ht' Ha Hs|Ht Ht' Ha|Ht Ht' Ha
                       |l Ht Ha Hm Hp Hc Hk].
    1-4: destruct (He ltac:(discriminate)) as [_ ->];
         cbn [makes_of closes_of]; rewrite ?Ht, ?Ht' in *; cbn [unmade] in *; lia.
    + rewrite (He' eq_refl). cbn [makes_of closes_of length]. rewrite ?Ht, ?Ht' in *.
      cbn [unmade] in *. lia.
    + assert (l <> LMake) as Hl by (intros ->; discriminate).
      destruct (He Hl) as [_ ->].
      assert (Hk' : makes_of (l :: labels) = makes_of labels)
        by (destruct l; try discriminate; reflexivity).
      assert (Hc' : closes_of (l :: labels) = closes_of labels)
        by (destruct l; try discriminate; reflexivity).
      rewrite Hk', Hc', <- Ht. lia.
Qed.

(** ** The sessions and the channel *)

Lemma fired_AtMake t : fired t = true <-> t = AtMake.
Proof. destruct t; cbn; split; congruence. Qed.

(** The channel of a session is closed exactly when it is not the current
    one any more, or when the current one has just been closed. *)
Lemma session_closed sys c :
  Inv sys -> In c (epochs sys) ->
  (closed c (shared sys) = true <-> c <> masterStopChan (shared sys) \/ tracker sys = AtMake).
Proof.
  intros I Hin. unfold closed.
  destruct (decide (c = masterStopChan (shared sys))) as [->|Hne].
  - rewrite (inv_open _ I). destruct (tracker sys); cbn; split; try tauto; try discriminate.
    all: intros [H|H]; congruence.
  - rewrite (inv_olds _ I c Hin Hne). tauto.
Qed.

Lemma close_enabled env sys :
  Inv sys -> tracker sys = AtClose -> exists sys', sys_step env LClose sys = Some sys'.
Proof.
  intros I Ht. pose proof (inv_open _ I) as Ho. rewrite Ht in Ho.
  destruct (close_open env _ Ho) as (st' & E). cbn [sys_step]. rewrite Ht, E. cbn. eauto.
Qed.

(** An open channel of a session is closed by the close of [update_master]
    and by no other step. *)
Lemma only_close_wakes env l sys sys' c :
  Inv sys -> In c (epochs sys) -> closed c (shared sys) = false ->
  sys_step env l sys = Some sys' ->
  (closed c (shared sys') = true <-> l = LClose).
Proof.
  intros I Hin Hopen Hstep.
  assert (Hcur : c = masterStopChan (shared sys) /\ tracker sys <> AtMake).
  { destruct (decide (c = masterStopChan (shared sys))) as [->|Hne].
    - split; [reflexivity|]. intros Ht.
      assert (closed (masterStopChan (shared sys)) (shared sys) = true)
        by (apply session_closed; auto). congruence.
    - assert (closed c (shared sys) = true) by (apply session_closed; auto). congruence. }
  destruct Hcur as [-> Ht].
  pose proof (Inv_step _ _ _ _ I Hstep) as I'.
  destruct (sys_step_move _ _ _ _ Hstep) as (Hmove & He & _).
  assert (Hl : l <> LMake).
  { intros ->. inversion Hmove; try congruence. discriminate. }
  destruct (He Hl) as [Hm He']. rewrite <- Hm.
  rewrite session_closed; [|exact I'|destruct (inv_current _ I') as (olds & ->); left; reflexivity].
  split.
  - intros [H|H]; [congruence|]. inversion Hmove; subst; try congruence.
  - intros ->. right. inversion Hmove; subst; [assumption|discriminate].
Qed.

(** The channel that [update_master] makes is a new one: no session holds
    it. *)
Lemma make_is_new env sys sys' :
  Inv sys -> sys_step env LMake sys = Some sys' ->
  ~ In (masterStopChan (shared sys')) (epochs sys)
  /\ chans (shared sys') !! masterStopChan (shared sys') = Some false.
Proof.
  intros I Hstep. pose proof (Inv_step _ _ _ _ I Hstep) as I'.
  destruct (sys_step_move _ _ _ _ Hstep) as (Hmove & _ & He). specialize (He eq_refl).
  pose proof (inv_nodup _ I') as Hnd. rewrite He in Hnd. inversion Hnd as [|? ? Hnin _]; subst.
  split; [rewrite <- list_elem_of_In; exact Hnin|].
  rewrite (inv_open _ I'). inversion Hmove as [| | | |Ht Ht' Ha|? ? ? ? ? ? Hk]; [|discriminate].
  rewrite Ht'. reflexivity.
Qed.

(** A session in its [select] with a closed channel leaves it, and closes
    its two connections. *)
Lemma select_returns env sys i s :
  Inv sys -> sessions sys !! i = Some (Selecting s) ->
  closed (sess_masterStopChan s) (shared sys) = true ->
  exists sys' remote line,
    sess_remote s = Some remote
    /\ sys_step env (LSelect i) sys = Some sys'
    /\ sessions sys' !! i = Some Returned
    /\ trace (shared sys')
       = (trace (shared sys) ++ [EvLog InfoLevel line; EvConnClose remote;
                                 EvConnClose (sess_local s)])%list.
Proof.
  intros I Hi Hc.
  destruct (inv_pipes _ I s (In_lookup _ _ _ Hi)) as ([remote Hr] & _).
  destruct (proxy_return_closes env s remote (shared sys) Hr) as (line & E).
  cbn [sys_step]. rewrite Hi. unfold select_ready. rewrite Hc. cbn [orb]. rewrite E. cbn.
  eexists _, remote, line. split; [exact Hr|]. split; [reflexivity|]. cbn.
  split; [|reflexivity].
  apply list_lookup_insert_eq. eapply lookup_lt_Some, Hi.
Qed.

(** A session is started with the value [masterStopChan] has then. *)
Lemma go_starts env sys sys' :
  sys_step env LGo sys = Some sys' ->
  exists local remoteAddr,
    sessions sys' = (sessions sys ++ [Dialing local remoteAddr (masterStopChan (shared sys))])%list.
Proof.
  cbn [sys_step]. destruct (main_at sys) as [|local remoteAddr]; [discriminate|].
  destruct (main_go local remoteAddr env (shared sys)) as [[c| |] st'] eqn:E; cbn;
    try discriminate.
  destruct (go_heap _ _ _ _ _ _ E) as (_ & _ & ->). intros [= <-]. cbn. eauto.
Qed.

(** X17.  The goroutines run together, from the state in which [main]
    enters its loop; the steps of [update_master] and of [main] are the
    statements of their turns, in the order of the program.  Every poll of
    the run fails or finds an address: none returns the nil address without
    an error.  Then the closes of [masterStopChan] made so far, with the
    one that [update_master] is about to make, are as many as the changes
    in the sequence of the addresses found; the close does not panic; each
    close is followed by one new channel, which is open and none of the
    earlier ones.  A session is started with the channel that is current
    then.  The channel of a session is closed exactly when [update_master]
    has closed it: an open one is closed by the next close of
    [update_master] and by no other step, and after a close the channels of
    all the sessions there are closed.  The channels made later are never
    the one a session holds.  A session in its [select] whose channel is
    closed leaves the [select] and closes its two connections, the one to
    the master and the one of the client. *)
Theorem generation_signal_broadcast env listener st0 labels sys :
  chans st0 !! masterStopChan st0 = Some false ->
  sys_run env labels (system_of listener st0) = Some sys ->
  Forall failed_or_found (polls_of labels) ->
  (forall polled st,
     update_master_step polled env st
     = (r ← update_master_compare polled;
        match r with
        | Failed => mret tt
        | Same => update_master_sleep
        | Changed => update_master_close;; update_master_make;; update_master_sleep
        end) env st)
  /\ (forall st,
        main_iter listener env st
        = (local ← main_accept listener;
           match local with
           | None => mret tt
           | Some local => st ← get; main_go local (masterAddr st);; mret tt
           end) env st)
  /\ (closes_of labels + pending (tracker sys))%nat
     = changes (net.TCPAddr_String (masterAddr st0)) (discovered (polls_of labels))
  /\ (makes_of labels + unmade (tracker sys))%nat = closes_of labels
  /\ (tracker sys = AtClose -> exists sys', sys_step env LClose sys = Some sys')
  /\ (forall sys', sys_step env LMake sys = Some sys' ->
        ~ In (masterStopChan (shared sys')) (epochs sys)
        /\ chans (shared sys') !! masterStopChan (shared sys') = Some false)
  /\ (forall sys', sys_step env LGo sys = Some sys' ->
        exists local remoteAddr,
          sessions sys'
          = (sessions sys ++ [Dialing local remoteAddr (masterStopChan (shared sys))])%list)
  /\ forall i p c,
       sessions sys !! i = Some p -> stop_of p = Some c ->
       (closed c (shared sys) = true <-> c <> masterStopChan (shared sys) \/ tracker sys = AtMake)
       /\ (forall l sys', closed c (shared sys) = false -> sys_step env l sys = Some sys' ->
             (closed c (shared sys') = true <-> l = LClose))
       /\ (forall sys', sys_step env LClose sys = Some sys' -> closed c (shared sys') = true)
       /\ (forall sys', sys_step env LMake sys = Some sys' -> masterStopChan (shared sys') <> c)
       /\ (forall s, p = Selecting s -> closed c (shared sys) = true ->
             exists sys' remote line,
               sess_remote s = Some remote
               /\ sys_step env (LSelect i) sys = Some sys'
               /\ sessions sys' !! i = Some Returned
               /\ trace (shared sys')
                  = (trace (shared sys) ++ [EvLog InfoLevel line; EvConnClose remote;
                                            EvConnClose (sess_local s)])%list).
Proof.
  intros Hopen Hrun HF.
  pose proof (Inv_run _ _ _ _ (Inv_system_of listener st0 Hopen) Hrun) as I.
  split; [intros polled st; apply update_master_step_statements|].
  split; [intros st; apply main_iter_statements|].
  split; [exact (run_closes _ _ _ _ Hrun HF)|].
  split; [exact (proj1 (run_makes _ _ _ _ Hrun))|].
  split; [apply close_enabled, I|].
  split; [intros sys'; apply make_is_new, I|].
  split; [apply go_starts|].
  intros i p c Hi Hp.
  assert (Hin : In c (epochs sys)) by (eapply inv_stop; eauto using In_lookup).
  split; [apply session_closed; auto|].
  split; [intros l sys' Hc Hstep; eapply only_close_wakes; eauto|].
  split.
  { intros sys' Hstep.
    destruct (closed c (shared sys)) eqn:Hc.
    - pose proof (Inv_step _ _ _ _ I Hstep) as I'.
      destruct (sys_step_move _ _ _ _ Hstep) as (Hmove & He & _).
      destruct (He ltac:(discriminate)) as [Hm He'].
      apply session_closed; [exact I'|congruence|].
      right. inversion Hmove; [assumption|discriminate].
    - apply (only_close_wakes env LClose sys sys' c I Hin Hc Hstep). reflexivity. }
  split.
  { intros sys' Hstep Heq. destruct (make_is_new _ _ _ I Hstep) as [Hn _]. congruence. }
  intros s -> Hc. cbn in Hp. injection Hp as <-. apply select_returns; auto.
Qed.

Lemma generation_signal_broadcast_witness :
  chans Sample.started !! masterStopChan Sample.started = Some false
  /\ Forall failed_or_found (polls_of Sample.failover)
  /\ exists sys,
       sys_run Sample.env Sample.failover (system_of Sample.listener Sample.started) = Some sys
       /\ (closes_of Sample.failover + pending (tracker sys))%nat
          = changes (net.TCPAddr_String (masterAddr Sample.started))
              (discovered (polls_of Sample.failover))
       /\ (makes_of Sample.failover + unmade (tracker sys))%nat = closes_of Sample.failover.
Proof.
  assert (Ho : chans Sample.started !! masterStopChan Sample.started = Some false)
    by (vm_compute; reflexivity).
  assert (HF : Forall failed_or_found (polls_of Sample.failover))
    by (repeat constructor; discriminate).
  split; [exact Ho|]. split; [exact HF|].
  destruct (sys_run Sample.env Sample.failover (system_of Sample.listener Sample.started))
    as [sys|] eqn:E; [|vm_compute in E; discriminate].
  exists sys. split; [reflexivity|].
  destruct (generation_signal_broadcast _ _ _ _ _ Ho E HF) as (_ & _ & H1 & H2 & _).
  split; [exact H1|exact H2].
Defined.

(** * Further properties of the program *)

(** ** Texts *)

Lemma append_cons (c : ascii) (s t : string) : String c s ++ t = String c (s ++ t).
Proof. reflexivity. Qed.

Lemma append_nil_l (t : string) : EmptyString ++ t = t.
Proof. reflexivity. Qed.

Lemma append_nil_r (s : string) : s ++ EmptyString = s.
Proof. induction s as [|c s IH]; [reflexivity|]. rewrite append_cons, IH. reflexivity. Qed.

Lemma length_append (a b : string) :
  String.length (a ++ b) = (String.length a + String.length b)%nat.
Proof.
  induction a as [|c a IH]; [reflexivity|].
  rewrite append_cons. cbn [String.length]. rewrite IH. reflexivity.
Qed.

Lemma from_0 (s : string) : net.from 0 s = s.
Proof.
  unfold net.from. rewrite Nat.sub_0_r.
  induction s as [|c s IH]; [reflexivity|]. cbn [String.length substring]. rewrite IH. reflexivity.
Qed.

Lemma from_cons (n : nat) (c : ascii) (s : string) : net.from (S n) (String c s) = net.from n s.
Proof. reflexivity. Qed.

Lemma from_nil (n : nat) : net.from n EmptyString = EmptyString.
Proof. destruct n; reflexivity. Qed.

Lemma from_app (a b : string) : net.from (String.length a) (a ++ b) = b.
Proof.
  induction a as [|c a IH]; [apply from_0|].
  rewrite append_cons. cbn [String.length]. rewrite from_cons. exact IH.
Qed.

Lemma from_add (s : string) : forall n m, net.from (n + m) s = net.from n (net.from m s).
Proof.
  induction s as [|d s IH]; intros n m.
  - rewrite !from_nil. reflexivity.
  - destruct m as [|m].
    + rewrite Nat.add_0_r, from_0. reflexivity.
    + rewrite Nat.add_succ_r, !from_cons. apply IH.
Qed.

Lemma from_app_cons (a b : string) (c : ascii) :
  net.from (S (String.length a)) (a ++ String c b) = b.
Proof.
  change (S (String.length a)) with (1 + String.length a)%nat.
  rewrite from_add, from_app, from_cons. apply from_0.
Qed.

Lemma substring_app (a b : string) : substring 0 (String.length a) (a ++ b) = a.
Proof.
  induction a as [|c a IH].
  - cbn [String.length]. destruct (EmptyString ++ b); reflexivity.
  - rewrite append_cons. cbn [String.length substring]. rewrite IH. reflexivity.
Qed.

Lemma substring_all (s : string) : substring 0 (String.length s) s = s.
Proof. rewrite <- (append_nil_r s) at 2. apply substring_app. Qed.

Lemma prefix_app (a b : string) : String.prefix a (a ++ b) = true.
Proof. apply prefix_correct, substring_app. Qed.

Lemma IndexByte_app (a b : string) (c : ascii) :
  strings.IndexByte (a ++ b) c
  = match strings.IndexByte a c with
    | Some i => Some i
    | None => match strings.IndexByte b c with
              | Some i => Some (String.length a + i)%nat
              | None => None
              end
    end.
Proof.
  induction a as [|d a IH].
  - rewrite append_nil_l. cbn. destruct (strings.IndexByte b c); reflexivity.
  - rewrite append_cons. cbn [strings.IndexByte String.length]. rewrite IH.
    destruct (Ascii.eqb d c); [reflexivity|].
    destruct (strings.IndexByte a c); [reflexivity|].
    destruct (strings.IndexByte b c); reflexivity.
Qed.

Lemma IndexByte_from (s : string) (c : ascii) :
  strings.IndexByte s c = None -> forall n, strings.IndexByte (net.from n s) c = None.
Proof.
  induction s as [|d s IH]; intros H n.
  - rewrite from_nil. reflexivity.
  - destruct n as [|n]; [rewrite from_0; exact H|]. rewrite from_cons. apply IH.
    cbn in H. destruct (Ascii.eqb d c); [discriminate|].
    destruct (strings.IndexByte s c); [discriminate|reflexivity].
Qed.

Lemma IndexByte_from_le (s : string) (c : ascii) (j k : nat) :
  strings.IndexByte (net.from j s) c = None -> (j <= k)%nat ->
  strings.IndexByte (net.from k s) c = None.
Proof.
  intros H Hle. replace k with ((k - j) + j)%nat by lia. rewrite from_add.
  apply IndexByte_from, H.
Qed.

Lemma LastIndexByte_None (s : string) (c : ascii) :
  strings.LastIndexByte s c = None <-> strings.IndexByte s c = None.
Proof.
  induction s as [|d s IH]; [tauto|]. cbn.
  destruct (strings.LastIndexByte s c), (strings.IndexByte s c), (Ascii.eqb d c);
    split; intros H; try discriminate; try reflexivity;
    solve [ apply IH in H; discriminate
          | destruct IH as [IH1 IH2]; try (specialize (IH1 eq_refl));
            try (specialize (IH2 eq_refl)); discriminate ].
Qed.

Lemma LastIndexByte_app (a b : string) (c : ascii) :
  strings.LastIndexByte (a ++ b) c
  = match strings.LastIndexByte b c with
    | Some i => Some (String.length a + i)%nat
    | None => strings.LastIndexByte a c
    end.
Proof.
  induction a as [|d a IH].
  - rewrite append_nil_l. cbn. destruct (strings.LastIndexByte b c); reflexivity.
  - rewrite append_cons. cbn [strings.LastIndexByte String.length]. rewrite IH.
    destruct (strings.LastIndexByte b c); reflexivity.
Qed.

(** The index of the last [c] of a text is the length of what is before
    it, and there is no [c] after it. *)
Lemma LastIndexByte_split (s : string) (c : ascii) (i : nat) :
  strings.LastIndexByte s c = Some i ->
  exists a b, s = a ++ String c b /\ String.length a = i /\ strings.IndexByte b c = None.
Proof.
  revert i. induction s as [|d s IH]; intros i; cbn; [discriminate|].
  destruct (strings.LastIndexByte s c) as [j|] eqn:E.
  - intros [= <-]. destruct (IH j eq_refl) as (a & b & -> & Hl & Hn).
    exists (String d a), b. rewrite append_cons. cbn. rewrite Hl. repeat split. exact Hn.
  - destruct (Ascii.eqb_spec d c) as [->|Hne]; [|discriminate]. intros [= <-].
    exists EmptyString, s. repeat split. apply LastIndexByte_None, E.
Qed.

(** ** The log level *)

Lemma parseLogLevel_names (l : Level) : parseLogLevel (Level_String l) = l.
Proof. destruct l; reflexivity. Qed.

Lemma parseLogLevel_fallback (levelAsStr : string) :
  ~ In levelAsStr (map Level_String AllLevels) -> parseLogLevel levelAsStr = ErrorLevel.
Proof.
  unfold parseLogLevel. generalize AllLevels as levels.
  induction levels as [|l levels IH]; intros H; [reflexivity|].
  cbn [parseLogLevel_range]. destruct (String.eqb_spec (Level_String l) levelAsStr) as [He|_].
  - exfalso. apply H. left. exact He.
  - apply IH. intros Hin. apply H. right. exact Hin.
Qed.

(** X1.  [parseLogLevel] gives the level [l] exactly when [l] is the level
    named by the text, or when the text is the name of no level of
    [logrus.AllLevels] and [l] is the level of errors: every name gives its
    own level back, and any other text, the empty one included, gives
    [ErrorLevel]. *)
Theorem parseLogLevel_spec (levelAsStr : string) (l : Level) :
  parseLogLevel levelAsStr = l
  <-> Level_String l = levelAsStr
      \/ (l = ErrorLevel /\ ~ In levelAsStr (map Level_String AllLevels)).
Proof.
  split.
  - intros <-.
    destruct (List.in_dec String.string_dec levelAsStr (map Level_String AllLevels))
      as [Hin|Hn].
    + left. apply List.in_map_iff in Hin. destruct Hin as (l' & <- & _).
      rewrite parseLogLevel_names. reflexivity.
    + right. split; [apply parseLogLevel_fallback, Hn|exact Hn].
  - intros [<-|[-> Hn]]; [apply parseLogLevel_names|apply parseLogLevel_fallback, Hn].
Qed.

(** ** The addresses of the sentinels *)

(** The port that [net.SplitHostPort] gives has no colon and no bracket. *)
Lemma SplitHostPort_port (hostport host port : string) :
  net.SplitHostPort hostport = inl (host, port) ->
  strings.IndexByte port ":" = None /\ no_brackets port.
Proof.
  unfold net.SplitHostPort.
  destruct (strings.LastIndexByte hostport ":") as [i|] eqn:Hi; [|discriminate].
  destruct (LastIndexByte_split _ _ _ Hi) as (a & b & Hs & Hl & Hb).
  assert (Hport : net.from (S i) hostport = b) by (rewrite Hs, <- Hl; apply from_app_cons).
  assert (Hfin : forall h j k, (j <= S i)%nat -> (k <= S i)%nat ->
            match strings.IndexByte (net.from j hostport) "[" with
            | Some _ => inr (net.addrErr hostport "unexpected '[' in address")
            | None =>
                match strings.IndexByte (net.from k hostport) "]" with
                | Some _ => inr (net.addrErr hostport "unexpected ']' in address")
                | None => inl (h, net.from (S i) hostport)
                end
            end = inl (host, port) ->
            strings.IndexByte port ":" = None /\ no_brackets port).
  { intros h j k Hj Hk.
    destruct (strings.IndexByte (net.from j hostport) "[") eqn:E1; [discriminate|].
    destruct (strings.IndexByte (net.from k hostport) "]") eqn:E2; [discriminate|].
    intros [= _ <-]. split; [rewrite Hport; exact Hb|]. split.
    - eapply IndexByte_from_le; eauto.
    - eapply IndexByte_from_le; eauto. }
  destruct (String.get 0 hostport) as [c|] eqn:Hget.
  - destruct (Ascii.eqb_spec c "[") as [->|Hne].
    + destruct (strings.IndexByte hostport "]") as [end_|]; [|discriminate].
      destruct (Nat.eqb (S end_) (String.length hostport)); [discriminate|].
      destruct (Nat.eqb_spec (S end_) i) as [He|He].
      * apply Hfin; lia.
      * destruct (String.get (S end_) hostport) as [d|]; [|discriminate].
        destruct (Ascii.eqb_spec d ":") as [->|Hd]; [discriminate|].
        destruct d as [[] [] [] [] [] [] [] []]; discriminate.
    + assert (Hgo : forall X Y : (string * string) + error,
                match c with "["%char => X | _ => Y end = Y).
      { intros X Y. destruct c as [[] [] [] [] [] [] [] []]; try reflexivity. contradiction. }
      rewrite Hgo.
      destruct (strings.IndexByte (substring 0 i hostport) ":"); [discriminate|].
      apply Hfin; lia.
  - destruct (strings.IndexByte (substring 0 i hostport) ":"); [discriminate|].
    apply Hfin; lia.
Qed.

(** [net.SplitHostPort] undoes [net.JoinHostPort], also when the host has
    colons and was put between brackets. *)
Lemma SplitHostPort_JoinHostPort (host port : string) :
  no_brackets host -> strings.IndexByte port ":" = None -> no_brackets port ->
  net.SplitHostPort (net.JoinHostPort host port) = inl (host, port).
Proof.
  intros [Hh1 Hh2] Hp [Hp1 Hp2]. unfold net.JoinHostPort.
  destruct (strings.IndexByte host ":") as [n|] eqn:Hc.
  - (* the host has a colon and goes between brackets *)
    set (s := "[" ++ host ++ "]:" ++ port).
    assert (Hs1 : s = ("[" ++ host ++ "]") ++ String ":" port).
    { unfold s. rewrite !append_assoc. reflexivity. }
    assert (Hs2 : s = String "[" (host ++ String "]" (String ":" port))) by reflexivity.
    assert (Hlen : String.length ("[" ++ host ++ "]") = S (S (String.length host))).
    { rewrite append_cons, append_nil_l. cbn [String.length]. rewrite length_append. cbn. lia. }
    assert (Hi : strings.LastIndexByte s ":" = Some (S (S (String.length host)))).
    { rewrite Hs1, LastIndexByte_app. cbn [strings.LastIndexByte].
      apply LastIndexByte_None in Hp. rewrite Hp. cbn. rewrite Hlen. f_equal. lia. }
    assert (He : strings.IndexByte s "]" = Some (S (String.length host))).
    { rewrite Hs2. cbn [strings.IndexByte]. change (Ascii.eqb "[" "]") with false. cbn match.
      rewrite IndexByte_app, Hh2. cbn. f_equal. lia. }
    unfold net.SplitHostPort. rewrite Hi.
    change (String.get 0 s) with (Some "["%char). cbn match. rewrite He.
    assert (Hl : String.length s = (S (S (S (String.length host + String.length port))))).
    { rewrite Hs1, length_append, Hlen. cbn. lia. }
    rewrite Hl.
    destruct (Nat.eqb_spec (S (S (String.length host)))
                (S (S (S (String.length host + String.length port))))) as [Hx|_]; [lia|].
    rewrite Nat.eqb_refl.
    assert (H1 : net.from 1 s = host ++ String "]" (String ":" port))
      by (rewrite Hs2; apply from_0).
    assert (H2 : net.from (S (S (String.length host))) s = String ":" port).
    { rewrite Hs1, <- Hlen. apply from_app. }
    assert (H3 : net.from (S (S (S (String.length host)))) s = port).
    { rewrite Hs1, <- Hlen. apply from_app_cons. }
    rewrite H1, H2, H3, IndexByte_app, Hh1. cbn [strings.IndexByte].
    change (Ascii.eqb "]" "[") with false. change (Ascii.eqb ":" "[") with false.
    change (Ascii.eqb ":" "]") with false. cbn match. rewrite Hp1, Hp2.
    replace (S (String.length host) - 1)%nat with (String.length host) by lia.
    rewrite Hs2. cbn [substring]. rewrite substring_app. reflexivity.
  - (* the host has no colon *)
    set (s := host ++ ":" ++ port).
    assert (Hi : strings.LastIndexByte s ":" = Some (String.length host)).
    { unfold s. rewrite LastIndexByte_app. change (":" ++ port) with (String ":" port).
      cbn [strings.LastIndexByte]. apply LastIndexByte_None in Hp. rewrite Hp. cbn.
      f_equal. lia. }
    unfold net.SplitHostPort. rewrite Hi.
    assert (Hsub : substring 0 (String.length host) s = host) by apply substring_app.
    assert (Hport : net.from (S (String.length host)) s = port) by apply from_app_cons.
    assert (Hb1 : strings.IndexByte s "[" = None).
    { unfold s. rewrite IndexByte_app, Hh1. change (":" ++ port) with (String ":" port).
      cbn [strings.IndexByte]. change (Ascii.eqb ":" "[") with false. cbn match.
      rewrite Hp1. reflexivity. }
    assert (Hb2 : strings.IndexByte s "]" = None).
    { unfold s. rewrite IndexByte_app, Hh2. change (":" ++ port) with (String ":" port).
      cbn [strings.IndexByte]. change (Ascii.eqb ":" "]") with false. cbn match.
      rewrite Hp2. reflexivity. }
    rewrite Hsub, Hc, from_0, Hb1, Hb2, Hport.
    destruct (String.get 0 s) as [c|] eqn:Hg; [|reflexivity].
    destruct (Ascii.eqb_spec c "[") as [->|Hne].
    + exfalso. destruct s as [|d s']; [discriminate|]. cbn in Hg. injection Hg as ->.
      cbn in Hb1. discriminate.
    + destruct c as [[] [] [] [] [] [] [] []]; try reflexivity. contradiction.
Qed.

Section Sentinels.

Context (env : Env).

Lemma hostport_JoinHostPort (host port : string) :
  no_brackets host -> strings.IndexByte port ":" = None -> no_brackets port ->
  hostport (net.JoinHostPort host port) = inl (host, port).
Proof.
  intros Hh Hp Hb. unfold hostport.
  destruct (String.eqb_spec (net.JoinHostPort host port) EmptyString) as [He|_].
  - exfalso. apply (JoinHostPort_colon host port). rewrite He. reflexivity.
  - apply SplitHostPort_JoinHostPort; assumption.
Qed.

(** [net.ResolveTCPAddr] gives what the resolver answers at that moment,
    and leaves the trace and the globals as they are. *)
Lemma net_ResolveTCPAddr_now network address st :
  exists st', net_ResolveTCPAddr network address env st = (Done (resolve_now env st address), st')
    /\ trace st' = trace st /\ globals st' = globals st
    /\ (clock st <= clock st' <= S (clock st))%nat.
Proof.
  unfold net_ResolveTCPAddr, resolve_now.
  destruct (hostport address) as [[host port]|err]; mrun.
  - destruct (resolve_at (world env) (clock st) host port); msimpl;
      (eexists; split; [reflexivity|]; cbn; repeat split; lia).
  - eexists; split; [reflexivity|]; repeat split; lia.
Qed.

Lemma getSentinels_range_resolved port ips :
  strings.IndexByte port ":" = None -> no_brackets port -> Forall no_brackets ips ->
  forall acc st,
  exists st',
    getSentinels_range port ips acc env st
    = (Done (acc ++ resolved_at (world env) (clock st) port ips)%list, st')
    /\ clock st' = (clock st + length ips)%nat.
Proof.
  intros Hp Hb. induction 1 as [|ip ips Hip _ IH]; intros acc st.
  - exists st. cbn. rewrite app_nil_r, Nat.add_0_r. split; reflexivity.
  - cbn [getSentinels_range resolved_at]. unfold net_ResolveTCPAddr.
    rewrite (hostport_JoinHostPort ip port Hip Hp Hb). mrun.
    destruct (resolve_at (world env) (clock st) ip port) as [a|e]; mrun;
      match goal with |- context [getSentinels_range port ips ?acc' env ?s] =>
        destruct (IH acc' s) as (st' & E & Hc) end;
      exists st'; rewrite E, <- app_assoc; cbn in Hc |- *; (split; [reflexivity|lia]).
Qed.

(** X2.  When the sentinel address splits into host and port and the
    lookup of the host gives the addresses [ips], [getSentinels] asks the
    resolver for each of them with the port of the sentinel address, in the
    order of [ips]: the address it joins from an IP and the port splits back
    into that IP and that port, also for an IPv6 address, which goes
    between brackets.  The list returned holds the answers, nil where the
    resolver failed. *)
Theorem getSentinels_resolves_each_ip sentinelAddress st host port ips :
  net.SplitHostPort sentinelAddress = inl (host, port) ->
  LookupIP_at (world env) (clock st) host = inl ips ->
  Forall no_brackets ips ->
  exists st',
    getSentinels sentinelAddress env st
    = (Done (resolved_at (world env) (S (clock st)) port ips, None), st')
    /\ clock st' = (S (clock st) + length ips)%nat.
Proof.
  intros Hs Hl Hips. destruct (SplitHostPort_port _ _ _ Hs) as [Hp Hb].
  unfold getSentinels, net_LookupIP. rewrite Hs. mrun. rewrite Hl. mrun.
  match goal with |- context [getSentinels_range port ips [] env ?s] =>
    destruct (getSentinels_range_resolved port ips Hp Hb Hips [] s) as (st' & E & Hc) end.
  rewrite E. exists st'. split; [reflexivity|exact Hc].
Qed.

(** X3.  [getMasterAddr] returns an error only when the list of sentinels
    could not be had: the sentinel address does not split into host and
    port, in which case nothing at all is done, or the lookup of the host
    fails.  The address returned is nil, nothing is logged or dialled, and
    the message has the prefix of [getMasterAddr] before the one of
    [getSentinels]. *)
Theorem getMasterAddr_error sentinelAddress masterName st r e st' :
  getMasterAddr sentinelAddress masterName env st = (Done (r, Some e), st') ->
  r = None
  /\ trace st' = trace st
  /\ match net.SplitHostPort sentinelAddress with
     | inr e0 => e = "Can't lookup Sentinel: " ++ "Can't find Sentinel: " ++ e0 /\ st' = st
     | inl (host, _) =>
         exists e0, LookupIP_at (world env) (clock st) host = inr e0
                    /\ e = "Can't lookup Sentinel: " ++ "Can't lookup Sentinel: " ++ e0
     end.
Proof.
  intros H. destruct (net.SplitHostPort sentinelAddress) as [[host port]|e0] eqn:Hs.
  - destruct (LookupIP_at (world env) (clock st) host) as [ips|e0] eqn:Hl.
    + exfalso. destruct (getSentinels_spec env _ _ _ _ _ Hs Hl) as (l & st0 & evs & E & _).
      rewrite (getMasterAddr_unfold env _ masterName _ _ _ _ E) in H.
      destruct (getMasterAddr_range_spec env l st0) as (r' & st'' & evs' & E' & _).
      rewrite E' in H. discriminate.
    + revert H. unfold getMasterAddr, getSentinels, net_LookupIP. rewrite Hs. mrun.
      rewrite Hl. mrun. intros [= <- <- <-]. repeat split. eauto.
  - revert H. unfold getMasterAddr, getSentinels. rewrite Hs. mrun.
    intros [= <- <- <-]. repeat split.
Qed.

End Sentinels.

Lemma getSentinels_resolves_each_ip_witness :
  net.SplitHostPort "sentinel:26379" = inl ("sentinel", "26379")
  /\ LookupIP_at (world Sample.env_ipv6) (clock Sample.initial) "sentinel"
     = inl ["::1"; "10.0.0.6"]
  /\ Forall no_brackets ["::1"; "10.0.0.6"]
  /\ exists st',
       getSentinels "sentinel:26379" Sample.env_ipv6 Sample.initial
       = (Done ([Some (net.mkTCPAddr "::1" 26379 EmptyString);
                 Some (net.mkTCPAddr "10.0.0.6" 26379 EmptyString)], None), st')
       /\ clock st' = 3%nat.
Proof.
  assert (Hs : net.SplitHostPort "sentinel:26379" = inl ("sentinel", "26379")) by reflexivity.
  assert (Hl : LookupIP_at (world Sample.env_ipv6) (clock Sample.initial) "sentinel"
               = inl ["::1"; "10.0.0.6"]) by reflexivity.
  assert (Hb : Forall no_brackets ["::1"; "10.0.0.6"]) by (repeat constructor).
  split; [exact Hs|]. split; [exact Hl|]. split; [exact Hb|].
  exact (getSentinels_resolves_each_ip Sample.env_ipv6 _ _ _ _ _ Hs Hl Hb).
Defined.

Lemma getMasterAddr_error_witness :
  let st' := snd (getMasterAddr "redis:26379" "mymaster" Sample.env Sample.initial) in
  let e := "Can't lookup Sentinel: Can't lookup Sentinel: lookup redis: no such host" in
  getMasterAddr "redis:26379" "mymaster" Sample.env Sample.initial = (Done (None, Some e), st')
  /\ trace st' = trace Sample.initial.
Proof.
  intros st' e.
  assert (H : getMasterAddr "redis:26379" "mymaster" Sample.env Sample.initial
              = (Done (None, Some e), st')) by (vm_compute; reflexivity).
  split; [exact H|].
  exact (proj1 (proj2 (getMasterAddr_error Sample.env _ _ _ _ _ _ H))).
Defined.

(** ** The reply of a sentinel, decoded *)

Lemma Split_from_here (sep : string) (c : ascii) (s cur : string) :
  strings.Split_from sep (String c s) O cur
  = if String.prefix sep (String c s)
    then cur :: strings.Split_from sep s (String.length sep - 1) EmptyString
    else strings.Split_from sep s O (cur ++ String c EmptyString).
Proof. reflexivity. Qed.

Lemma Split_from_skip (sep : string) (c : ascii) (s cur : string) (k : nat) :
  strings.Split_from sep (String c s) (S k) cur = strings.Split_from sep s k cur.
Proof. reflexivity. Qed.

(** A part without a carriage return goes up to the next CRLF. *)
Lemma Split_from_part (a rest : string) : forall cur,
  no_CR a ->
  strings.Split_from CRLF (a ++ CRLF ++ rest) O cur
  = (cur ++ a) :: strings.Split_from CRLF rest O EmptyString.
Proof.
  unfold no_CR, CR. induction a as [|c a IH]; intros cur H.
  - rewrite append_nil_l, append_nil_r.
    pose proof (prefix_app CRLF rest) as Hp. revert Hp.
    change (CRLF ++ rest) with (String "013" (String "010" rest)). intros Hp.
    rewrite Split_from_here, Hp. change (String.length CRLF - 1)%nat with 1%nat.
    apply f_equal, Split_from_skip.
  - cbn in H. destruct (Ascii.eqb_spec c "013") as [|Hne]; [discriminate|].
    destruct (strings.IndexByte a "013") eqn:Ha; [discriminate|].
    rewrite append_cons, Split_from_here.
    assert (Hp : String.prefix CRLF (String c (a ++ CRLF ++ rest)) = false).
    { unfold CRLF. cbn [String.prefix]. destruct (ascii_dec "013" c); [congruence|reflexivity]. }
    rewrite Hp, IH by reflexivity. rewrite append_assoc. reflexivity.
Qed.

Lemma Split_reply (p0 p1 host p3 port tail : string) :
  Forall no_CR [p0; p1; host; p3; port] ->
  strings.Split
    (p0 ++ CRLF ++ p1 ++ CRLF ++ host ++ CRLF ++ p3 ++ CRLF ++ port ++ CRLF ++ tail) CRLF
  = (p0 :: p1 :: host :: p3 :: port :: strings.Split tail CRLF)%list.
Proof.
  intros H. repeat (apply List.Forall_cons_iff in H; destruct H as [? H]).
  unfold strings.Split. rewrite !Split_from_part by assumption. reflexivity.
Qed.

Lemma length_make_bytes n : String.length (make_bytes n) = n.
Proof. induction n as [|n IH]; [reflexivity|]. cbn. rewrite IH. reflexivity. Qed.

(** A reply that fits in the buffer is at the start of it. *)
Lemma fill_fits (n : nat) (data : string) :
  (String.length data <= n)%nat ->
  fill (make_bytes n) data
  = (data ++ net.from (String.length data) (make_bytes n), String.length data).
Proof.
  intros H. unfold fill. rewrite length_make_bytes, Nat.min_l by exact H.
  rewrite substring_all. reflexivity.
Qed.

Section Reply.

Context (env : Env).

(** X4.  A response made of five parts without a carriage return, each
    followed by CRLF, and of anything after them is decoded as the reply it
    is: the third part is the host and the fifth part is the port, and
    [getMasterAddrFromSentinelResponse] returns what
    [net.ResolveTCPAddr] returns for the host, a colon and the port. *)
Theorem getMasterAddrFromSentinelResponse_reply (p0 p1 host p3 port tail : string) st :
  Forall no_CR [p0; p1; host; p3; port] ->
  getMasterAddrFromSentinelResponse
    (p0 ++ CRLF ++ p1 ++ CRLF ++ host ++ CRLF ++ p3 ++ CRLF ++ port ++ CRLF ++ tail) env st
  = net_ResolveTCPAddr "tcp" (host ++ ":" ++ port) env st.
Proof.
  intros H. unfold getMasterAddrFromSentinelResponse. rewrite (Split_reply _ _ _ _ _ _ H).
  reflexivity.
Qed.

(** X5.  When the dial of a sentinel goes through and the sentinel sends a
    reply of five such parts that fits in the 256 bytes of the buffer,
    [getMasterAddrFromSentinel] returns what the resolver answers for the
    host and the port of the reply.  On the connection it writes the one
    request with the name of the master, reads once, and closes it. *)
Theorem getMasterAddrFromSentinel_reply s st c st1 (p0 p1 host p3 port : string) :
  net_DialTimeout "tcp" (net.TCPAddr_String s) DialTimeout env st = (Done (Some c, None), st1) ->
  read_at (world env) (clock st1) (RemoteAddr c)
  = inl (p0 ++ CRLF ++ p1 ++ CRLF ++ host ++ CRLF ++ p3 ++ CRLF ++ port ++ CRLF) ->
  (String.length (p0 ++ CRLF ++ p1 ++ CRLF ++ host ++ CRLF ++ p3 ++ CRLF ++ port ++ CRLF)
   <= 256)%nat ->
  Forall no_CR [p0; p1; host; p3; port] ->
  exists st',
    getMasterAddrFromSentinel s env st
    = (Done (resolve_now env (set_clock (S (clock st1)) st1) (host ++ ":" ++ port)), st')
    /\ trace st'
       = (trace st1 ++ [EvWrite c ("sentinel get-master-addr-by-name "
                                  ++ masterNameAsStr (flags env) ++ LF);
                        EvRead c; EvConnClose c])%list.
Proof.
  intros Hd Hr Hlen Hparts.
  unfold getMasterAddrFromSentinel. mrun. rewrite Hd. mrun.
  unfold conn_Write, conn_Read, conn_Close. mrun. rewrite Hr. mrun.
  rewrite (fill_fits 256 _ Hlen). mrun.
  set (tail := net.from _ (make_bytes 256)).
  match goal with |- context [getMasterAddrFromSentinelResponse ?b env ?s] =>
    replace b with (p0 ++ CRLF ++ p1 ++ CRLF ++ host ++ CRLF ++ p3 ++ CRLF ++ port ++ CRLF ++ tail)
      by (rewrite !append_assoc; reflexivity);
    rewrite (getMasterAddrFromSentinelResponse_reply p0 p1 host p3 port tail s Hparts);
    destruct (net_ResolveTCPAddr_now env "tcp" (host ++ ":" ++ port) s)
      as (st2 & E & Ht & _)
  end.
  rewrite E. eexists. split; [reflexivity|]. cbn. rewrite Ht. cbn.
  rewrite <- !app_assoc. reflexivity.
Qed.

End Reply.

Lemma getMasterAddrFromSentinelResponse_reply_witness :
  Forall no_CR ["*2"; "$8"; "10.0.0.1"; "$4"; "6379"]
  /\ getMasterAddrFromSentinelResponse
       ("*2" ++ CRLF ++ "$8" ++ CRLF ++ "10.0.0.1" ++ CRLF ++ "$4" ++ CRLF ++ "6379" ++ CRLF
        ++ make_bytes 225) Sample.env Sample.initial
     = net_ResolveTCPAddr "tcp" ("10.0.0.1" ++ ":" ++ "6379") Sample.env Sample.initial.
Proof.
  assert (H : Forall no_CR ["*2"; "$8"; "10.0.0.1"; "$4"; "6379"]) by (repeat constructor).
  split; [exact H|].
  exact (getMasterAddrFromSentinelResponse_reply Sample.env _ _ _ _ _ _ _ H).
Defined.

Lemma getMasterAddrFromSentinel_reply_witness :
  let s := Some (net.mkTCPAddr "10.0.0.6" 26379 EmptyString) in
  let c := mkConn 0 "10.0.0.6:26379" in
  let st1 := snd (net_DialTimeout "tcp" "10.0.0.6:26379" DialTimeout Sample.env Sample.initial) in
  net_DialTimeout "tcp" (net.TCPAddr_String s) DialTimeout Sample.env Sample.initial
  = (Done (Some c, None), st1)
  /\ exists st',
       getMasterAddrFromSentinel s Sample.env Sample.initial
       = (Done (Some Sample.master1, None), st')
       /\ trace st'
          = (trace st1 ++ [EvWrite c ("sentinel get-master-addr-by-name mymaster" ++ LF);
                           EvRead c; EvConnClose c])%list.
Proof.
  intros s c st1.
  assert (Hd : net_DialTimeout "tcp" (net.TCPAddr_String s) DialTimeout Sample.env Sample.initial
               = (Done (Some c, None), st1)) by (vm_compute; reflexivity).
  assert (Hr : read_at (world Sample.env) (clock st1) (RemoteAddr c)
               = inl ("*2" ++ CRLF ++ "$8" ++ CRLF ++ "10.0.0.1" ++ CRLF ++ "$4" ++ CRLF
                      ++ "6379" ++ CRLF)) by (vm_compute; reflexivity).
  assert (Hlen : (String.length ("*2" ++ CRLF ++ "$8" ++ CRLF ++ "10.0.0.1" ++ CRLF ++ "$4"
                                 ++ CRLF ++ "6379" ++ CRLF) <= 256)%nat)
    by (vm_compute; lia).
  assert (Hp : Forall no_CR ["*2"; "$8"; "10.0.0.1"; "$4"; "6379"]) by (repeat constructor).
  split; [exact Hd|].
  exact (getMasterAddrFromSentinel_reply Sample.env s _ c st1 _ _ _ _ _ Hd Hr Hlen Hp).
Defined.

(** ** The connections of a poll *)

Lemma dialled_app tr1 tr2 : dialled (tr1 ++ tr2) = (dialled tr1 ++ dialled tr2)%list.
Proof.
  induction tr1 as [|e tr1 IH]; [reflexivity|].
  destruct e as [| |? ? ? [c|]| | | | | | |]; cbn; rewrite ?IH; reflexivity.
Qed.

Lemma hung_up_app tr1 tr2 : hung_up (tr1 ++ tr2) = (hung_up tr1 ++ hung_up tr2)%list.
Proof.
  induction tr1 as [|e tr1 IH]; [reflexivity|].
  destruct e; cbn; rewrite ?IH; reflexivity.
Qed.

Lemma logs_dialled evs :
  Forall is_log evs -> forallb is_net evs = true /\ dialled evs = [] /\ hung_up evs = [].
Proof.
  induction 1 as [|e evs He _ (IH0 & IH1 & IH2)]; [repeat split|].
  destruct e; try contradiction. cbn. auto.
Qed.

Section Connections.

Context (env : Env).

Lemma response_trace response st :
  exists r st' evs,
    getMasterAddrFromSentinelResponse response env st = (Done r, st')
    /\ trace st' = (trace st ++ evs)%list /\ Forall is_log evs.
Proof.
  destruct (Nat.lt_ge_cases (length (strings.Split response CRLF)) 5) as [H|H].
  - rewrite (response_short env _ _ H). eexists _, _, _. split; [reflexivity|].
    split; [reflexivity|]. repeat constructor.
  - destruct (response_long env response st H) as (host & port & _ & _ & ->).
    destruct (net_ResolveTCPAddr_now env "tcp" (host ++ ":" ++ port) st) as (st' & E & Ht & _).
    eexists _, st', []. split; [exact E|]. rewrite app_nil_r. split; [exact Ht|constructor].
Qed.

Lemma net_DialTimeout_trace network address timeout st :
  0 <= timeout ->
  exists conn err st',
    net_DialTimeout network address timeout env st = (Done (conn, err), st')
    /\ trace st' = (trace st ++ [EvDial network address timeout conn])%list
    /\ (conn = None <-> err <> None).
Proof.
  intros Ht.
  destruct (net_DialTimeout_spec env network address timeout st Ht)
    as (conn & err & st' & E & Hs & Hx & _).
  exists conn, err, st'. split; [exact E|]. split; [apply Hx|].
  destruct Hs as [(c & -> & ->)|(e & -> & ->)]; split; congruence.
Qed.

(** [getMasterAddrFromSentinel] closes the connection it opens. *)
Lemma getMasterAddrFromSentinel_hangs_up s st :
  exists r st' evs,
    getMasterAddrFromSentinel s env st = (Done r, st')
    /\ trace st' = (trace st ++ evs)%list
    /\ forallb is_net evs = true /\ dialled evs = hung_up evs.
Proof.
  unfold getMasterAddrFromSentinel.
  destruct (net_DialTimeout_trace "tcp" (net.TCPAddr_String s) DialTimeout st DialTimeout_nonneg)
    as (conn & err & st1 & E & Ht & Hc).
  mrun. rewrite E. destruct err as [e|]; mrun.
  - assert (conn = None) as -> by (apply Hc; discriminate).
    eexists _, _, _. split; [reflexivity|]. split; [exact Ht|]. split; reflexivity.
  - destruct conn as [c|]; [|exfalso; apply (proj1 Hc); auto].
    unfold conn_Write, conn_Read, conn_Close. mrun.
    destruct (read_at (world env) (clock st1) (RemoteAddr c)) as [data|e]; mrun.
    + destruct (fill (make_bytes 256) data) as [b n]. mrun.
      match goal with |- context [getMasterAddrFromSentinelResponse b env ?s] =>
        destruct (response_trace b s) as (r & st2 & evs & E2 & Ht2 & Hl) end.
      rewrite E2. eexists _, _, _. split; [reflexivity|]. cbn. rewrite Ht2. cbn. rewrite Ht.
      split; [rewrite <- !app_assoc; reflexivity|].
      destruct (logs_dialled evs Hl) as (H0 & H1 & H2).
      cbn. rewrite forallb_app, dialled_app, hung_up_app, H0, H1, H2. split; reflexivity.
    + eexists _, _, _. split; [reflexivity|]. cbn. rewrite Ht.
      split; [rewrite <- !app_assoc; reflexivity|]. split; reflexivity.
Qed.

Lemma getMasterAddr_range_hangs_up sentinels : forall st,
  exists r st' evs,
    getMasterAddr_range sentinels env st = (Done r, st')
    /\ trace st' = (trace st ++ evs)%list
    /\ forallb is_net evs = true /\ dialled evs = hung_up evs.
Proof.
  induction sentinels as [|s rest IH]; intros st.
  - exists (None, None), st, []. rewrite app_nil_r. repeat split.
  - destruct (getMasterAddrFromSentinel_hangs_up s st)
      as ([cand e1] & st1 & evs1 & E1 & Ht1 & Hn1 & Hb1).
    destruct (net_DialTimeout_trace "tcp" (net.TCPAddr_String cand) DialTimeout
                (logged_sentinel_error e1 st1) DialTimeout_nonneg)
      as (conn & derr & st2 & E2 & Ht2 & Hc).
    rewrite (getMasterAddr_range_cons env _ _ _ _ _ _ _ _ _ E1 E2).
    assert (Hl : exists evsl, trace (logged_sentinel_error e1 st1) = (trace st1 ++ evsl)%list
                              /\ Forall is_log evsl).
    { destruct e1 as [e1|]; cbn.
      - eexists. split; [reflexivity|]. repeat constructor.
      - exists []. rewrite app_nil_r. split; [reflexivity|constructor]. }
    destruct Hl as (evsl & Htl & Hll). destruct (logs_dialled _ Hll) as (Hl0 & Hl1 & Hl2).
    destruct derr as [e|].
    + assert (conn = None) as -> by (apply Hc; discriminate).
      destruct (IH (logged_dial_error cand st2)) as (r & st' & evs & E & Ht & Hn & Hb).
      exists r, st'. eexists. split; [exact E|]. rewrite Ht. cbn. rewrite Ht2, Htl, Ht1.
      split; [rewrite <- !app_assoc; reflexivity|].
      rewrite !forallb_app, !dialled_app, !hung_up_app, Hn1, Hb1, Hl0, Hl1, Hl2, Hn, Hb.
      split; reflexivity.
    + destruct conn as [c|]; [|exfalso; apply (proj1 Hc); auto].
      unfold conn_Close. mrun. eexists _, _, _. split; [reflexivity|]. cbn.
      rewrite Ht2, Htl, Ht1. split; [rewrite <- !app_assoc; reflexivity|].
      rewrite !forallb_app, !dialled_app, !hung_up_app, Hn1, Hb1, Hl0, Hl1, Hl2.
      split; reflexivity.
Qed.

Lemma getSentinels_range_logs port ips : forall acc st,
  exists l st' evs,
    getSentinels_range port ips acc env st = (Done l, st')
    /\ trace st' = (trace st ++ evs)%list /\ Forall is_log evs.
Proof.
  induction ips as [|ip ips IH]; intros acc st.
  - exists acc, st, []. rewrite app_nil_r. repeat split. constructor.
  - cbn [getSentinels_range]. mrun.
    match goal with |- context [net_ResolveTCPAddr "tcp" ?a env ?s] =>
      destruct (net_ResolveTCPAddr_now env "tcp" a s) as (st1 & E & Ht & _); rewrite E end.
    destruct (resolve_now env _ _) as [entry [e|]]; mrun;
      match goal with |- context [getSentinels_range port ips ?acc' env ?s] =>
        destruct (IH acc' s) as (l & st' & evs & E' & Ht' & Hl) end;
      rewrite E'; eexists _, _, _; (split; [reflexivity|]); rewrite Ht'; cbn; rewrite Ht; cbn;
      (split; [rewrite <- !app_assoc; reflexivity|]); repeat constructor; exact Hl.
Qed.

Lemma getSentinels_logs sentinelAddress st :
  exists l err st' evs,
    getSentinels sentinelAddress env st = (Done (l, err), st')
    /\ trace st' = (trace st ++ evs)%list /\ Forall is_log evs.
Proof.
  unfold getSentinels, net_LookupIP.
  destruct (net.SplitHostPort sentinelAddress) as [[host port]|e]; mrun.
  - destruct (LookupIP_at (world env) (clock st) host) as [ips|e]; mrun.
    + match goal with |- context [getSentinels_range port ips [] env ?s] =>
        destruct (getSentinels_range_logs port ips [] s) as (l & st' & evs & E & Ht & Hl) end.
      rewrite E. eexists _, _, _, _. split; [reflexivity|]. split; [exact Ht|exact Hl].
    + eexists _, _, _, []. split; [reflexivity|]. cbn. rewrite app_nil_r.
      split; [reflexivity|constructor].
  - eexists _, _, _, []. split; [reflexivity|]. rewrite app_nil_r.
    split; [reflexivity|constructor].
Qed.

(** The whole of a poll. *)
Lemma getMasterAddr_events sentinelAddress masterName st :
  exists r st' evs,
    getMasterAddr sentinelAddress masterName env st = (Done r, st')
    /\ trace st' = (trace st ++ evs)%list
    /\ forallb is_net evs = true /\ dialled evs = hung_up evs.
Proof.
  destruct (getSentinels_logs sentinelAddress st) as (l & err & st0 & evs0 & E & Ht0 & Hl).
  destruct (logs_dialled _ Hl) as (H0 & H1 & H2).
  rewrite (getMasterAddr_unfold env _ masterName _ _ _ _ E). destruct err as [err|].
  - eexists _, _, _. split; [reflexivity|]. split; [exact Ht0|]. rewrite H0, H1, H2.
    split; reflexivity.
  - destruct (getMasterAddr_range_hangs_up l st0) as (r & st' & evs & E' & Ht & Hn & Hb).
    exists r, st'. eexists. split; [exact E'|]. rewrite Ht, Ht0.
    split; [rewrite <- app_assoc; reflexivity|].
    rewrite forallb_app, dialled_app, hung_up_app, H0, H1, H2, Hn, Hb. split; reflexivity.
Qed.

Lemma getMasterAddr_frame sentinelAddress masterName st :
  exists r st' evs,
    getMasterAddr sentinelAddress masterName env st = (Done r, st')
    /\ extends st st' evs
    /\ forallb is_net evs = true /\ dialled evs = hung_up evs.
Proof.
  destruct (getMasterAddr_events sentinelAddress masterName st)
    as (r & st' & evs & E & Ht & Hn & Hb).
  exists r, st', evs. split; [exact E|]. split; [|auto].
  destruct (getSentinels_done env sentinelAddress st) as (l & err & st0 & evs0 & E0 & Hx0).
  rewrite (getMasterAddr_unfold env _ masterName _ _ _ _ E0) in E.
  assert (Hx : exists evs', extends st st' evs').
  { destruct err as [err|].
    - injection E as <- <-. eauto.
    - destruct (getMasterAddr_range_spec env l st0) as (r' & st'' & evs' & E' & Hx' & _).
      rewrite E' in E. injection E as <- <-. eexists. eapply extends_trans; eauto. }
  destruct Hx as (evs' & Hx). pose proof Hx as (Ht' & Hrest).
  rewrite Ht in Ht'. apply app_inv_head in Ht'. subst evs'. exact Hx.
Qed.

(** X6.  When a poll returns, all it has done is to log, to dial, to
    write, to read and to close connections; every connection it opened, to
    a sentinel or to the master it checks, it has closed, in the order in
    which they were opened; and [masterAddr], [masterStopChan] and the
    channels are as they were.  (The read of the reply of a sentinel has no
    deadline in the program: a poll whose read never returns does not
    return, and nothing is said of it.) *)
Theorem getMasterAddr_hangs_up sentinelAddress masterName st r st' :
  getMasterAddr sentinelAddress masterName env st = (Done r, st') ->
  exists evs,
    trace st' = (trace st ++ evs)%list
    /\ forallb is_net evs = true
    /\ dialled evs = hung_up evs
    /\ masterAddr st' = masterAddr st
    /\ masterStopChan st' = masterStopChan st
    /\ chans st' = chans st.
Proof.
  intros H.
  destruct (getMasterAddr_frame sentinelAddress masterName st)
    as (r0 & st0 & evs & E & (Ht & Hg & _) & Hn & Hb).
  rewrite E in H. injection H as <- <-.
  inversion Hg as [[Ha Hc Hh Hl]]. exists evs. auto 10.
Qed.

End Connections.

Lemma getMasterAddr_hangs_up_witness :
  let st' := snd (getMasterAddr "sentinel:26379" "mymaster" Sample.env Sample.initial) in
  getMasterAddr "sentinel:26379" "mymaster" Sample.env Sample.initial
  = (Done (Some Sample.master1, None), st')
  /\ exists evs,
       trace st' = (trace Sample.initial ++ evs)%list
       /\ dialled evs = hung_up evs
       /\ chans st' = chans Sample.initial.
Proof.
  intros st'.
  assert (H : getMasterAddr "sentinel:26379" "mymaster" Sample.env Sample.initial
              = (Done (Some Sample.master1, None), st')) by (vm_compute; reflexivity).
  split; [exact H|].
  destruct (getMasterAddr_hangs_up Sample.env _ _ _ _ _ H) as (evs & Ht & _ & Hb & _ & _ & Hh).
  exists evs. auto.
Defined.

(** ** The turns of the tracker *)

Lemma makes_app tr1 tr2 : makes (tr1 ++ tr2) = (makes tr1 + makes tr2)%nat.
Proof.
  induction tr1 as [|e tr1 IH]; [reflexivity|].
  destruct e; cbn; rewrite ?IH; reflexivity.
Qed.

Lemma net_events evs :
  forallb is_net evs = true -> firings evs = O /\ makes evs = O /\ sleeps evs = [].
Proof.
  induction evs as [|e evs IH]; [repeat split|].
  destruct e; cbn; try discriminate; exact IH.
Qed.

Lemma last_cons {A} (l : list A) : forall x d, List.last (x :: l) d = List.last l x.
Proof.
  induction l as [|y l IH]; intros x d; [reflexivity|].
  change (List.last (x :: y :: l) d) with (List.last (y :: l) d).
  rewrite !IH. reflexivity.
Qed.

Section Turns.

Context (env : Env).

(** A turn of the loop after the poll, whatever the poll gave. *)
Lemma update_master_step_turn polled st :
  chans st !! masterStopChan st = Some false ->
  exists st',
    update_master_step polled env st = (Done tt, st')
    /\ chans st' !! masterStopChan st' = Some false
    /\ net.TCPAddr_String (masterAddr st')
       = List.last (printed [polled]) (net.TCPAddr_String (masterAddr st))
    /\ firings (trace st')
       = (firings (trace st) + flips (net.TCPAddr_String (masterAddr st)) (printed [polled]))%nat
    /\ makes (trace st')
       = (makes (trace st) + flips (net.TCPAddr_String (masterAddr st)) (printed [polled]))%nat.
Proof.
  intros Hopen. destruct polled as [pm [err|]].
  - rewrite update_master_step_error. eexists. split; [reflexivity|]. cbn.
    rewrite firings_app, makes_app. cbn. repeat split; auto; lia.
  - cbn [printed List.last flips].
    destruct (String.eqb_spec (net.TCPAddr_String pm) (net.TCPAddr_String (masterAddr st)))
      as [Heq|Hne].
    + rewrite (update_master_step_same env _ _ Heq). eexists. split; [reflexivity|]. cbn.
      rewrite firings_app, makes_app. cbn. repeat split; auto; lia.
    + destruct (update_master_step_changed env st pm Hne Hopen) as (st1 & E & Ha & Hc & Hh & Ht).
      destruct (update_master_step_changed_open env st pm st1 Hne Hopen E) as (Ho & _ & _ & Hf).
      exists st1. split; [exact E|]. split; [exact Ho|]. rewrite Ha. split; [reflexivity|].
      split; [rewrite Hf; lia|]. rewrite Ht, makes_app. cbn. lia.
Qed.

(** X7.  From a state in which the current channel is open, the loop of
    [update_master] goes through any number of turns: no poll and no turn
    panics or ends the process, and the current channel is open after each
    of them.  The channel is closed, and a new one is made, once for every
    poll without error whose result is printed differently from
    [masterAddr] as it is then, the nil result being printed as well; at
    the end [masterAddr] is printed as the result of the last poll without
    error. *)
Theorem update_master_turns n : forall st,
  chans st !! masterStopChan st = Some false ->
  exists st',
    update_master n env st = (Done tt, st')
    /\ length (polled n env st) = n
    /\ chans st' !! masterStopChan st' = Some false
    /\ net.TCPAddr_String (masterAddr st')
       = List.last (printed (polled n env st)) (net.TCPAddr_String (masterAddr st))
    /\ firings (trace st')
       = (firings (trace st)
          + flips (net.TCPAddr_String (masterAddr st)) (printed (polled n env st)))%nat
    /\ makes (trace st')
       = (makes (trace st)
          + flips (net.TCPAddr_String (masterAddr st)) (printed (polled n env st)))%nat.
Proof.
  induction n as [|n IH]; intros st Hopen.
  - exists st. cbn. repeat split; auto; lia.
  - cbn [update_master polled]. unfold update_master_iter. mrun.
    destruct (getMasterAddr_frame env (sentinelAddrAsStr (flags env))
                (masterNameAsStr (flags env)) st)
      as (r & st1 & evs & E & (Ht & Hg & _) & Hn & _).
    rewrite E. inversion Hg as [[Ha Hc Hh Hl]].
    destruct (net_events evs Hn) as (Hf0 & Hm0 & _).
    assert (Hopen1 : chans st1 !! masterStopChan st1 = Some false) by (rewrite Hh, Hc; exact Hopen).
    destruct (update_master_step_turn r st1 Hopen1) as (st2 & E2 & Ho2 & Hlast & Hf & Hm).
    rewrite E2. destruct (IH st2 Ho2) as (st' & E' & Hlen & Ho' & Hlast' & Hf' & Hm').
    exists st'. split; [exact E'|]. cbn [length]. split; [congruence|]. split; [exact Ho'|].
    rewrite Hlast', Hf', Hm', Hlast, Hf, Hm, Ha, Ht, firings_app, makes_app, Hf0, Hm0.
    destruct r as [pm [err|]]; cbn [printed flips].
    + cbn [List.last]. repeat split; lia.
    + rewrite !last_cons. cbn [List.last].
      destruct (String.eqb _ _); repeat split; lia.
Qed.

(** X8.  A turn of the loop of [update_master] ends with one sleep, and
    has no other: of one second when the poll failed or when no master is
    known after the turn, of 250ms when a master is known. *)
Theorem update_master_step_sleeps polled st :
  chans st !! masterStopChan st = Some false ->
  exists st' evs d,
    update_master_step polled env st = (Done tt, st')
    /\ trace st' = (trace st ++ evs ++ [EvSleep d])%list
    /\ sleeps evs = []
    /\ now st' = now st + d
    /\ d = match snd polled, masterAddr st' with
           | None, Some _ => 250 * Millisecond
           | _, _ => 1 * Second
           end.
Proof.
  intros Hopen. destruct polled as [pm [err|]].
  - rewrite update_master_step_error. eexists _, [_], _. split; [reflexivity|].
    cbn. repeat split.
  - destruct (String.eqb_spec (net.TCPAddr_String pm) (net.TCPAddr_String (masterAddr st)))
      as [Heq|Hne].
    + rewrite (update_master_step_same env _ _ Heq). eexists _, [], _. split; [reflexivity|].
      cbn. repeat split.
    + unfold update_master_step. mrun.
      destruct (String.eqb_spec (net.TCPAddr_String pm) (net.TCPAddr_String (masterAddr st)))
        as [Heq|_]; [contradiction|].
      mrun. unfold close_chan, make_chan. mrun. rewrite Hopen. mrun.
      destruct pm; mrun; eexists _, [_; _; _], _; (split; [reflexivity|]); cbn;
        rewrite <- !app_assoc; repeat split.
Qed.

End Turns.

Lemma update_master_turns_witness :
  chans Sample.started !! masterStopChan Sample.started = Some false
  /\ exists st',
       update_master 3 Sample.env_outage Sample.started = (Done tt, st')
       /\ length (polled 3 Sample.env_outage Sample.started) = 3%nat
       /\ chans st' !! masterStopChan st' = Some false
       /\ firings (trace st') = (firings (trace Sample.started) + 3)%nat.
Proof.
  assert (Ho : chans Sample.started !! masterStopChan Sample.started = Some false)
    by (vm_compute; reflexivity).
  split; [exact Ho|].
  destruct (update_master_turns Sample.env_outage 3 Sample.started Ho)
    as (st' & E & Hlen & Ho' & _ & Hf & _).
  exists st'. split; [exact E|]. split; [exact Hlen|]. split; [exact Ho'|].
  rewrite Hf. f_equal.
Defined.

Lemma update_master_step_sleeps_witness :
  chans Sample.running !! masterStopChan Sample.running = Some false
  /\ exists st' evs,
       update_master_step (Some Sample.master2, None) Sample.env Sample.running = (Done tt, st')
       /\ trace st' = (trace Sample.running ++ evs ++ [EvSleep (250 * Millisecond)])%list
       /\ sleeps evs = [].
Proof.
  assert (Ho : chans Sample.running !! masterStopChan Sample.running = Some false)
    by (vm_compute; reflexivity).
  split; [exact Ho|].
  destruct (update_master_step_sleeps Sample.env (Some Sample.master2, None) Sample.running Ho)
    as (st' & evs & d & E & Ht & Hs & _ & Hd).
  exists st', evs. split; [exact E|]. split; [|exact Hs].
  rewrite Ht, Hd. revert E. vm_compute. intros [= <-]. reflexivity.
Defined.

(** ** The life of a session *)

Section Sessions_life.

Context (env : Env).

(** X9.  When the dial of the master goes through, [proxy] makes two
    channels that were not there before, one for each direction, starts the
    two pipes, from the client to the master with [remoteChan] and from the
    master to the client with [localChan], and gets to its [select], which
    is ready only if the channel it was given for the changes of the master
    is closed already. *)
Theorem proxy_established local remoteAddr c st remote st1 :
  net_DialTimeout "tcp4" (net.TCPAddr_String remoteAddr) ProxyDialTimeout env st
  = (Done (Some remote, None), st1) ->
  let localChan := fresh (dom (chans st1)) in
  let remoteChan := fresh (dom (<[localChan := false]> (chans st1))) in
  let s := mkSession local (Some remote) remoteAddr c localChan remoteChan in
  exists st',
    proxy local remoteAddr c env st = (Done (Some s), st')
    /\ trace st' = (trace st1 ++ [EvChanMake localChan; EvChanMake remoteChan;
                                 EvGo (TaskPipe local remote remoteChan);
                                 EvGo (TaskPipe remote local localChan)])%list
    /\ chans st' = <[remoteChan := false]> (<[localChan := false]> (chans st1))
    /\ chans st1 !! localChan = None
    /\ chans st1 !! remoteChan = None
    /\ localChan <> remoteChan
    /\ select_ready s st' = closed c st1.
Proof.
  intros E localChan remoteChan s.
  pose proof (fresh_lookup (chans st1)) as H1.
  pose proof (fresh_lookup (<[localChan := false]> (chans st1))) as H2.
  fold localChan in H1. fold remoteChan in H2.
  assert (Hne : localChan <> remoteChan).
  { intros Heq. rewrite <- Heq, lookup_insert_eq in H2. discriminate. }
  assert (H2' : chans st1 !! remoteChan = None).
  { rewrite lookup_insert_ne in H2 by exact Hne. exact H2. }
  unfold proxy. mrun. rewrite E. mrun. unfold make_chan. mrun.
  eexists. split; [reflexivity|]. cbn. rewrite <- !app_assoc.
  split; [reflexivity|]. split; [reflexivity|]. split; [exact H1|]. split; [exact H2'|].
  split; [exact Hne|].
  unfold select_ready, closed, s. cbn. fold localChan. fold remoteChan.
  rewrite lookup_insert_eq, (lookup_insert_ne _ remoteChan localChan), lookup_insert_eq
    by congruence.
  rewrite !orb_false_r.
  destruct (decide (c = remoteChan)) as [->|Hc2].
  { rewrite lookup_insert_eq, H2'. reflexivity. }
  rewrite lookup_insert_ne by congruence.
  destruct (decide (c = localChan)) as [->|Hc1].
  { rewrite lookup_insert_eq, H1. reflexivity. }
  rewrite lookup_insert_ne by congruence. reflexivity.
Qed.

(** X10.  When [io.Copy] returns in one of the two pipes of a session,
    with or without an error, the pipe logs the end of the stream, at the
    level of errors if there is one, and closes its channel; the [select]
    of the session is ready then, and the session logs and closes its
    two connections, the one to the master first. *)
Theorem pipe_ends_session (s : Session) remote (to_master : bool) copied st :
  sess_remote s = Some remote ->
  let ch := if to_master then sess_remoteChan s else sess_localChan s in
  let p := if to_master then pipe (sess_local s) remote ch copied
           else pipe remote (sess_local s) ch copied in
  chans st !! ch = Some false ->
  exists st1 st' level line line',
    p env st = (Done tt, st1)
    /\ select_ready s st1 = true
    /\ proxy_return s env st1 = (Done tt, st')
    /\ trace st' = (trace st ++ [EvLog level line; EvChanClose ch; EvLog InfoLevel line';
                                EvConnClose remote; EvConnClose (sess_local s)])%list
    /\ level = match snd copied with
               | Some _ => ErrorLevel
               | None => InfoLevel
               end.
Proof.
  intros Hr ch p Hopen.
  assert (Hp : forall r w, exists st1 level line,
             pipe r w ch copied env st = (Done tt, st1)
             /\ chans st1 = <[ch := true]> (chans st)
             /\ trace st1 = (trace st ++ [EvLog level line; EvChanClose ch])%list
             /\ level = match snd copied with Some _ => ErrorLevel | None => InfoLevel end).
  { intros r w. unfold pipe, close_chan. destruct copied as [bytes [err|]]; mrun;
      rewrite Hopen; mrun; eexists _, _, _; (split; [reflexivity|]); cbn;
      rewrite <- !app_assoc; repeat split. }
  assert (Hp' : exists st1 level line,
             p env st = (Done tt, st1)
             /\ chans st1 = <[ch := true]> (chans st)
             /\ trace st1 = (trace st ++ [EvLog level line; EvChanClose ch])%list
             /\ level = match snd copied with Some _ => ErrorLevel | None => InfoLevel end).
  { unfold p. destruct to_master; apply Hp. }
  destruct Hp' as (st1 & level & line & E1 & Hc & Ht & Hl).
  destruct (proxy_return_closes env s remote st1 Hr) as (line' & E2).
  exists st1. eexists. exists level, line, line'. split; [exact E1|].
  split.
  { unfold select_ready, closed. rewrite Hc. unfold ch. destruct to_master.
    - rewrite (lookup_insert_eq _ (sess_remoteChan s)). apply orb_true_r.
    - rewrite (lookup_insert_eq _ (sess_localChan s)). rewrite orb_true_r. reflexivity. }
  split; [exact E2|]. cbn. rewrite Ht, <- app_assoc. split; [reflexivity|exact Hl].
Qed.

End Sessions_life.

Lemma proxy_established_witness :
  let st1 := snd (net_DialTimeout "tcp4" "10.0.0.1:6379" ProxyDialTimeout Sample.env
                    Sample.running) in
  net_DialTimeout "tcp4" (net.TCPAddr_String (Some Sample.master1)) ProxyDialTimeout Sample.env
    Sample.running
  = (Done (Some Sample.to_master, None), st1)
  /\ exists st',
       proxy Sample.client (Some Sample.master1) 0%nat Sample.env Sample.running
       = (Done (Some Sample.session), st')
       /\ select_ready Sample.session st' = closed 0%nat st1.
Proof.
  intros st1.
  assert (Hd : net_DialTimeout "tcp4" (net.TCPAddr_String (Some Sample.master1)) ProxyDialTimeout
                 Sample.env Sample.running
               = (Done (Some Sample.to_master, None), st1)) by (vm_compute; reflexivity).
  split; [exact Hd|].
  destruct (proxy_established Sample.env Sample.client _ 0%nat _ _ _ Hd)
    as (st' & E & _ & _ & _ & _ & _ & Hr).
  exists st'. split; [exact E|exact Hr].
Defined.

Lemma pipe_ends_session_witness :
  sess_remote Sample.session = Some Sample.to_master
  /\ chans Sample.serving !! sess_localChan Sample.session = Some false
  /\ exists st1 st',
       pipe Sample.to_master Sample.client 1%nat (42, None) Sample.env Sample.serving
       = (Done tt, st1)
       /\ select_ready Sample.session st1 = true
       /\ proxy_return Sample.session Sample.env st1 = (Done tt, st').
Proof.
  assert (Hr : sess_remote Sample.session = Some Sample.to_master) by reflexivity.
  assert (Ho : chans Sample.serving !! sess_localChan Sample.session = Some false)
    by (vm_compute; reflexivity).
  split; [exact Hr|]. split; [exact Ho|].
  destruct (pipe_ends_session Sample.env Sample.session _ false (42, None) Sample.serving Hr Ho)
    as (st1 & st' & level & line & line' & E1 & Hs & E2 & _).
  exists st1, st'. split; [exact E1|]. split; [exact Hs|exact E2].
Defined.

(** ** The loop of [main] *)

Section Serving.

Context (env : Env).

Lemma M_bind_Done {A B} (k : A -> M B) (m : M A) st b st' :
  mbind k m env st = (Done b, st') ->
  exists a st1, m env st = (Done a, st1) /\ k a env st1 = (Done b, st').
Proof.
  unfold mbind, M_bind. destruct (m env st) as [[a|c|p] st1]; try discriminate. eauto.
Qed.

Lemma main_iter_turn listener st :
  exists st' e,
    main_iter (Some listener) env st = (Done tt, st')
    /\ trace st' = (trace st ++ [e])%list
    /\ accept_event st e
    /\ globals st' = globals st.
Proof.
  unfold main_iter, AcceptTCP. mrun.
  destruct (accept_at (world env) (clock st)) as [peer|err]; mrun;
    eexists _, _; (split; [reflexivity|]); cbn; repeat split.
Qed.

Lemma main_loop_turns listener n : forall st,
  exists st' evs,
    main_loop (Some listener) n env st = (Done tt, st')
    /\ trace st' = (trace st ++ evs)%list
    /\ length evs = n
    /\ Forall (accept_event st) evs
    /\ globals st' = globals st.
Proof.
  induction n as [|n IH]; intros st.
  - exists st, []. rewrite app_nil_r. repeat split. constructor.
  - cbn [main_loop]. unfold mbind at 1, M_bind at 1.
    destruct (main_iter_turn listener st) as (st1 & e & E & Ht & He & Hg). rewrite E.
    destruct (IH st1) as (st' & evs & E' & Ht' & Hlen & HF & Hg').
    exists st', (e :: evs). split; [exact E'|]. rewrite Ht', Ht, <- app_assoc.
    split; [reflexivity|]. split; [cbn; lia|]. split; [|congruence].
    constructor; [exact He|]. inversion Hg as [[Ha Hc Hh Hl]].
    eapply List.Forall_impl; [|exact HF]. intros e'. unfold accept_event.
    rewrite Ha, Hc. auto.
Qed.

(** [getLocalListener] gives a listener or ends the process. *)
Lemma getLocalListener_Done st l st' :
  getLocalListener env st = (Done l, st') -> is_Some l.
Proof.
  unfold getLocalListener, net_ListenTCP. mrun.
  destruct (net_ResolveTCPAddr_now env "tcp" (localAddrAsStr (flags env)) st)
    as (st1 & E & _). rewrite E.
  destruct (resolve_now env st (localAddrAsStr (flags env))) as [laddr err]. mrun.
  destruct (listen_at (world env) (clock st1) laddr); mrun; [discriminate|].
  intros [= <- _]. eauto.
Qed.

(** X15.  [getLocalListener] resolves the address to listen on for itself
    and does not look at the error of that resolution: it binds the address
    the resolution gave, the nil address when it failed.  It returns a
    listener for that address, never nil, or logs the error of the bind at
    the fatal level and ends the process with status 1. *)
Theorem getLocalListener_binds st :
  let laddr := fst (resolve_now env st (localAddrAsStr (flags env))) in
  exists st1,
    net_ResolveTCPAddr "tcp" (localAddrAsStr (flags env)) env st
    = (Done (resolve_now env st (localAddrAsStr (flags env))), st1)
    /\ match listen_at (world env) (clock st1) laddr with
       | None =>
           exists st',
             getLocalListener env st = (Done (Some (mkListener laddr)), st')
             /\ trace st' = (trace st ++ [EvListen laddr true])%list
       | Some err =>
           exists st',
             getLocalListener env st = (Exit 1, st')
             /\ trace st' = (trace st ++ [EvListen laddr false; EvLog FatalLevel err])%list
       end.
Proof.
  intros laddr.
  destruct (net_ResolveTCPAddr_now env "tcp" (localAddrAsStr (flags env)) st)
    as (st1 & E & Ht & _).
  exists st1. split; [exact E|].
  unfold getLocalListener, net_ListenTCP. mrun. rewrite E. unfold laddr.
  destruct (resolve_now env st (localAddrAsStr (flags env))) as [a err]. mrun.
  destruct (listen_at (world env) (clock st1) a) as [e|]; mrun;
    (eexists; split; [reflexivity|]); cbn; rewrite Ht, <- ?app_assoc; reflexivity.
Qed.

Lemma main_startup_Done st l st1 :
  main_startup env st = (Done l, st1) -> is_Some l.
Proof.
  unfold main_startup. intros H.
  do 6 (apply M_bind_Done in H; destruct H as (? & ? & _ & H)).
  eapply getLocalListener_Done, H.
Qed.

(** X11.  When [main] gets to its loop, the listener is not nil, and the
    loop goes through any number of turns without a panic and without
    ending the process.  A turn adds one action: the entry of the log for
    an accept that failed, or the start of one session with the values of
    [masterAddr] and [masterStopChan]; the loop itself changes neither of
    them, nor the channels. *)
Theorem main_serves st l st1 n :
  main_startup env st = (Done l, st1) ->
  exists st' evs,
    main_loop l n env st1 = (Done tt, st')
    /\ trace st' = (trace st1 ++ evs)%list
    /\ length evs = n
    /\ Forall (accept_event st1) evs
    /\ globals st' = globals st1.
Proof.
  intros H. destruct (main_startup_Done _ _ _ H) as [listener ->].
  apply main_loop_turns.
Qed.

End Serving.

Lemma main_serves_witness :
  main_startup Sample.env Sample.initial = (Done Sample.listener, Sample.started)
  /\ exists st' evs,
       main_loop Sample.listener 2 Sample.env Sample.started = (Done tt, st')
       /\ trace st' = (trace Sample.started ++ evs)%list
       /\ length evs = 2%nat
       /\ Forall (accept_event Sample.started) evs.
Proof.
  assert (H : main_startup Sample.env Sample.initial = (Done Sample.listener, Sample.started))
    by (vm_compute; reflexivity).
  split; [exact H|].
  destruct (main_serves Sample.env _ _ _ 2 H) as (st' & evs & E & Ht & Hl & HF & _).
  exists st', evs. auto.
Defined.

(** ** The goroutines together: what never happens *)

Section Goroutines.

Context (env : Env).

Lemma closed_heap c st st' : chans st' = chans st -> closed c st' = closed c st.
Proof. unfold closed. intros ->. reflexivity. Qed.

Lemma closed_insert_other c c' b st st' :
  chans st' = <[c' := b]> (chans st) -> c <> c' -> closed c st' = closed c st.
Proof. unfold closed. intros -> Hne. rewrite lookup_insert_ne by congruence. reflexivity. Qed.

Lemma sys_step_listener l sys sys' :
  sys_step env l sys = Some sys' -> listener_of sys' = listener_of sys.
Proof.
  unfold sys_step. intros H.
  repeat match type of H with
         | match ?x with _ => _ end = Some _ => destruct x eqn:?; try discriminate
         | (if ?x then _ else _) = Some _ => destruct x eqn:?; try discriminate
         end;
    injection H as <-; reflexivity.
Qed.

Lemma run_listener labels : forall sys sys',
  sys_run env labels sys = Some sys' -> listener_of sys' = listener_of sys.
Proof.
  induction labels as [|l labels IH]; cbn; intros sys sys' H.
  - injection H as <-. reflexivity.
  - destruct (sys_step env l sys) as [sys1|] eqn:E; [|discriminate].
    rewrite (IH _ _ H). eapply sys_step_listener, E.
Qed.

(** No statement panics or ends the process, in a state where the channels
    are as they should. *)
Lemma Inv_goes sys listener :
  Inv sys -> listener_of sys = Some listener ->
  tracker_goes env sys /\ main_goes env sys
  /\ forall i p, sessions sys !! i = Some p -> session_goes env sys i p.
Proof.
  intros I Hl. split; [|split].
  - unfold tracker_goes. pose proof (inv_open _ I) as Ho.
    destruct (tracker sys) eqn:Ht; cbn in Ho.
    + intros polled. cbn [sys_step]. rewrite Ht.
      destruct polled as [pm [err|]]; unfold update_master_compare, update_master_sleep; mrun;
        [eauto|]. destruct (negb _); mrun; eauto.
    + destruct (close_enabled env sys I Ht) as (sys' & ->). eauto.
    + cbn [sys_step]. rewrite Ht.
      unfold update_master_make, update_master_sleep, make_chan. mrun. eauto.
  - unfold main_goes. destruct (main_at sys) as [|local remoteAddr] eqn:Hm.
    + cbn [sys_step]. rewrite Hm, Hl. unfold main_accept, AcceptTCP. mrun.
      destruct (accept_at (world env) (clock (shared sys))); mrun; eauto.
    + cbn [sys_step]. rewrite Hm. unfold main_go. mrun. eauto.
  - intros i p Hi. destruct p as [local remoteAddr c|s|]; cbn [session_goes]; [| |exact Logic.I].
    + cbn [sys_step]. rewrite Hi. unfold proxy.
      destruct (net_DialTimeout_trace env "tcp4" (net.TCPAddr_String remoteAddr) ProxyDialTimeout
                  (shared sys) ProxyDialTimeout_nonneg) as (conn & err & st1 & E & _ & Hc).
      mrun. rewrite E. destruct err as [err|]; mrun.
      * unfold conn_Close. mrun. eauto.
      * destruct conn as [remote|]; [|exfalso; apply (proj1 Hc); auto].
        unfold make_chan. mrun. eauto.
    + destruct (inv_pipes _ I s (In_lookup _ _ _ Hi)) as ([remote Hr] & [b1 H1] & [b2 H2] & _).
      assert (Hpipe : forall r w ch copied, chans (shared sys) !! ch = Some false ->
                        exists st', pipe r w ch copied env (shared sys) = (Done tt, st')).
      { intros r w ch [bytes [err|]] Hopen; unfold pipe, close_chan; mrun; rewrite Hopen;
          mrun; eauto. }
      split; [|split].
      * intros copied Hc. unfold closed in Hc. rewrite H1 in Hc. destruct b1; [discriminate|].
        cbn [sys_step]. rewrite Hi, Hr.
        destruct (Hpipe remote (sess_local s) (sess_localChan s) copied H1) as (st' & ->).
        cbn. eauto.
      * intros copied Hc. unfold closed in Hc. rewrite H2 in Hc. destruct b2; [discriminate|].
        cbn [sys_step]. rewrite Hi, Hr.
        destruct (Hpipe (sess_local s) remote (sess_remoteChan s) copied H2) as (st' & ->).
        cbn. eauto.
      * intros Hready. cbn [sys_step]. rewrite Hi, Hready.
        destruct (proxy_return_closes env s remote (shared sys) Hr) as (line & ->). cbn. eauto.
Qed.

(** X12.  However the statements of [update_master], of [main] and of the
    sessions follow one another once [main] is in its loop, the statement
    each goroutine is at returns: the poll is compared, the close of the
    channel finds it open, the accept has its listener, the dial of a
    session ends, a pipe that has not ended yet closes a channel that is
    open, and a [select] that is ready is left.  No step of a run is a
    panic or the end of the process. *)
Theorem no_goroutine_stops listener st0 labels sys :
  chans st0 !! masterStopChan st0 = Some false ->
  sys_run env labels (system_of (Some listener) st0) = Some sys ->
  tracker_goes env sys /\ main_goes env sys
  /\ forall i p, sessions sys !! i = Some p -> session_goes env sys i p.
Proof.
  intros Hopen Hrun.
  pose proof (Inv_run _ _ _ _ (Inv_system_of (Some listener) st0 Hopen) Hrun) as I.
  pose proof (run_listener _ _ _ Hrun) as Hl. apply (Inv_goes sys listener I Hl).
Qed.

(** A channel that a step closes is the current one, closed by
    [update_master], or the channel of a pipe that ends. *)
Lemma step_closes l sys sys' c :
  sys_step env l sys = Some sys' ->
  is_Some (chans (shared sys) !! c) ->
  closed c (shared sys) = false -> closed c (shared sys') = true ->
  (l = LClose /\ c = masterStopChan (shared sys))
  \/ (exists i s to_master copied,
        l = LPipe i to_master copied /\ sessions sys !! i = Some (Selecting s)
        /\ c = if to_master then sess_remoteChan s else sess_localChan s).
Proof.
  intros Hstep Hin Hc Hc'.
  assert (Hsame : chans (shared sys') = chans (shared sys) -> False).
  { intros Hh. rewrite (closed_heap c _ _ Hh) in Hc'. congruence. }
  assert (Hnew : forall c' (h : gmap Chan bool),
            h !! c' = None -> chans (shared sys) !! c = h !! c -> c <> c').
  { intros c' h Hn Heq ->. rewrite Heq, Hn in Hin. destruct Hin; discriminate. }
  destruct l as [poll| | | | |i|i to_master copied|i]; cbn [sys_step] in Hstep.
  - exfalso. destruct (tracker sys); try discriminate.
    destruct (update_master_compare poll env (shared sys)) as [[r| |] st'] eqn:E;
      cbn in Hstep; try discriminate.
    destruct (compare_heap _ _ _ _ _ E) as [[Hh _] _]. destruct r.
    + injection Hstep as <-. auto.
    + destruct (update_master_sleep env st') as [[u| |] st''] eqn:E'; cbn in Hstep;
        try discriminate.
      destruct (sleep_heap _ _ _ _ E') as [[Hh' _] _]. injection Hstep as <-.
      apply Hsame. cbn. congruence.
    + injection Hstep as <-. auto.
  - left. split; [reflexivity|]. destruct (tracker sys); try discriminate.
    destruct (update_master_close env (shared sys)) as [[u| |] st'] eqn:E;
      cbn in Hstep; try discriminate.
    destruct (close_heap _ _ _ _ E) as (_ & Hh & _). injection Hstep as <-. cbn in Hc'.
    destruct (decide (c = masterStopChan (shared sys))) as [|Hne]; [assumption|].
    rewrite (closed_insert_other c _ _ _ _ Hh Hne) in Hc'. congruence.
  - exfalso. destruct (tracker sys); try discriminate.
    destruct ((update_master_make;; update_master_sleep) env (shared sys)) as [[u| |] st'] eqn:E;
      cbn in Hstep; try discriminate.
    destruct (make_heap _ _ _ _ E) as (Hh & _). injection Hstep as <-. cbn in Hc'.
    rewrite (closed_insert_other c _ _ _ _ Hh) in Hc'; [congruence|].
    eapply Hnew; [apply fresh_lookup|reflexivity].
  - exfalso. destruct (main_at sys); try discriminate.
    destruct (main_accept (listener_of sys) env (shared sys)) as [[[local|]| |] st'] eqn:E;
      cbn in Hstep; try discriminate;
      destruct (accept_heap _ _ _ _ _ E) as [[Hh _] _]; injection Hstep as <-; auto.
  - exfalso. destruct (main_at sys) as [|local remoteAddr]; try discriminate.
    destruct (main_go local remoteAddr env (shared sys)) as [[c0| |] st'] eqn:E;
      cbn in Hstep; try discriminate.
    destruct (go_heap _ _ _ _ _ _ E) as ([Hh _] & _). injection Hstep as <-. auto.
  - exfalso. destruct (sessions sys !! i) as [[local remoteAddr c0|s|]|]; try discriminate.
    destruct (proxy local remoteAddr c0 env (shared sys)) as [[[s|]| |] st'] eqn:E;
      cbn in Hstep; try discriminate;
      destruct (proxy_heap _ _ _ _ _ _ _ E) as (_ & _ & Hr); injection Hstep as <-; auto.
    destruct Hr as (Hh & _). cbn in Hc'.
    pose proof (fresh_lookup (chans (shared sys))) as H1.
    pose proof (fresh_lookup (<[fresh (dom (chans (shared sys))) := false]> (chans (shared sys))))
      as H2.
    assert (Hc1 : c <> fresh (dom (chans (shared sys)))) by (eapply Hnew; eauto).
    assert (Hc2 : c <> fresh (dom (<[fresh (dom (chans (shared sys))) := false]>
                                     (chans (shared sys))))).
    { eapply Hnew; [exact H2|]. rewrite lookup_insert_ne by congruence. reflexivity. }
    unfold closed in Hc, Hc'. rewrite Hh, !lookup_insert_ne in Hc' by congruence. congruence.
  - right. destruct (sessions sys !! i) as [[local remoteAddr c0|s|]|] eqn:Hi; try discriminate.
    destruct (sess_remote s) as [remote|]; try discriminate.
    exists i, s, to_master, copied. split; [reflexivity|]. split; [exact Hi|].
    destruct to_master;
      match type of Hstep with context [pipe ?r ?w ?ch copied env ?st] =>
        destruct (pipe r w ch copied env st) as [[u| |] st'] eqn:E; cbn in Hstep;
        try discriminate;
        destruct (pipe_heap _ _ _ _ _ _ _ _ E) as (_ & Hh & _); injection Hstep as <-;
        cbn in Hc'; destruct (decide (c = ch)) as [|Hne]; [assumption|];
        rewrite (closed_insert_other c _ _ _ _ Hh Hne) in Hc'; congruence
      end.
  - exfalso. destruct (sessions sys !! i) as [[local remoteAddr c0|s|]|]; try discriminate.
    destruct (select_ready s (shared sys)); try discriminate.
    destruct (proxy_return s env (shared sys)) as [[u| |] st'] eqn:E;
      cbn in Hstep; try discriminate.
    destruct (return_heap _ _ _ _ _ E) as [[Hh _] _]. injection Hstep as <-. auto.
Qed.

(** Where the sessions of the state after a step come from: a session
    with pipes was there before, or has just left its dial with two new
    channels. *)
Lemma sys_step_sessions l sys sys' j q :
  sys_step env l sys = Some sys' -> sessions sys' !! j = Some q ->
  pipes_of q = [] \/ sessions sys !! j = Some q
  \/ exists s, l = LDial j /\ q = Selecting s
       /\ sess_localChan s = fresh (dom (chans (shared sys)))
       /\ sess_remoteChan s
          = fresh (dom (<[fresh (dom (chans (shared sys))) := false]> (chans (shared sys)))).
Proof.
  intros Hstep Hj.
  destruct l as [poll| | | | |i|i to_master copied|i]; cbn [sys_step] in Hstep.
  - right. left. destruct (tracker sys); try discriminate.
    destruct (update_master_compare poll env (shared sys)) as [[[| |]| |] st']; cbn in Hstep;
      try discriminate.
    + injection Hstep as <-. exact Hj.
    + destruct (update_master_sleep env st') as [[u| |] st'']; cbn in Hstep; try discriminate.
      injection Hstep as <-. exact Hj.
    + injection Hstep as <-. exact Hj.
  - right. left. destruct (tracker sys); try discriminate.
    destruct (update_master_close env (shared sys)) as [[u| |] st']; cbn in Hstep;
      try discriminate. injection Hstep as <-. exact Hj.
  - right. left. destruct (tracker sys); try discriminate.
    destruct ((update_master_make;; update_master_sleep) env (shared sys)) as [[u| |] st'];
      cbn in Hstep; try discriminate. injection Hstep as <-. exact Hj.
  - right. left. destruct (main_at sys); try discriminate.
    destruct (main_accept (listener_of sys) env (shared sys)) as [[[local|]| |] st'];
      cbn in Hstep; try discriminate; injection Hstep as <-; exact Hj.
  - destruct (main_at sys) as [|local remoteAddr]; try discriminate.
    destruct (main_go local remoteAddr env (shared sys)) as [[c0| |] st']; cbn in Hstep;
      try discriminate. injection Hstep as <-. cbn in Hj.
    apply lookup_app_Some in Hj. destruct Hj as [Hj|[_ Hj]]; [auto|].
    left. destruct (j - length (sessions sys))%nat as [|k]; cbn in Hj; [|discriminate].
    injection Hj as <-. reflexivity.
  - destruct (sessions sys !! i) as [[local remoteAddr c0|s|]|] eqn:Hi; try discriminate.
    destruct (proxy local remoteAddr c0 env (shared sys)) as [[[s|]| |] st'] eqn:E;
      cbn in Hstep; try discriminate;
      destruct (proxy_heap _ _ _ _ _ _ _ E) as (_ & _ & Hr); injection Hstep as <-;
      cbn in Hj; apply list_lookup_insert_Some in Hj;
      destruct Hj as [(-> & <- & _)|(_ & Hj)]; auto.
    right. right. exists s. destruct Hr as (_ & _ & H1 & H2 & _). auto.
  - right. left. destruct (sessions sys !! i) as [[local remoteAddr c0|s|]|]; try discriminate.
    destruct (sess_remote s) as [remote|]; try discriminate.
    destruct to_master;
      match type of Hstep with context [pipe ?r ?w ?ch copied env ?st] =>
        destruct (pipe r w ch copied env st) as [[u| |] st']; cbn in Hstep;
        try discriminate; injection Hstep as <-; exact Hj
      end.
  - destruct (sessions sys !! i) as [[local remoteAddr c0|s|]|]; try discriminate.
    destruct (select_ready s (shared sys)); try discriminate.
    destruct (proxy_return s env (shared sys)) as [[u| |] st']; cbn in Hstep;
      try discriminate. injection Hstep as <-. cbn in Hj.
    apply list_lookup_insert_Some in Hj. destruct Hj as [(-> & <- & _)|(_ & Hj)]; auto.
Qed.

Lemma pipes_in_heap sys i p c :
  Inv sys -> sessions sys !! i = Some p -> In c (pipes_of p) ->
  is_Some (chans (shared sys) !! c).
Proof.
  intros I Hi Hc. destruct p as [| s |]; try contradiction.
  destruct (inv_pipes _ I s (In_lookup _ _ _ Hi)) as (_ & H1 & H2 & _).
  destruct Hc as [<-|[<-|[]]]; assumption.
Qed.

Lemma Private_step l sys sys' :
  Inv sys -> Private sys -> sys_step env l sys = Some sys' -> Private sys'.
Proof.
  intros I P Hstep i j p q c Hi Hj Hp Hq.
  destruct (decide (i = j)) as [|Hne]; [assumption|exfalso].
  assert (Hfresh : forall k r s, sessions sys !! k = Some r -> In c (pipes_of r) ->
            sess_localChan s = fresh (dom (chans (shared sys))) ->
            sess_remoteChan s
            = fresh (dom (<[fresh (dom (chans (shared sys))) := false]> (chans (shared sys)))) ->
            In c (pipes_of (Selecting s)) -> False).
  { intros k r s Hk Hr H1 H2 Hc.
    destruct (pipes_in_heap sys k r c I Hk Hr) as [b Hb].
    pose proof (fresh_lookup (chans (shared sys))) as F1.
    pose proof (fresh_lookup (<[fresh (dom (chans (shared sys))) := false]> (chans (shared sys))))
      as F2.
    cbn in Hc. rewrite H1, H2 in Hc. destruct Hc as [<-|[<-|[]]]; [congruence|].
    destruct (decide (fresh (dom (<[fresh (dom (chans (shared sys))) := false]>
                                    (chans (shared sys))))
                      = fresh (dom (chans (shared sys))))) as [Heq|Hd].
    - rewrite Heq, lookup_insert_eq in F2. discriminate.
    - rewrite lookup_insert_ne in F2 by congruence. congruence. }
  destruct (sys_step_sessions _ _ _ _ _ Hstep Hi) as [Hn|[Hi'|(s & Hl & -> & Hs1 & Hs2)]];
    [rewrite Hn in Hp; contradiction| |];
    destruct (sys_step_sessions _ _ _ _ _ Hstep Hj) as [Hn|[Hj'|(s' & Hl' & -> & Hs1' & Hs2')]];
    try (rewrite Hn in Hq; contradiction).
  - apply Hne. eapply P; eauto.
  - eapply Hfresh; eauto.
  - eapply Hfresh; eauto.
  - (* only one session leaves its dial in a step *)
    congruence.
Qed.

Lemma Private_run labels : forall sys sys',
  Inv sys -> Private sys -> sys_run env labels sys = Some sys' -> Private sys'.
Proof.
  induction labels as [|l labels IH]; cbn; intros sys sys' I P H.
  - injection H as <-. exact P.
  - destruct (sys_step env l sys) as [sys1|] eqn:E; [|discriminate].
    eapply IH; [eapply Inv_step; eauto|eapply Private_step; eauto|exact H].
Qed.

Lemma Private_system_of listener st : Private (system_of listener st).
Proof. intros i j p q c Hi. destruct i; discriminate. Qed.

(** X13.  A session in its [select] is woken by two things only: the close
    of the channel of the master by [update_master], when the session
    holds the channel that is current then, and the end of one of its own
    two pipes.  No other statement makes its [select] ready: not the end
    of the pipe of another session, not the dial of another session, not
    a new channel. *)
Theorem session_woken_by listener st0 labels sys i s l sys' :
  chans st0 !! masterStopChan st0 = Some false ->
  sys_run env labels (system_of listener st0) = Some sys ->
  sessions sys !! i = Some (Selecting s) ->
  select_ready s (shared sys) = false ->
  sys_step env l sys = Some sys' ->
  select_ready s (shared sys') = true ->
  (l = LClose /\ sess_masterStopChan s = masterStopChan (shared sys))
  \/ exists to_master copied, l = LPipe i to_master copied.
Proof.
  intros Hopen Hrun Hi Hnot Hstep Hready.
  pose proof (Inv_run _ _ _ _ (Inv_system_of listener st0 Hopen) Hrun) as I.
  pose proof (Private_run _ _ _ (Inv_system_of listener st0 Hopen)
                (Private_system_of listener st0) Hrun) as P.
  pose proof (In_lookup _ _ _ Hi) as Hin.
  destruct (inv_pipes _ I s Hin) as (_ & H1 & H2 & Hn1 & Hn2).
  assert (Hstop : In (sess_masterStopChan s) (epochs sys))
    by (eapply (inv_stop _ I (Selecting s)); [exact Hin|reflexivity]).
  pose proof (Inv_epochs_dom sys _ I Hstop) as H0.
  unfold select_ready in Hnot, Hready.
  apply orb_false_elim in Hnot. destruct Hnot as [Hnot Hc2].
  apply orb_false_elim in Hnot. destruct Hnot as [Hc0 Hc1].
  assert (Hcur : In (masterStopChan (shared sys)) (epochs sys)).
  { destruct (inv_current _ I) as (olds & ->). left. reflexivity. }
  assert (Hpipe : forall c, In c (pipes_of (Selecting s)) ->
            closed c (shared sys) = false -> closed c (shared sys') = true ->
            exists to_master copied, l = LPipe i to_master copied).
  { intros c Hc Hf Ht.
    destruct (step_closes l sys sys' c Hstep (pipes_in_heap sys i _ c I Hi Hc) Hf Ht)
      as [[_ Heq]|(k & s' & to_master & copied & -> & Hk & Hck)].
    - exfalso. rewrite Heq in Hc.
      destruct Hc as [Hc|[Hc|[]]]; [apply Hn1|apply Hn2]; rewrite Hc; exact Hcur.
    - assert (i = k) as <-; [|eauto].
      apply (P i k (Selecting s) (Selecting s') c Hi Hk Hc).
      rewrite Hck. destruct to_master; cbn; auto. }
  apply orb_true_iff in Hready. destruct Hready as [Hready|Hr2].
  - apply orb_true_iff in Hready. destruct Hready as [Hr0|Hr1].
    + destruct (step_closes l sys sys' _ Hstep H0 Hc0 Hr0)
        as [[-> Heq]|(k & s' & to_master & copied & -> & Hk & Hck)]; [left; auto|].
      exfalso. destruct (inv_pipes _ I s' (In_lookup _ _ _ Hk)) as (_ & _ & _ & Hk1 & Hk2).
      rewrite Hck in Hstop. destruct to_master; auto.
    + right. apply (Hpipe (sess_localChan s)); cbn; auto.
  - right. apply (Hpipe (sess_remoteChan s)); cbn; auto.
Qed.

(** X14.  [masterAddr] and [masterStopChan] have one writer.  A step that
    changes [masterAddr] is the comparison of [update_master] after a poll
    without error whose result is printed differently, and the new value is
    that result; a step that changes [masterStopChan] is the statement of
    [update_master] that makes a channel, and the new value is a channel
    that was not there before.  The accept loop, the sessions and the
    pipes write neither. *)
Theorem only_update_master_writes l sys sys' :
  sys_step env l sys = Some sys' ->
  (masterAddr (shared sys') = masterAddr (shared sys)
   \/ exists pm, l = LPoll (pm, None) /\ masterAddr (shared sys') = pm
                 /\ net.TCPAddr_String pm <> net.TCPAddr_String (masterAddr (shared sys)))
  /\ (masterStopChan (shared sys') = masterStopChan (shared sys)
      \/ (l = LMake /\ chans (shared sys) !! masterStopChan (shared sys') = None)).
Proof.
  intros Hstep. destruct (sys_step_move _ _ _ _ Hstep) as (Hmove & He & _). split.
  - inversion Hmove; subst; eauto.
  - destruct l; try (left; apply He; discriminate).
    right. split; [reflexivity|]. cbn [sys_step] in Hstep.
    destruct (tracker sys); try discriminate.
    destruct ((update_master_make;; update_master_sleep) env (shared sys)) as [[u| |] st'] eqn:E;
      cbn in Hstep; try discriminate.
    destruct (make_heap _ _ _ _ E) as (_ & Hm & _). injection Hstep as <-. cbn.
    rewrite Hm. apply fresh_lookup.
Qed.

(** X16.  The arguments of the [go] statement of [main] are read one
    after the other, and [update_master] may take its turn in between.
    When [main] has accepted a client and read [masterAddr], and
    [update_master] then finds another master, closes the channel and makes
    the new one before [main] reads [masterStopChan], the session is
    started with the address of the previous master and with the new
    channel, which is open: the close that came with the change is not the
    one it waits for. *)
Theorem session_with_old_master listener st0 labels sys peer pm :
  chans st0 !! masterStopChan st0 = Some false ->
  sys_run env labels (system_of (Some listener) st0) = Some sys ->
  tracker sys = AtPoll -> main_at sys = AtAccept ->
  accept_at (world env) (clock (shared sys)) = inl peer ->
  net.TCPAddr_String pm <> net.TCPAddr_String (masterAddr (shared sys)) ->
  exists sys' local,
    sys_run env [LAccept; LPoll (pm, None); LClose; LMake; LGo] sys = Some sys'
    /\ masterAddr (shared sys') = pm
    /\ sessions sys'
       = (sessions sys
          ++ [Dialing local (masterAddr (shared sys)) (masterStopChan (shared sys'))])%list
    /\ closed (masterStopChan (shared sys)) (shared sys') = true
    /\ closed (masterStopChan (shared sys')) (shared sys') = false.
Proof.
  intros Hopen Hrun Ht Hm Hacc Hne.
  pose proof (Inv_run _ _ _ _ (Inv_system_of (Some listener) st0 Hopen) Hrun) as I.
  pose proof (run_listener _ _ _ Hrun) as Hl. cbn in Hl.
  pose proof (inv_open _ I) as Ho. rewrite Ht in Ho. cbn in Ho.
  cbn [sys_run sys_step]. rewrite Hm, Hl. unfold main_accept, AcceptTCP. mrun.
  rewrite Hacc. mrun. rewrite Ht. unfold update_master_compare. mrun.
  destruct (String.eqb_spec (net.TCPAddr_String pm) (net.TCPAddr_String (masterAddr (shared sys))))
    as [Heq|_]; [contradiction|]. mrun.
  unfold update_master_close, close_chan. mrun. rewrite Ho. mrun.
  unfold update_master_make, update_master_sleep, make_chan. mrun.
  unfold main_go. mrun.
  eexists _, _. split; [reflexivity|]. cbn. split; [reflexivity|]. split; [reflexivity|].
  unfold closed. cbn.
  pose proof (fresh_lookup (<[masterStopChan (shared sys) := true]> (chans (shared sys)))) as Hf.
  rewrite lookup_insert_eq. split; [|reflexivity].
  rewrite lookup_insert_ne, lookup_insert_eq; [reflexivity|].
  intros Heq. rewrite Heq, lookup_insert_eq in Hf. discriminate.
Qed.

End Goroutines.

Lemma no_goroutine_stops_witness :
  chans Sample.started !! masterStopChan Sample.started = Some false
  /\ exists sys,
       sys_run Sample.env Sample.failover (system_of Sample.listener Sample.started) = Some sys
       /\ tracker_goes Sample.env sys /\ main_goes Sample.env sys.
Proof.
  assert (Ho : chans Sample.started !! masterStopChan Sample.started = Some false)
    by (vm_compute; reflexivity).
  split; [exact Ho|].
  destruct (sys_run Sample.env Sample.failover (system_of Sample.listener Sample.started))
    as [sys|] eqn:E; [|vm_compute in E; discriminate].
  exists sys. split; [reflexivity|].
  destruct (no_goroutine_stops Sample.env _ _ _ _ Ho E) as (H1 & H2 & _). auto.
Defined.

Lemma session_woken_by_witness :
  chans Sample.started !! masterStopChan Sample.started = Some false
  /\ sys_run Sample.env Sample.before_close (system_of Sample.listener Sample.started)
     = Some Sample.at_close
  /\ sessions Sample.at_close !! 0%nat = Some (Selecting Sample.waiting)
  /\ select_ready Sample.waiting (shared Sample.at_close) = false
  /\ sys_step Sample.env LClose Sample.at_close = Some Sample.after_close
  /\ select_ready Sample.waiting (shared Sample.after_close) = true
  /\ ((LClose = LClose
       /\ sess_masterStopChan Sample.waiting = masterStopChan (shared Sample.at_close))
      \/ exists to_master copied, LClose = LPipe 0 to_master copied).
Proof.
  assert (Ho : chans Sample.started !! masterStopChan Sample.started = Some false)
    by (vm_compute; reflexivity).
  assert (Hrun : sys_run Sample.env Sample.before_close
                   (system_of Sample.listener Sample.started) = Some Sample.at_close)
    by (vm_compute; reflexivity).
  assert (Hi : sessions Sample.at_close !! 0%nat = Some (Selecting Sample.waiting))
    by (vm_compute; reflexivity).
  assert (Hn : select_ready Sample.waiting (shared Sample.at_close) = false)
    by (vm_compute; reflexivity).
  assert (Hs : sys_step Sample.env LClose Sample.at_close = Some Sample.after_close)
    by (vm_compute; reflexivity).
  assert (Hr : select_ready Sample.waiting (shared Sample.after_close) = true)
    by (vm_compute; reflexivity).
  repeat (split; [assumption|]).
  exact (session_woken_by Sample.env _ _ _ _ _ _ _ _ Ho Hrun Hi Hn Hs Hr).
Defined.

Lemma only_update_master_writes_witness :
  exists sys',
    sys_step Sample.env (LPoll (Some Sample.master1, None))
      (system_of Sample.listener Sample.started) = Some sys'
    /\ masterAddr (shared sys') = Some Sample.master1
    /\ masterStopChan (shared sys') = masterStopChan Sample.started.
Proof.
  destruct (sys_step Sample.env (LPoll (Some Sample.master1, None))
              (system_of Sample.listener Sample.started)) as [sys'|] eqn:E;
    [|vm_compute in E; discriminate].
  exists sys'. split; [reflexivity|].
  destruct (only_update_master_writes Sample.env _ _ _ E) as [Ha Hc]. split.
  - destruct Ha as [Ha|(pm & [= <-] & Ha & _)]; [|exact Ha].
    revert E Ha. vm_compute. intros [= <-]. discriminate.
  - destruct Hc as [Hc|[[=] _]]. exact Hc.
Defined.

Lemma session_with_old_master_witness :
  chans Sample.running !! masterStopChan Sample.running = Some false
  /\ net.TCPAddr_String (Some Sample.master2)
     <> net.TCPAddr_String (masterAddr (shared (system_of Sample.listener Sample.running)))
  /\ exists sys' local,
       sys_run Sample.env [LAccept; LPoll (Some Sample.master2, None); LClose; LMake; LGo]
         (system_of Sample.listener Sample.running) = Some sys'
       /\ masterAddr (shared sys') = Some Sample.master2
       /\ sessions sys' = [Dialing local (Some Sample.master1) (masterStopChan (shared sys'))]
       /\ closed 0%nat (shared sys') = true
       /\ closed (masterStopChan (shared sys')) (shared sys') = false.
Proof.
  assert (Ho : chans Sample.running !! masterStopChan Sample.running = Some false)
    by (vm_compute; reflexivity).
  assert (Hne : net.TCPAddr_String (Some Sample.master2)
                <> net.TCPAddr_String
                     (masterAddr (shared (system_of Sample.listener Sample.running))))
    by (vm_compute; discriminate).
  split; [exact Ho|]. split; [exact Hne|].
  exact (session_with_old_master Sample.env
           (mkListener (Some (net.mkTCPAddr EmptyString 9999 EmptyString))) Sample.running []
           (system_of Sample.listener Sample.running) "192.168.0.7:51000"
           (Some Sample.master2) Ho eq_refl eq_refl eq_refl eq_refl Hne).
Defined.
